(** * e-Paper album: the network sync engine of [EPD_Album.c]

    A shallow embedding of the WiFi/socket demo that polls an image server
    (commands [update], [info], [get_c]) and pushes the downloaded frame to
    the 4.0 inch e-paper panel, together with the properties of its
    command channel, response parsing, frame download and sync loop.

    Conventions of the embedding:
    - a [char] or [uint8_t] is a [Z]; a buffer is a [list Z]; a C string is
      the part of a buffer before its first NUL;
    - [uint32_t] arithmetic is written with its wrap-around ([to_uint32]);
    - a pointer that the code tests against NULL is an [option];
    - the Tuya SDK, libc [malloc] and the panel driver are not part of the
      repository sources: their answers come from a scripted [world], and
      every call that is visible from outside is recorded as an [event];
    - logging ([PR_DEBUG], [PR_INFO], [PR_ERR], [printf]) is left out. *)

From Stdlib Require Import String Ascii.
From Stdlib Require Import ZArith List Bool Lia.
Import ListNotations.
Local Open Scope Z_scope.

(* ================================================================= *)
(** ** Bytes, buffers and C strings *)

Definition byte_of_ascii (a : ascii) : Z := Z.of_N (N_of_ascii a).

(** The characters of a string literal, without the terminating NUL. *)
Definition str (s : string) : list Z := map byte_of_ascii (list_ascii_of_string s).

(** The double-quote character. *)
Definition dq : Z := 34.

(** The C literal ["\"name\""]. *)
Definition quoted (name : string) : list Z := dq :: str name ++ [dq].

Definition to_uint32 (x : Z) : Z := x mod 2 ^ 32.

(** Conversion to a 32-bit [int] on a two's complement machine. *)
Definition to_int32 (x : Z) : Z := (x + 2 ^ 31) mod 2 ^ 32 - 2 ^ 31.

(** [memset (buf, c, n)] *)
Definition memset (buf : list Z) (c : Z) (n : Z) : list Z :=
  repeat c (Z.to_nat n) ++ skipn (Z.to_nat n) buf.

(** [memcpy (buf + off, src, length src)].  A copy that runs past the end
    of [buf] shows as a longer result. *)
Definition memcpy_at (buf : list Z) (off : nat) (src : list Z) : list Z :=
  firstn off buf ++ src ++ skipn (off + length src) buf.

(** [buf[i] = c] *)
Definition store (buf : list Z) (i : nat) (c : Z) : list Z := memcpy_at buf i [c].

(** [true] when the characters of [needle] are the first characters of [s]. *)
Fixpoint starts_with (needle s : list Z) : bool :=
  match needle with
  | [] => true
  | c :: needle' =>
      match s with
      | [] => false
      | h :: s' => (h =? c) && starts_with needle' s'
      end
  end.

(** [strstr (s, needle)]: offset of the first occurrence of [needle] in the
    C string at [s], [None] for NULL.  [needle] holds no NUL. *)
Fixpoint strstr (s needle : list Z) : option nat :=
  if starts_with needle s then Some O
  else match s with
       | [] => None
       | h :: s' => if h =? 0 then None else option_map S (strstr s' needle)
       end.

(** [strchr (s, c)]: offset of the first [c] in the C string at [s]. *)
Fixpoint strchr (s : list Z) (c : Z) : option nat :=
  match s with
  | [] => None
  | h :: s' =>
      if h =? c then Some O
      else if h =? 0 then None
      else option_map S (strchr s' c)
  end.

Definition isspace (c : Z) : bool := (c =? 32) || ((9 <=? c) && (c <=? 13)).
Definition isdigit (c : Z) : bool := (48 <=? c) && (c <=? 57).

Fixpoint skip_ws (s : list Z) : list Z :=
  match s with
  | c :: s' => if isspace c then skip_ws s' else s
  | [] => []
  end.

Fixpoint digits (acc : Z) (s : list Z) : Z :=
  match s with
  | c :: s' => if isdigit c then digits (acc * 10 + (c - 48)) s' else acc
  | [] => acc
  end.

(** The [%d] conversion: leading white space, an optional sign, at least
    one digit.  The model keeps the mathematical value (a number that does
    not fit an [int] is undefined behaviour in C). *)
Definition scan_int (s : list Z) : option Z :=
  match skip_ws s with
  | [] => None
  | c :: s' =>
      if (c =? 45) || (c =? 43) then
        match s' with
        | d :: _ =>
            if isdigit d then Some (if c =? 45 then - digits 0 s' else digits 0 s')
            else None
        | [] => None
        end
      else if isdigit c then Some (digits 0 (c :: s'))
      else None
  end.

(** The directives of the [sscanf] formats the program uses. *)
Inductive directive : Type :=
| Lit (c : Z)    (* an ordinary character: must match the input *)
| Ws             (* white space in the format: skips any white space *)
| IntD.          (* [%d], the last directive of every format here *)

(** [sscanf (s, fmt, &x)] for a format with one [%d]: the value stored in
    [x], or [None] when the input stops matching before (x unchanged). *)
Fixpoint sscanf (s : list Z) (fmt : list directive) : option Z :=
  match fmt with
  | [] => None
  | Lit c :: fmt' =>
      match s with
      | h :: s' => if h =? c then sscanf s' fmt' else None
      | [] => None
      end
  | Ws :: fmt' => sscanf (skip_ws s) fmt'
  | IntD :: _ => scan_int s
  end.

(** The format ["\"name\" : %d"]. *)
Definition field_format (name : string) : list directive :=
  map Lit (quoted name) ++ [Ws; Lit 58; Ws; IntD].

(* ================================================================= *)
(** ** Configuration *)

Definition RECV_BUFFER_SIZE : Z := 1024.
Definition LOOP_INTERVAL_MS : Z := 180000.
Definition IMAGE_BUFFER_SIZE : Z := 120000.
Definition SOCKET_SERVER_PORT : Z := 18888.

(* ================================================================= *)
(** ** The world outside the program *)

(** What one [tal_net_recv] can find on the socket: a segment of bytes
    that has arrived, or a fault (time-out or I/O error, a negative
    return).  The end of the list is the orderly close of the peer. *)
Inductive rx : Type :=
| Seg (b : Z) (bs : list Z)
| Fault (errno : positive).

(** The behaviour of one TCP connection attempt. *)
Record peer : Type := mkPeer {
  create_ret : Z;       (* [tal_net_socket_create]: negative on failure *)
  addr_ret : Z;         (* [tal_net_str2addr]: 0 on failure *)
  connect_ret : Z;      (* [tal_net_connect]: non-zero on failure *)
  send_ret : Z;         (* [tal_net_send]: negative on failure *)
  incoming : list rx    (* what the peer delivers *)
}.

Inductive WF_EVENT_E : Type :=
| WFE_CONNECTED
| WFE_CONNECT_FAILED
| WFE_DISCONNECTED
| WFE_OTHER (code : Z).

Inductive TRANS_TYPE : Type := TRANS_RECV | TRANS_SEND.

Inductive event : Type :=
| EvSocketCreate (ret : Z)
| EvSetTimeout (fd ms : Z) (dir : TRANS_TYPE)
| EvStr2Addr (ret : Z)
| EvConnect (fd port ret : Z)
| EvSend (fd : Z) (buf : list Z) (ret : Z)
| EvRecv (fd len ret : Z) (got : list Z)
| EvClose (fd : Z)
| EvSleep (ms : Z)                      (* [tal_system_sleep] *)
| EvReadLink (v : bool)                 (* read of the volatile [g_wifi_connected] *)
| EvMalloc (size : Z) (ok : bool)
| EvFree
| EvModuleInit (ret : Z)
| EvEpdInit
| EvDisplayFast (image : list Z)
| EvDelay (ms : Z)                      (* [DEV_Delay_ms] *)
| EvEpdSleep
| EvModuleExit
| EvWifiInit (ret : Z)
| EvWifiSetWorkMode (ret : Z)
| EvWifiStationConnect (ret : Z)
| EvWifiStationDisconnect.

Record world : Type := mkWorld {
  g_wifi_connected : bool;
  g_socket_connected : bool;
  g_image_index : Z;
  g_image_total : Z;
  sock : option (Z * peer);               (* the open socket and its peer *)
  net : list peer;                        (* the connection attempts to come *)
  heap : list (option (list Z));          (* the answers of [malloc] to come *)
  dev_inits : list Z;                     (* the answers of [DEV_Module_Init] *)
  link_events : list (list WF_EVENT_E);   (* WiFi events raised during each sleep *)
  wifi_init_ret : Z;
  wifi_mode_ret : Z;
  wifi_connect_ret : Z
}.

Definition set_wifi_connected (b : bool) (w : world) : world :=
  mkWorld b (g_socket_connected w) (g_image_index w) (g_image_total w) (sock w)
          (net w) (heap w) (dev_inits w) (link_events w)
          (wifi_init_ret w) (wifi_mode_ret w) (wifi_connect_ret w).

Definition set_socket_connected (b : bool) (w : world) : world :=
  mkWorld (g_wifi_connected w) b (g_image_index w) (g_image_total w) (sock w)
          (net w) (heap w) (dev_inits w) (link_events w)
          (wifi_init_ret w) (wifi_mode_ret w) (wifi_connect_ret w).

Definition set_image_index (v : Z) (w : world) : world :=
  mkWorld (g_wifi_connected w) (g_socket_connected w) v (g_image_total w) (sock w)
          (net w) (heap w) (dev_inits w) (link_events w)
          (wifi_init_ret w) (wifi_mode_ret w) (wifi_connect_ret w).

Definition set_image_total (v : Z) (w : world) : world :=
  mkWorld (g_wifi_connected w) (g_socket_connected w) (g_image_index w) v (sock w)
          (net w) (heap w) (dev_inits w) (link_events w)
          (wifi_init_ret w) (wifi_mode_ret w) (wifi_connect_ret w).

Definition set_sock (s : option (Z * peer)) (w : world) : world :=
  mkWorld (g_wifi_connected w) (g_socket_connected w) (g_image_index w)
          (g_image_total w) s
          (net w) (heap w) (dev_inits w) (link_events w)
          (wifi_init_ret w) (wifi_mode_ret w) (wifi_connect_ret w).

Definition set_net (n : list peer) (w : world) : world :=
  mkWorld (g_wifi_connected w) (g_socket_connected w) (g_image_index w)
          (g_image_total w) (sock w)
          n (heap w) (dev_inits w) (link_events w)
          (wifi_init_ret w) (wifi_mode_ret w) (wifi_connect_ret w).

Definition set_heap (h : list (option (list Z))) (w : world) : world :=
  mkWorld (g_wifi_connected w) (g_socket_connected w) (g_image_index w)
          (g_image_total w) (sock w)
          (net w) h (dev_inits w) (link_events w)
          (wifi_init_ret w) (wifi_mode_ret w) (wifi_connect_ret w).

Definition set_dev_inits (d : list Z) (w : world) : world :=
  mkWorld (g_wifi_connected w) (g_socket_connected w) (g_image_index w)
          (g_image_total w) (sock w)
          (net w) (heap w) d (link_events w)
          (wifi_init_ret w) (wifi_mode_ret w) (wifi_connect_ret w).

Definition set_link_events (l : list (list WF_EVENT_E)) (w : world) : world :=
  mkWorld (g_wifi_connected w) (g_socket_connected w) (g_image_index w)
          (g_image_total w) (sock w)
          (net w) (heap w) (dev_inits w) l
          (wifi_init_ret w) (wifi_mode_ret w) (wifi_connect_ret w).

(* ================================================================= *)
(** ** The monad: state passing with a trace of events *)

Definition M (A : Type) : Type := world -> A * world * list event.

Definition ret {A : Type} (a : A) : M A := fun w => (a, w, []).

Definition bind {A B : Type} (m : M A) (k : A -> M B) : M B :=
  fun w =>
    let '(a, w1, t1) := m w in
    let '(b, w2, t2) := k a w1 in
    (b, w2, t1 ++ t2).

Definition emit (e : event) : M unit := fun w => (tt, w, [e]).
Definition get : M world := fun w => (w, w, []).
Definition modify (f : world -> world) : M unit := fun w => (tt, f w, []).

Declare Scope m_scope.
Delimit Scope m_scope with m.
Notation "x <- c1 ;; c2" := (bind c1 (fun x => c2))
  (at level 61, c1 at next level, right associativity) : m_scope.
Notation "' pat <- c1 ;; c2" := (bind c1 (fun x => match x with pat => c2 end))
  (at level 61, pat pattern, c1 at next level, right associativity) : m_scope.
Notation "c1 ;; c2" := (bind c1 (fun _ => c2))
  (at level 61, right associativity) : m_scope.
Local Open Scope m_scope.

Definition value {A : Type} (r : A * world * list event) : A := fst (fst r).
Definition final {A : Type} (r : A * world * list event) : world := snd (fst r).
Definition trace {A : Type} (r : A * world * list event) : list event := snd r.

(* ================================================================= *)
(** ** The Tuya network interface, as the scripted world answers it *)

Definition tal_net_socket_create : M Z :=
  fun w =>
    match net w with
    | [] => (-1, w, [EvSocketCreate (-1)])
    | p :: rest =>
        let fd := create_ret p in
        let w' := if fd <? 0 then w else set_sock (Some (fd, p)) w in
        (fd, set_net rest w', [EvSocketCreate fd])
    end.

Definition tal_net_set_timeout (fd ms : Z) (dir : TRANS_TYPE) : M unit :=
  emit (EvSetTimeout fd ms dir).

Definition tal_net_str2addr : M Z :=
  fun w =>
    let r := match sock w with Some (_, p) => addr_ret p | None => 0 end in
    (r, w, [EvStr2Addr r]).

Definition tal_net_connect (fd addr port : Z) : M Z :=
  fun w =>
    let r := match sock w with Some (_, p) => connect_ret p | None => -1 end in
    (r, w, [EvConnect fd port r]).

Definition tal_net_send (fd : Z) (buf : list Z) : M Z :=
  fun w =>
    let r := match sock w with Some (_, p) => send_ret p | None => -1 end in
    (r, w, [EvSend fd buf r]).

(** One receive of at most [len] bytes from what the peer delivers: the
    return value, the bytes, and what is left on the connection. *)
Definition recv_from (len : Z) (q : list rx) : Z * list Z * list rx :=
  match q with
  | [] => (0, [], [])
  | Fault e :: q' => (Z.neg e, [], q')
  | Seg b bs :: q' =>
      let got := firstn (Z.to_nat len) (b :: bs) in
      (Z.of_nat (length got), got,
       match skipn (Z.to_nat len) (b :: bs) with
       | [] => q'
       | b' :: bs' => Seg b' bs' :: q'
       end)
  end.

Definition with_incoming (q : list rx) (p : peer) : peer :=
  mkPeer (create_ret p) (addr_ret p) (connect_ret p) (send_ret p) q.

(** [tal_net_recv (fd, buf, len)]: the return value and the bytes that the
    call has put at [buf]. *)
Definition tal_net_recv (fd len : Z) : M (Z * list Z) :=
  fun w =>
    match sock w with
    | None => ((-1, []), w, [EvRecv fd len (-1) []])
    | Some (s, p) =>
        let '(r, got, q) := recv_from len (incoming p) in
        ((r, got), set_sock (Some (s, with_incoming q p)) w, [EvRecv fd len r got])
    end.

Definition tal_net_close (fd : Z) : M unit :=
  fun w => (tt, set_sock None w, [EvClose fd]).

(* ================================================================= *)
(** ** [socket_send_command] *)

(** The memory behind a pointer argument; nothing behind NULL. *)
Definition buffer_of (p : option (list Z)) : list Z :=
  match p with Some b => b | None => [] end.

(** [cmd] holds the characters of the command string, [response] the
    caller's buffer; the result pairs the return value with the buffer as
    the call leaves it. *)
Definition socket_send_command (cmd response : option (list Z)) (resp_size : Z)
  : M (Z * list Z) :=
  match cmd, response with
  | Some c, Some resp =>
      if resp_size <=? 0 then ret (-1, resp) else
      fd <- tal_net_socket_create ;;
      if fd <? 0 then ret (-1, resp) else
      tal_net_set_timeout fd 5000 TRANS_RECV ;;
      tal_net_set_timeout fd 5000 TRANS_SEND ;;
      server_addr <- tal_net_str2addr ;;
      if server_addr =? 0 then (tal_net_close fd ;; ret (-1, resp)) else
      conn_ret <- tal_net_connect fd server_addr SOCKET_SERVER_PORT ;;
      if negb (conn_ret =? 0) then (tal_net_close fd ;; ret (-1, resp)) else
      send_ret <- tal_net_send fd c ;;
      if send_ret <? 0 then (tal_net_close fd ;; ret (-1, resp)) else
      let resp := memset resp 0 resp_size in
      ' (recv_ret, got) <- tal_net_recv fd (resp_size - 1) ;;
      let resp := memcpy_at resp 0 got in
      if recv_ret >? 0 then
        let resp := store resp (Z.to_nat recv_ret) 0 in
        tal_net_close fd ;;
        modify (set_socket_connected false) ;;
        ret (0, resp)
      else if recv_ret =? 0 then
        tal_net_close fd ;;
        modify (set_socket_connected false) ;;
        ret (0, resp)
      else
        tal_net_close fd ;;
        ret (-1, resp)
  | _, _ => ret (-1, buffer_of response)
  end.

(* ================================================================= *)
(** ** [socket_get_image_data] *)

Definition to_uint8 (x : Z) : Z := x mod 256.

(** [(header[0] << 24) | (header[1] << 16) | (header[2] << 8) | header[3]],
    computed in [int] and stored in a [uint32_t]. *)
Definition decode_size (header : list Z) : Z :=
  let h i := to_uint8 (nth i header 0) in
  to_uint32
    (Z.lor (Z.lor (Z.lor (to_int32 (Z.shiftl (h 0%nat) 24)) (Z.shiftl (h 1%nat) 16))
                  (Z.shiftl (h 2%nat) 8))
           (h 3%nat)).

(** The receive loop [while (received < image_size)].  The result is
    [None] when [fuel] iterations were not enough; otherwise the return
    value that the loop forces ([-1], socket closed) or [0] when the loop
    ran to its end, with the buffer. *)
Fixpoint recv_image (fuel : nat) (fd image_size received : Z) (data : list Z)
  : M (option (Z * list Z)) :=
  if received <? image_size then
    match fuel with
    | O => ret None
    | S fuel' =>
        let to_recv := to_uint32 (image_size - received) in
        let to_recv := if to_recv >? 4096 then 4096 else to_recv in
        ' (recv_ret, got) <- tal_net_recv fd to_recv ;;
        let data := memcpy_at data (Z.to_nat received) got in
        if recv_ret <=? 0 then
          tal_net_close fd ;;
          ret (Some (-1, data))
        else
          recv_image fuel' fd image_size (to_uint32 (received + recv_ret)) data
    end
  else ret (Some (0, data)).

(** The result is [None] only if the receive loop ran out of fuel (it
    does not: [socket_get_image_data_returns]); otherwise the return value
    with the buffer at [data] and the value at [data_size] as the call
    leaves them. *)
Definition socket_get_image_data (data : option (list Z)) (data_size : option Z)
  : M (option (Z * list Z * Z)) :=
  match data, data_size with
  | Some buf, Some size =>
      fd <- tal_net_socket_create ;;
      if fd <? 0 then ret (Some (-1, buf, size)) else
      tal_net_set_timeout fd 10000 TRANS_RECV ;;
      tal_net_set_timeout fd 5000 TRANS_SEND ;;
      server_addr <- tal_net_str2addr ;;
      if server_addr =? 0 then (tal_net_close fd ;; ret (Some (-1, buf, size))) else
      conn_ret <- tal_net_connect fd server_addr SOCKET_SERVER_PORT ;;
      if negb (conn_ret =? 0) then (tal_net_close fd ;; ret (Some (-1, buf, size))) else
      send_ret <- tal_net_send fd (str "get_c") ;;
      if send_ret <? 0 then (tal_net_close fd ;; ret (Some (-1, buf, size))) else
      let header := memset [0; 0; 0; 0] 0 4 in
      ' (recv_ret, got) <- tal_net_recv fd 4 ;;
      let header := memcpy_at header 0 got in
      if negb (recv_ret =? 4) then (tal_net_close fd ;; ret (Some (-1, buf, size))) else
      let image_size := decode_size header in
      if image_size >? IMAGE_BUFFER_SIZE then
        (tal_net_close fd ;; ret (Some (-1, buf, size)))
      else
      let size := image_size in
      r <- recv_image (Z.to_nat image_size) fd image_size 0 buf ;;
      match r with
      | None => ret None
      | Some (rc, buf) =>
          if rc =? 0 then
            tal_net_close fd ;;
            ret (Some (0, buf, size))
          else ret (Some (-1, buf, size))
      end
  | _, _ => ret (Some (-1, buffer_of data, match data_size with Some v => v | None => 0 end))
  end.

(* ================================================================= *)
(** ** The WiFi side *)

(** [wifi_event_callback (event, arg)].  The address that the callback
    queries on [WFE_CONNECTED] only feeds the log. *)
Definition wifi_event_callback (ev : WF_EVENT_E) : M unit :=
  match ev with
  | WFE_CONNECTED =>
      modify (set_wifi_connected true)
  | WFE_CONNECT_FAILED =>
      modify (set_wifi_connected false)
  | WFE_DISCONNECTED =>
      modify (set_wifi_connected false) ;;
      modify (set_socket_connected false)
  | WFE_OTHER _ => ret tt
  end.

Fixpoint deliver (evs : list WF_EVENT_E) : M unit :=
  match evs with
  | [] => ret tt
  | e :: evs' => wifi_event_callback e ;; deliver evs'
  end.

(** Time passes: the WiFi stack calls the registered callback for the
    events that fall into this wait.  The program's callback can run at
    any moment; here it runs during the waits only, so that a value of
    [g_wifi_connected] is the one that a poll reads, not one that holds
    between two statements. *)
Definition wait_events : M unit :=
  w <- get ;;
  match link_events w with
  | [] => ret tt
  | evs :: rest => modify (set_link_events rest) ;; deliver evs
  end.

Definition tal_system_sleep (ms : Z) : M unit := emit (EvSleep ms) ;; wait_events.
Definition DEV_Delay_ms (ms : Z) : M unit := emit (EvDelay ms) ;; wait_events.

(** A read of the volatile flag [g_wifi_connected]. *)
Definition read_wifi_connected : M bool :=
  w <- get ;;
  emit (EvReadLink (g_wifi_connected w)) ;;
  ret (g_wifi_connected w).

(** The loop [while (timeout > 0)] of [wifi_connect_wait]. *)
Fixpoint wifi_connect_wait_from (timeout : nat) : M Z :=
  match timeout with
  | O => ret (-1)
  | S timeout' =>
      up <- read_wifi_connected ;;
      if up then ret 0
      else tal_system_sleep 1000 ;; wifi_connect_wait_from timeout'
  end.

Definition wifi_connect_wait : M Z := wifi_connect_wait_from 30.

(* ================================================================= *)
(** ** The panel driver and the allocator *)

Definition malloc (size : Z) : M (option (list Z)) :=
  fun w =>
    match heap w with
    | [] => (None, w, [EvMalloc size false])
    | None :: rest => (None, set_heap rest w, [EvMalloc size false])
    | Some junk :: rest =>
        let n := Z.to_nat size in
        (Some (firstn n (junk ++ repeat 0 n)), set_heap rest w, [EvMalloc size true])
    end.

Definition free : M unit := emit EvFree.

Definition DEV_Module_Init : M Z :=
  fun w =>
    match dev_inits w with
    | [] => (-1, w, [EvModuleInit (-1)])
    | r :: rest => (r, set_dev_inits rest w, [EvModuleInit r])
    end.

Definition EPD_4IN0E_Init : M unit := emit EvEpdInit.
Definition EPD_4IN0E_Display_Fast (image : list Z) : M unit := emit (EvDisplayFast image).
Definition EPD_4IN0E_Sleep : M unit := emit EvEpdSleep.
Definition DEV_Module_Exit : M unit := emit EvModuleExit.

(* ================================================================= *)
(** ** The steps of the sync loop *)

(** [p = strstr (response, "\"name\""); if (p) sscanf (p, "\"name\" : %d", &x)]:
    the value of [x] afterwards, [old] being its value before. *)
Definition scan_field (response : list Z) (name : string) (old : Z) : Z :=
  match strstr response (quoted name) with
  | Some p =>
      match sscanf (skipn p response) (field_format name) with
      | Some v => v
      | None => old
      end
  | None => old
  end.

(** The block that parses the [update] response. *)
Definition parse_update (response : list Z) : M unit :=
  w <- get ;;
  modify (set_image_index (scan_field response "current_index" (g_image_index w))) ;;
  w <- get ;;
  modify (set_image_total (scan_field response "total" (g_image_total w))).

(** [start = strchr (p, '"'); end = strchr (start + 1, '"')], as offsets
    from [p].  The second search is not made from a NULL [start] (which
    the call site rules out: [p] points at a double quote). *)
Definition find_quotes (s : list Z) : option nat * option nat :=
  match strchr s dq with
  | Some start =>
      (Some start,
       option_map (fun e => (start + 1 + e)%nat) (strchr (skipn (start + 1) s) dq))
  | None => (None, None)
  end.

(** [if (start && end && end > start + 1) { ... }]: the [filename] buffer
    afterwards. *)
Definition store_filename (filename s : list Z) (start_end : option nat * option nat)
  : list Z :=
  match start_end with
  | (Some start, Some end_) =>
      if (start + 1 <? end_)%nat then
        let len := (end_ - start - 1)%nat in
        if Z.of_nat len <? 256 - 1 then
          store (memcpy_at filename 0 (firstn len (skipn (start + 1) s))) len 0
        else filename
      else filename
  | _ => filename
  end.

(** The filename part of the block that parses the [info] response. *)
Definition parse_filename (response : list Z) : list Z :=
  let filename := repeat 0 256 in
  match strstr response (quoted "filename") with
  | Some p =>
      let s := skipn p response in
      store_filename filename s (find_quotes s)
  | None => filename
  end.

(** The block that parses the [info] response: [index], [total] and
    [filename] as they are logged. *)
Definition parse_info (response : list Z) : M (Z * Z * list Z) :=
  let index := scan_field response "index" 0 in
  total <- match strstr response (quoted "total") with
           | Some p =>
               let total :=
                 match sscanf (skipn p response) (field_format "total") with
                 | Some v => v
                 | None => 0
                 end in
               modify (set_image_total total) ;;
               ret total
           | None => ret 0
           end ;;
  ret (index, total, parse_filename response).

(* ================================================================= *)
(** ** [EPD_test_net] *)

(** The local variables of [EPD_test_net] that live across cycles. *)
Record locals : Type := mkLocals {
  response : list Z;      (* [char response[RECV_BUFFER_SIZE]] *)
  image_size : Z;         (* [uint32_t image_size] *)
  loop_count : Z          (* [uint32_t loop_count] *)
}.

(** How far a run has come. *)
Inductive progress : Type :=
| Looping (l : locals)    (* still inside [while (1)] *)
| Returned (rc : Z)       (* [EPD_test_net] has returned *)
| OutOfFuel.              (* the model of an inner loop ran out of fuel *)

(** [tal_system_sleep (LOOP_INTERVAL_MS)] followed by [continue], or by the
    end of the loop body. *)
Definition delay_and_continue (resp : list Z) (size count : Z) : M progress :=
  tal_system_sleep LOOP_INTERVAL_MS ;;
  ret (Looping (mkLocals resp size count)).

(** Step 4 of the loop body: show the frame on the panel. *)
Definition display_step (resp buf : list Z) (size count : Z) : M progress :=
  init <- DEV_Module_Init ;;
  if negb (init =? 0) then
    free ;;
    delay_and_continue resp size count
  else
    EPD_4IN0E_Init ;;
    EPD_4IN0E_Display_Fast buf ;;
    DEV_Delay_ms 30000 ;;
    EPD_4IN0E_Sleep ;;
    DEV_Delay_ms 500 ;;
    DEV_Module_Exit ;;
    free ;;
    delay_and_continue resp size count.

(** Step 3 of the loop body: allocate the image buffer and send [get_c]. *)
Definition fetch_step (resp : list Z) (size count : Z) : M progress :=
  image_buffer <- malloc IMAGE_BUFFER_SIZE ;;
  match image_buffer with
  | None => delay_and_continue resp size count
  | Some buf =>
      r <- socket_get_image_data (Some buf) (Some size) ;;
      match r with
      | None => ret OutOfFuel
      | Some (rc, buf, size) =>
          if negb (rc =? 0) then
            free ;;
            delay_and_continue resp size count
          else display_step resp buf size count
      end
  end.

(** Step 2 of the loop body: send [info] and parse the answer. *)
Definition info_step (resp : list Z) (size count : Z) : M progress :=
  ' (rc, resp) <- socket_send_command (Some (str "info")) (Some resp)
                                      RECV_BUFFER_SIZE ;;
  if negb (rc =? 0) then delay_and_continue resp size count
  else
    _ <- parse_info resp ;;
    fetch_step resp size count.

(** One turn of [while (1)], from step 1 (send [update] and parse the
    answer): every path ends in [continue] or at the end of the body. *)
Definition cycle (l : locals) : M progress :=
  let count := to_uint32 (loop_count l + 1) in
  ' (rc, resp) <- socket_send_command (Some (str "update")) (Some (response l))
                                      RECV_BUFFER_SIZE ;;
  if negb (rc =? 0) then delay_and_continue resp (image_size l) count
  else
    parse_update resp ;;
    info_step resp (image_size l) count.

(** [cycles] turns of [while (1)]. *)
Fixpoint main_loop (cycles : nat) (l : locals) : M progress :=
  match cycles with
  | O => ret (Looping l)
  | S cycles' =>
      r <- cycle l ;;
      match r with
      | Looping l' => main_loop cycles' l'
      | other => ret other
      end
  end.

Definition tal_wifi_init : M Z :=
  fun w => (wifi_init_ret w, w, [EvWifiInit (wifi_init_ret w)]).
Definition tal_wifi_set_work_mode : M Z :=
  fun w => (wifi_mode_ret w, w, [EvWifiSetWorkMode (wifi_mode_ret w)]).
Definition tal_wifi_station_connect : M Z :=
  fun w => (wifi_connect_ret w, w, [EvWifiStationConnect (wifi_connect_ret w)]).
Definition tal_wifi_station_disconnect : M unit := emit EvWifiStationDisconnect.

(** [EPD_test_net], followed for [cycles] turns of its main loop.
    [stack] is what the uninitialised [response] array holds. *)
Definition EPD_test_net (stack : list Z) (cycles : nat) : M progress :=
  let l := mkLocals (firstn 1024 (stack ++ repeat 0 1024)) 0 0 in
  op_ret <- tal_wifi_init ;;
  if negb (op_ret =? 0) then ret (Returned (-1)) else
  op_ret <- tal_wifi_set_work_mode ;;
  if negb (op_ret =? 0) then ret (Returned (-1)) else
  op_ret <- tal_wifi_station_connect ;;
  if negb (op_ret =? 0) then ret (Returned (-1)) else
  up <- wifi_connect_wait ;;
  if negb (up =? 0) then
    tal_wifi_station_disconnect ;;
    ret (Returned (-1))
  else main_loop cycles l.

(* ================================================================= *)
(** ** [socket_recv_json_response] *)

(** The result pairs the return value with the buffer as the call leaves
    it. *)
Definition socket_recv_json_response (response : option (list Z)) (resp_size : Z)
  : M (Z * list Z) :=
  match response with
  | Some resp =>
      if resp_size <=? 0 then ret (-1, resp) else
      fd <- tal_net_socket_create ;;
      if fd <? 0 then ret (-1, resp) else
      tal_net_set_timeout fd 5000 TRANS_RECV ;;
      tal_net_set_timeout fd 5000 TRANS_SEND ;;
      server_addr <- tal_net_str2addr ;;
      if server_addr =? 0 then (tal_net_close fd ;; ret (-1, resp)) else
      conn_ret <- tal_net_connect fd server_addr SOCKET_SERVER_PORT ;;
      if negb (conn_ret =? 0) then (tal_net_close fd ;; ret (-1, resp)) else
      let resp := memset resp 0 resp_size in
      ' (recv_ret, got) <- tal_net_recv fd (resp_size - 1) ;;
      let resp := memcpy_at resp 0 got in
      if recv_ret >? 0 then
        let resp := store resp (Z.to_nat recv_ret) 0 in
        tal_net_close fd ;;
        ret (if recv_ret >? 0 then 0 else -1, resp)
      else if recv_ret =? 0 then
        tal_net_close fd ;;
        ret (if recv_ret >? 0 then 0 else -1, resp)
      else
        tal_net_close fd ;;
        ret (-1, resp)
  | None => ret (-1, buffer_of response)
  end.

(* ================================================================= *)
(** ** [print_hex_dump] *)

(** The functions below give the characters that [printf] writes; the
    heading that goes to the log is left out with the rest of the
    logging. *)

Definition hex_digit (d : Z) : Z := if d <? 10 then 48 + d else 55 + d.

(** The [n] low hexadecimal digits of [x], the most significant first. *)
Fixpoint hex_low (n : nat) (x : Z) : list Z :=
  match n with
  | O => []
  | S n' => hex_low n' (x / 16) ++ [hex_digit (x mod 16)]
  end.

(** The [n] low decimal digits of [x], the most significant first. *)
Fixpoint dec_low (n : nat) (x : Z) : list Z :=
  match n with
  | O => []
  | S n' => dec_low n' (x / 10) ++ [48 + x mod 10]
  end.

(** Leading zeros are not printed, the last digit always is. *)
Fixpoint strip_zeros (ds : list Z) : list Z :=
  match ds with
  | d :: (_ :: _) as rest => if d =? 48 then strip_zeros rest else ds
  | _ => ds
  end.

(** The conversion [%0<width>X] of an [unsigned int]. *)
Definition printf_X (width : nat) (x : Z) : list Z :=
  let ds := strip_zeros (hex_low 8 (to_uint32 x)) in
  repeat 48 (width - length ds) ++ ds.

(** The conversion [%u] of an [unsigned int]. *)
Definition printf_u (x : Z) : list Z := strip_zeros (dec_low 10 (to_uint32 x)).

(** [data[offset]], a [uint8_t]. *)
Definition byte_at (data : list Z) (offset : Z) : Z :=
  to_uint8 (nth (Z.to_nat offset) data 0).

(** The values of [j] in [for (j = 0; j < 16; j++)]. *)
Definition columns : list Z := map Z.of_nat (seq 0 16).

(** The hexadecimal cell of column [j] in line [i]. *)
Definition hex_cell (data : list Z) (len i j : Z) : list Z :=
  let offset := to_uint32 (to_uint32 (i * 16) + j) in
  if offset <? len then printf_X 2 (byte_at data offset) ++ str " " else str "   ".

(** The text cell of column [j] in line [i]. *)
Definition ascii_cell (data : list Z) (len i j : Z) : list Z :=
  let offset := to_uint32 (to_uint32 (i * 16) + j) in
  if offset <? len then
    let c := byte_at data offset in
    [if (c >=? 32) && (c <? 127) then c else 46]
  else str " ".

(** What one turn of the outer loop prints before its last test. *)
Definition hex_line (data : list Z) (len i : Z) : list Z :=
  str "  " ++ printf_X 8 (to_uint32 (i * 16)) ++ str ": "
  ++ flat_map (hex_cell data len i) columns
  ++ str " |"
  ++ flat_map (ascii_cell data len i) columns
  ++ str "|" ++ [10].

(** The loop [for (i = 0; i < lines; i++)] from [i] on; [todo] is the
    number of turns that the loop test still allows, [lines - i]. *)
Fixpoint hex_lines (todo : nat) (data : list Z) (len lines i : Z) : list Z :=
  match todo with
  | O => []
  | S todo' =>
      hex_line data len i
      ++ (if (to_uint32 (to_uint32 (i + 1) * 16) >=? 20) && (lines >? 1) then
            str "  ... (truncated, total " ++ printf_u len ++ str " bytes)" ++ [10]
          else hex_lines todo' data len lines (to_uint32 (i + 1)))
  end.

(** [print_hex_dump (data, len, max_lines)]: the characters written to the
    standard output. *)
Definition print_hex_dump (data : list Z) (len max_lines : Z) : list Z :=
  let lines := to_uint32 (len + 15) / 16 in
  let lines := if lines >? max_lines then max_lines else lines in
  hex_lines (Z.to_nat lines) data len lines 0.

(* ================================================================= *)
(** * The vocabulary of the properties *)

(* ----------------------------------------------------------------- *)
(** ** Traces of the socket functions *)

(** A trace uses sockets properly when it creates a socket only while
    none is open, closes only the socket that is open, and this exactly
    once, and leaves no socket open at its end.  [open] is the socket that
    is open before the trace. *)
Fixpoint sockets_closed (open : option Z) (t : list event) : bool :=
  match t with
  | [] => match open with None => true | Some _ => false end
  | EvSocketCreate fd :: t' =>
      if fd <? 0 then sockets_closed open t'
      else match open with
           | None => sockets_closed (Some fd) t'
           | Some _ => false
           end
  | EvClose fd :: t' =>
      match open with
      | Some fd' => (fd =? fd') && sockets_closed None t'
      | None => false
      end
  | _ :: t' => sockets_closed open t'
  end.

(** The bytes that the receives of a trace have delivered, in order. *)
Definition received_bytes (t : list event) : list Z :=
  flat_map (fun e => match e with EvRecv _ _ _ got => got | _ => [] end) t.

(** A receive that returned zero (peer closed) or less (fault). *)
Definition short_read (e : event) : bool :=
  match e with EvRecv _ _ r _ => r <=? 0 | _ => false end.

(** A receive on [fd] that asks for at most [4096] bytes and gets at most
    what it asks for. *)
Definition chunk_read (fd : Z) (e : event) : bool :=
  match e with
  | EvRecv fd' len r _ => (fd' =? fd) && (len <=? 4096) && (r <=? len)
  | _ => false
  end.

(** The peer lets the program create the socket, resolve the address,
    connect and send. *)
Definition connects (p : peer) : Prop :=
  0 <= create_ret p /\ addr_ret p <> 0 /\ connect_ret p = 0 /\ 0 <= send_ret p.

(** The events up to the command being sent. *)
Definition prologue (p : peer) (recv_ms : Z) (cmd : list Z) : list event :=
  let fd := create_ret p in
  [EvSocketCreate fd; EvSetTimeout fd recv_ms TRANS_RECV; EvSetTimeout fd 5000 TRANS_SEND;
   EvStr2Addr (addr_ret p); EvConnect fd SOCKET_SERVER_PORT (connect_ret p);
   EvSend fd cmd (send_ret p)].

(** The world once the socket to [p] is open and [q] is what [p] has
    still to deliver. *)
Definition connected (w : world) (p : peer) (rest : list peer) (q : list rx) : world :=
  set_sock (Some (create_ret p, with_incoming q p))
           (set_net rest (set_sock (Some (create_ret p, p)) w)).

(** The calls between socket creation and the first receive. *)
Definition is_setup (e : event) : bool :=
  match e with
  | EvSetTimeout _ _ _ | EvStr2Addr _ | EvConnect _ _ _ | EvSend _ _ _ => true
  | _ => false
  end.

(** The runs of [socket_get_image_data], by the place where they end:
    the return value with the buffer and [*data_size], and the trace. *)
Inductive download_run (fd : Z) (buf : list Z) (size : Z)
  : option (Z * list Z * Z) -> list event -> Prop :=
| Run_no_socket :
    fd < 0 ->
    download_run fd buf size (Some (-1, buf, size)) [EvSocketCreate fd]
| Run_no_connection t :
    0 <= fd -> forallb is_setup t = true ->
    download_run fd buf size (Some (-1, buf, size))
                 (EvSocketCreate fd :: t ++ [EvClose fd])
| Run_no_header t r got :
    0 <= fd -> forallb is_setup t = true ->
    negb (r =? 4) || (decode_size (memcpy_at [0; 0; 0; 0] 0 got) >? IMAGE_BUFFER_SIZE) = true ->
    download_run fd buf size (Some (-1, buf, size))
                 (EvSocketCreate fd :: t ++ [EvRecv fd 4 r got; EvClose fd])
| Run_frame t header rs rc buf' :
    0 <= fd -> forallb is_setup t = true ->
    length header = 4%nat ->
    decode_size header <= IMAGE_BUFFER_SIZE ->
    forallb (chunk_read fd) rs = true ->
    (IMAGE_BUFFER_SIZE <= Z.of_nat (length buf) ->
     buf' = memcpy_at buf 0 (received_bytes rs)) ->
    (rc = 0 /\ Z.of_nat (length (received_bytes rs)) = decode_size header /\
     existsb short_read rs = false) \/
    (rc = -1 /\ Z.of_nat (length (received_bytes rs)) < decode_size header /\
     existsb short_read rs = true) ->
    download_run fd buf size (Some (rc, buf', decode_size header))
                 (EvSocketCreate fd :: t ++ EvRecv fd 4 4 header :: rs ++ [EvClose fd]).

(** The bytes that a peer delivers before its first fault or its close. *)
Fixpoint stream (q : list rx) : list Z :=
  match q with
  | Seg b bs :: q' => (b :: bs) ++ stream q'
  | _ => []
  end.

(* ----------------------------------------------------------------- *)
(** ** Concrete servers *)

(** A world in which nothing has happened yet and whose server answers
    the connections to come as [ps] says. *)
Definition server (ps : list peer) : world :=
  mkWorld true false 0 0 None ps [] [] [] 0 0 0.

(** A peer that accepts the connection and delivers [q]. *)
Definition accepting (q : list rx) : peer := mkPeer 3 1 0 5 q.

(** A freshly allocated image buffer. *)
Definition blank_image : list Z := repeat 0 (Z.to_nat IMAGE_BUFFER_SIZE).

(* ----------------------------------------------------------------- *)
(** ** The command channel *)

Definition is_recv (e : event) : bool :=
  match e with EvRecv _ _ _ _ => true | _ => false end.

(** The end of reading that the specification describes: the response
    buffer is full, or a receive has seen the peer close (zero) or has
    timed out (negative). *)
Definition read_ends_as_specified (resp_size : Z) (t : list event) : bool :=
  (Z.of_nat (length (received_bytes t)) =? resp_size - 1) || existsb short_read t.

(** The claim on a run of the command channel: if it reads at all, the
    reading ends as the specification describes. *)
Definition reads_until_full_closed_or_timeout
    (cmd resp : list Z) (resp_size : Z) (w : world) : Prop :=
  let t := trace (socket_send_command (Some cmd) (Some resp) resp_size w) in
  existsb is_recv t = true -> read_ends_as_specified resp_size t = true.

(** The [info] reply of the protocol, sent in two segments. *)
Definition info_reply_head : list Z :=
  str "{" ++ quoted "index" ++ str " : 3, " ++ quoted "total" ++ str " : 10, ".
Definition info_reply_tail : list Z :=
  quoted "filename" ++ str " : " ++ quoted "sunset.bin" ++ str "}".

Definition segment (bytes : list Z) : list rx :=
  match bytes with
  | [] => []
  | b :: bs => [Seg b bs]
  end.

Definition two_segment_server : world :=
  server [accepting (segment info_reply_head ++ segment info_reply_tail)].

(** The response buffer after a receive that returned [ret] and delivered
    [got]. *)
Definition response_after (resp : list Z) (resp_size ret : Z) (got : list Z) : list Z :=
  let resp := memcpy_at (memset resp 0 resp_size) 0 got in
  if ret >? 0 then store resp (Z.to_nat ret) 0 else resp.

(* ----------------------------------------------------------------- *)
(** ** The response parser *)

(** [needle] occurs in [s] at some offset below [n]. *)
Fixpoint occurs_before (needle s : list Z) (n : nat) : bool :=
  match n with
  | O => false
  | S n' =>
      starts_with needle s
      || match s with
         | [] => false
         | _ :: s' => occurs_before needle s' n'
         end
  end.

(** [needle] occurs somewhere in the buffer [s]. *)
Definition occurs (needle s : list Z) : bool := occurs_before needle s (S (length s)).

Definition nonzero (c : Z) : bool := negb (c =? 0).

Definition starts_with_digit (s : list Z) : bool :=
  match s with
  | d :: _ => isdigit d
  | [] => false
  end.

(** The [update] response of the protocol, fields in either order. *)
Definition update_reply : list Z :=
  str "{" ++ quoted "current_index" ++ str " : 3, " ++ quoted "total" ++ str " : 42}".
Definition update_reply_swapped : list Z :=
  str "{" ++ quoted "total" ++ str " : 42, " ++ quoted "current_index" ++ str " : 3}".

(** The claim on the [total] field as the specification words it: the
    text holds the marker followed by [ : 42] amid other bytes (all
    inside the C string, and no further digit behind the number) ... *)
Definition holds_total_42 (response : list Z) : Prop :=
  exists pre post,
    response = pre ++ quoted "total" ++ str " : 42" ++ post /\
    forallb nonzero response = true /\
    starts_with_digit post = false.

(** ... and the field resolves to 42, whatever the value before. *)
Definition resolves_total_42 (response : list Z) : Prop :=
  forall w, g_image_total (final (parse_update response w)) = 42.

(** A response in which the value of another field is the word [total],
    with the fields in either order. *)
Definition note_total_reply : list Z :=
  str "{" ++ quoted "note" ++ str " : " ++ quoted "total" ++ str ", "
  ++ quoted "total" ++ str " : 42}".
Definition total_note_reply : list Z :=
  str "{" ++ quoted "total" ++ str " : 42, "
  ++ quoted "note" ++ str " : " ++ quoted "total" ++ str "}".

(* ----------------------------------------------------------------- *)
(** ** The filename of the [info] response *)

(** The C string held by a buffer. *)
Fixpoint cstring (buf : list Z) : list Z :=
  match buf with
  | [] => []
  | c :: buf' => if c =? 0 then [] else c :: cstring buf'
  end.

(** What is left of [s] after its first [k] double quotes. *)
Fixpoint after_quotes (k : nat) (s : list Z) : list Z :=
  match k with
  | O => s
  | S k' =>
      match strchr s dq with
      | Some i => after_quotes k' (skipn (S i) s)
      | None => []
      end
  end.

(** The text between the [k]-th double quote of [s] and the next one. *)
Definition between_quotes (k : nat) (s : list Z) : list Z :=
  let s' := after_quotes k s in
  match strchr s' dq with
  | Some j => firstn j s'
  | None => []
  end.

(** The filename as the specification words it: the text between the
    second and the third double quote that follow the field marker, cut to
    the 255 characters that fit the buffer.  [from] says where "following
    the marker" starts to count, as an offset from the first character of
    the marker. *)
Definition claimed_filename (from : nat) (response : list Z) : option (list Z) :=
  match strstr response (quoted "filename") with
  | Some p => Some (firstn 255 (between_quotes 2 (skipn (p + from) response)))
  | None => None
  end.

Definition filename_as_claimed (from : nat) (response : list Z) : Prop :=
  claimed_filename from response = Some (cstring (parse_filename response)).

Definition info_reply : list Z := info_reply_head ++ info_reply_tail.

(** An [info] reply whose file name has 300 characters. *)
Definition long_info_reply : list Z :=
  str "{" ++ quoted "filename" ++ str " : " ++ [dq] ++ repeat 65 300 ++ [dq] ++ str "}".

(* ----------------------------------------------------------------- *)
(** ** The sync loop *)

Definition is_sleep (e : event) : bool :=
  match e with EvSleep _ => true | _ => false end.

Definition is_link_poll (e : event) : bool :=
  match e with EvReadLink _ => true | _ => false end.

Definition is_create (e : event) : bool :=
  match e with EvSocketCreate _ => true | _ => false end.

(** An event of one of the steps: neither a [tal_system_sleep] nor a
    poll of the link. *)
Definition step_event (e : event) : bool := negb (is_sleep e || is_link_poll e).

(** A call on the network interface. *)
Definition is_net (e : event) : bool :=
  match e with
  | EvSocketCreate _ | EvSetTimeout _ _ _ | EvStr2Addr _ | EvConnect _ _ _
  | EvSend _ _ _ | EvRecv _ _ _ _ | EvClose _ => true
  | _ => false
  end.

(** A run that is still in the loop and whose trace is made of step
    events followed by the one inter-cycle delay. *)
Definition ends_in_delay (r : progress * world * list event) : Prop :=
  exists l' t0,
    value r = Looping l' /\
    trace r = t0 ++ [EvSleep LOOP_INTERVAL_MS] /\
    forallb step_event t0 = true.

(** The locals at the first turn of the loop, the [response] array
    zeroed. *)
Definition first_locals : locals := mkLocals (repeat 0 1024) 0 0.

(** A world in which no socket can be created, no memory allocated and
    the panel does not start. *)
Definition dead_world : world := server [].

(** The claim on link loss: a cycle that starts while the link is down
    polls the link, and sees it up, before it creates a socket. *)
Fixpoint awaits_link (t : list event) : bool :=
  match t with
  | [] => true
  | EvReadLink true :: _ => true
  | EvSocketCreate _ :: _ => false
  | _ :: t' => awaits_link t'
  end.

Definition link_awaited (l : locals) (w : world) : Prop :=
  g_wifi_connected w = false -> awaits_link (trace (cycle l w)) = true.

(** Two worlds that differ at most in [g_wifi_connected]. *)
Definition same_but_link (w1 w2 : world) : Prop :=
  set_wifi_connected false w1 = set_wifi_connected false w2.

(** A computation whose result, trace and effect on the rest of the
    world do not depend on [g_wifi_connected]. *)
Definition link_blind {A : Type} (m : M A) : Prop :=
  forall w1 w2, same_but_link w1 w2 ->
    value (m w1) = value (m w2) /\
    trace (m w1) = trace (m w2) /\
    same_but_link (final (m w1)) (final (m w2)).

(** The link is up; the first connection attempt fails; the link is lost
    during the delay that follows; the server answers the next attempt. *)
Definition link_loss_world : world :=
  mkWorld true false 0 0 None
          [mkPeer (-1) 0 0 0 []; accepting (segment update_reply)]
          [] [] [[WFE_DISCONNECTED]] 0 0 0.

Definition is_display (e : event) : bool :=
  match e with EvDisplayFast _ => true | _ => false end.

(** A server that answers [update], [info] and [get_c] with a frame of
    1000 bytes sent in segments of 1, 17 and 982 bytes after the header,
    a heap with room for the image and a panel that starts. *)
Definition album_world : world :=
  mkWorld true false 0 0 None
          [accepting (segment update_reply);
           accepting (segment info_reply);
           accepting [Seg 0 [0; 3; 232]; Seg 1 []; Seg 2 (repeat 2 16);
                      Seg 3 (repeat 3 981)]]
          [Some []] [0] [] 0 0 0.

(* ----------------------------------------------------------------- *)
(** ** The start-up and the link *)

(** [k] rounds of the waiting loop that found the link down: a poll, then
    a sleep of one second. *)
Fixpoint poll_rounds (k : nat) : list event :=
  match k with
  | O => []
  | S k' => EvReadLink false :: EvSleep 1000 :: poll_rounds k'
  end.

(** The link flag after the callback has seen the events [evs], [up]
    being the flag before. *)
Fixpoint link_after (evs : list WF_EVENT_E) (up : bool) : bool :=
  match evs with
  | [] => up
  | WFE_CONNECTED :: evs' => link_after evs' true
  | WFE_CONNECT_FAILED :: evs' => link_after evs' false
  | WFE_DISCONNECTED :: evs' => link_after evs' false
  | WFE_OTHER _ :: evs' => link_after evs' up
  end.

Definition is_disconnected (ev : WF_EVENT_E) : bool :=
  match ev with WFE_DISCONNECTED => true | _ => false end.

Definition is_station_disconnect (e : event) : bool :=
  match e with EvWifiStationDisconnect => true | _ => false end.

(** The locals when [EPD_test_net] enters its loop, [stack] being what
    the uninitialised [response] array holds. *)
Definition entry_locals (stack : list Z) : locals :=
  mkLocals (firstn 1024 (stack ++ repeat 0 1024)) 0 0.

(** An event that the loop can produce: a call on the network, the heap
    or the panel, or a sleep; not a call on the WiFi interface and not a
    poll of the link. *)
Definition loop_event (e : event) : bool :=
  match e with
  | EvReadLink _ | EvWifiInit _ | EvWifiSetWorkMode _ | EvWifiStationConnect _
  | EvWifiStationDisconnect => false
  | _ => true
  end.

(* ----------------------------------------------------------------- *)
(** ** More on the socket functions *)

Definition is_send (e : event) : bool :=
  match e with EvSend _ _ _ => true | _ => false end.

(** The frame bytes among what the receives of a download have
    delivered: all but the four header bytes. *)
Definition frame_bytes (t : list event) : list Z := skipn 4 (received_bytes t).

(** A server that delivers a frame of two bytes, header and all in one
    segment. *)
Definition two_byte_frame_server : world :=
  server [accepting [Seg 0 [0; 0; 2; 7; 9]]].

(* ----------------------------------------------------------------- *)
(** ** The resources of the loop *)

(** The image buffer along a trace.  [held] says whether a buffer is
    allocated; the trace is in order when it allocates only while none is
    held, and frees and displays only while one is.  The result is what
    is held at the end. *)
Fixpoint heap_run (held : bool) (t : list event) : option bool :=
  match t with
  | [] => Some held
  | EvMalloc _ ok :: t' => if held then None else heap_run ok t'
  | EvFree :: t' => if held then heap_run false t' else None
  | EvDisplayFast _ :: t' => if held then heap_run held t' else None
  | _ :: t' => heap_run held t'
  end.

(** The panel: off, powered by [DEV_Module_Init], initialised by
    [EPD_4IN0E_Init], or put to sleep by [EPD_4IN0E_Sleep]. *)
Inductive panel : Type := Off | Powered | Ready | Asleep.

(** The panel along a trace.  The trace is in order when the module is
    started only while off, the panel initialised only once powered,
    written to and put to sleep only once initialised, and the module
    left only once the panel sleeps. *)
Fixpoint panel_run (s : panel) (t : list event) : option panel :=
  match t with
  | [] => Some s
  | EvModuleInit r :: t' =>
      match s with
      | Off => panel_run (if r =? 0 then Powered else Off) t'
      | _ => None
      end
  | EvEpdInit :: t' => match s with Powered => panel_run Ready t' | _ => None end
  | EvDisplayFast _ :: t' => match s with Ready => panel_run Ready t' | _ => None end
  | EvEpdSleep :: t' => match s with Ready => panel_run Asleep t' | _ => None end
  | EvModuleExit :: t' => match s with Asleep => panel_run Off t' | _ => None end
  | _ :: t' => panel_run s t'
  end.

(** The events behind a failed step, and behind a started panel. *)
Definition give_up_events : list event := [EvFree; EvSleep LOOP_INTERVAL_MS].

Definition show_events (image : list Z) : list event :=
  [EvEpdInit; EvDisplayFast image; EvDelay 30000; EvEpdSleep; EvDelay 500;
   EvModuleExit; EvFree; EvSleep LOOP_INTERVAL_MS].

(** A world whose server delivers a frame of two bytes, whose heap has
    room for the image, in memory that held three other bytes, and whose
    panel starts. *)
Definition frame_world : world :=
  mkWorld true false 0 0 None [accepting [Seg 0 [0; 0; 2; 7; 9]]]
          [Some [5; 5; 5]] [0] [] 0 0 0.

(* ----------------------------------------------------------------- *)
(** ** More on the response parser *)

(** The number that a string of decimal digits writes. *)
Definition decimal (ds : list Z) : Z :=
  fold_left (fun acc c => acc * 10 + (c - 48)) ds 0.

(** A number written with or without a minus sign. *)
Definition sign_text (neg : bool) : list Z := if neg then [45] else [].
Definition signed (neg : bool) (v : Z) : Z := if neg then - v else v.

(** The text of a field: the quoted name, a colon with white space
    [ws1] before and [ws2] after it, and the text of the value. *)
Definition field_text (name : string) (ws1 ws2 value : list Z) : list Z :=
  quoted name ++ ws1 ++ 58 :: ws2 ++ value.

(* ----------------------------------------------------------------- *)
(** ** The hexadecimal dump *)

(** The line that ends a dump cut short. *)
Definition truncation_note (len : Z) : list Z :=
  str "  ... (truncated, total " ++ printf_u len ++ str " bytes)" ++ [10].

(** A printable ASCII character or a line feed. *)
Definition printable (c : Z) : bool := (c =? 10) || ((32 <=? c) && (c <? 127)).

(** A world whose link is down and stays down. *)
Definition link_down_world : world := set_wifi_connected false (server []).

(* ----------------------------------------------------------------- *)
(** ** The commands of a cycle *)

(** The commands that a trace has sent, in order. *)
Definition sent (t : list event) : list (list Z) :=
  flat_map (fun e => match e with EvSend _ cmd _ => [cmd] | _ => [] end) t.




(** A server that accepts the connection for [update] and lets the
    receive time out. *)
Definition update_timeout_world : world :=
  server [accepting [Fault 11]; accepting (segment info_reply)].

(* ----------------------------------------------------------------- *)
(** ** The socket flag *)

(** A computation that does not raise [g_socket_connected]. *)
Definition flag_stays_down {A : Type} (m : M A) : Prop :=
  forall w, g_socket_connected w = false -> g_socket_connected (final (m w)) = false.

(* ================================================================= *)
(** * Properties *)

(** ** Running the monad by hand *)

Ltac unfold_api :=
  unfold tal_net_socket_create, tal_net_set_timeout, tal_net_str2addr,
    tal_net_connect, tal_net_send, tal_net_recv, tal_net_close,
    bind, ret, emit, modify, get in *.

(** Compute, but leave the buffers and the tests as they are written. *)
Ltac crunch := cbn -[memset memcpy_at store decode_size Z.ltb Z.eqb Z.gtb Z.leb Z.to_nat].

(** Name the outcome of the receive that blocks the computation. *)
Ltac split_recv :=
  match goal with
  | |- context [recv_from ?n ?q] =>
      let r := fresh "r" in
      let got := fresh "got" in
      let q' := fresh "q" in
      let E := fresh "Erecv" in
      destruct (recv_from n q) as [[r got] q'] eqn:E
  end.

(** Case analysis on the first test that blocks the computation. *)
Ltac split_test :=
  match goal with
  | |- context [if ?c then _ else _] =>
      lazymatch c with
      | context [if _ then _ else _] => fail
      | context [match _ with _ => _ end] => fail
      | _ => let E := fresh "E" in destruct c eqn:E
      end
  end.

(* ================================================================= *)
(** ** The socket functions *)

Lemma socket_send_command_closes cmd resp resp_size w :
  sockets_closed None (trace (socket_send_command cmd resp resp_size w)) = true.
Proof.
  unfold socket_send_command.
  destruct cmd as [c|], resp as [r|]; try reflexivity.
  destruct (resp_size <=? 0); [reflexivity|].
  unfold_api. destruct (net w) as [|p rest]; [reflexivity|].
  crunch.
  destruct (create_ret p <? 0) eqn:Efd; [cbn; rewrite Efd; reflexivity|].
  crunch.
  repeat (first [split_test | split_recv]; crunch);
    rewrite ?Efd, ?Z.eqb_refl; reflexivity.
Qed.

(* ----------------------------------------------------------------- *)
(** *** What a receive returns *)

Lemma recv_from_spec len q r got q' :
  0 <= len ->
  recv_from len q = (r, got, q') ->
  (r = Z.of_nat (length got) /\ r <= len) \/ (r < 0 /\ got = []).
Proof.
  intros Hlen E. destruct q as [|[b bs|e] q0]; cbn in E.
  - inversion E; subst. left. cbn. lia.
  - inversion E; subst. left. split; [reflexivity|].
    rewrite length_firstn. lia.
  - inversion E; subst. right. split; [lia | reflexivity].
Qed.

Lemma tal_net_recv_spec fd len w :
  0 <= len ->
  exists r got w',
    tal_net_recv fd len w = ((r, got), w', [EvRecv fd len r got]) /\
    ((r = Z.of_nat (length got) /\ r <= len) \/ (r < 0 /\ got = [])).
Proof.
  intros Hlen. unfold tal_net_recv. destruct (sock w) as [[s p]|].
  - destruct (recv_from len (incoming p)) as [[r got] q] eqn:E.
    exists r, got. eexists. split; [reflexivity|].
    eapply recv_from_spec; eauto.
  - exists (-1), []. eexists. split; [reflexivity|]. right. split; [lia|reflexivity].
Qed.

(* ----------------------------------------------------------------- *)
(** *** Buffers *)

Lemma memcpy_at_nil buf off : memcpy_at buf off [] = buf.
Proof. unfold memcpy_at. cbn. rewrite Nat.add_0_r. apply firstn_skipn. Qed.

Lemma memcpy_at_length buf off src :
  (off + length src <= length buf)%nat ->
  length (memcpy_at buf off src) = length buf.
Proof.
  intros H. unfold memcpy_at.
  rewrite !length_app, length_firstn, length_skipn. lia.
Qed.

Lemma memcpy_at_app buf off a b :
  (off <= length buf)%nat ->
  memcpy_at (memcpy_at buf off a) (off + length a) b = memcpy_at buf off (a ++ b).
Proof.
  intros H. unfold memcpy_at.
  assert (Hf : length (firstn off buf) = off) by (rewrite length_firstn; lia).
  rewrite (app_assoc (firstn off buf) a).
  rewrite firstn_app.
  replace (off + length a - length (firstn off buf ++ a))%nat with 0%nat
    by (rewrite length_app; lia).
  rewrite firstn_all2 by (rewrite length_app; lia).
  cbn [firstn]. rewrite app_nil_r.
  rewrite skipn_app.
  rewrite (skipn_all2 (firstn off buf ++ a)) by (rewrite length_app; lia).
  replace (off + length a + length b - length (firstn off buf ++ a))%nat
    with (length b) by (rewrite length_app; lia).
  rewrite skipn_skipn, length_app. cbn [app].
  rewrite <- !app_assoc.
  replace (length b + (off + length a))%nat with (off + (length a + length b))%nat by lia.
  reflexivity.
Qed.

Lemma memcpy_at_firstn buf src : firstn (length src) (memcpy_at buf 0 src) = src.
Proof.
  unfold memcpy_at. cbn [firstn app].
  rewrite firstn_app, Nat.sub_diag, firstn_all. cbn. apply app_nil_r.
Qed.

(* ----------------------------------------------------------------- *)
(** *** The receive loop *)

Lemma received_bytes_app t1 t2 :
  received_bytes (t1 ++ t2) = received_bytes t1 ++ received_bytes t2.
Proof. apply flat_map_app. Qed.

Lemma recv_image_run fuel fd image_size received data w :
  0 <= received <= image_size -> image_size < 2 ^ 32 ->
  image_size - received <= Z.of_nat fuel ->
  exists rc data' w' rs,
    recv_image fuel fd image_size received data w
    = (Some (rc, data'), w', rs ++ (if rc =? 0 then [] else [EvClose fd])) /\
    forallb (chunk_read fd) rs = true /\
    (image_size <= Z.of_nat (length data) ->
     data' = memcpy_at data (Z.to_nat received) (received_bytes rs)) /\
    ((rc = 0 /\ received + Z.of_nat (length (received_bytes rs)) = image_size /\
      existsb short_read rs = false) \/
     (rc = -1 /\ received + Z.of_nat (length (received_bytes rs)) < image_size /\
      existsb short_read rs = true)).
Proof.
  revert received data w.
  induction fuel as [|fuel IH]; intros received data w Hr Hmax Hfuel;
    cbn [recv_image]; destruct (received <? image_size) eqn:Elt;
    try (apply Z.ltb_lt in Elt; lia).
  - apply Z.ltb_ge in Elt.
    exists 0, data, w, []. cbn. repeat split; try reflexivity.
    + intros _. now rewrite memcpy_at_nil.
    + left. repeat split; lia.
  - apply Z.ltb_lt in Elt.
    assert (Hu : to_uint32 (image_size - received) = image_size - received)
      by (unfold to_uint32; apply Z.mod_small; lia).
    rewrite Hu.
    set (to_recv := if image_size - received >? 4096 then 4096 else image_size - received).
    assert (Hto : 0 < to_recv <= 4096 /\ to_recv <= image_size - received).
    { subst to_recv. destruct (image_size - received >? 4096) eqn:E; [lia|].
      rewrite Z.gtb_ltb in E. apply Z.ltb_ge in E. lia. }
    destruct (tal_net_recv_spec fd to_recv w) as (r & got & w1 & Erecv & Hrecv); [lia|].
    unfold bind at 1. rewrite Erecv.
    destruct (r <=? 0) eqn:Ele.
    + apply Z.leb_le in Ele.
      assert (got = []) as ->.
      { destruct Hrecv as [[H1 _]|[_ H1]]; [|exact H1].
        destruct got; [reflexivity|cbn in H1; lia]. }
      exists (-1), (memcpy_at data (Z.to_nat received) []), (set_sock None w1),
        [EvRecv fd to_recv r []].
      cbn. split; [reflexivity|]. split; [|split; [reflexivity|]].
      * rewrite Z.eqb_refl.
        replace (to_recv <=? 4096) with true by (symmetry; apply Z.leb_le; lia).
        replace (r <=? to_recv) with true by (symmetry; apply Z.leb_le; lia).
        reflexivity.
      * right. repeat split; lia.
    + apply Z.leb_gt in Ele.
      destruct Hrecv as [[Hlen Hle]|[Hneg _]]; [|lia].
      assert (Hu' : to_uint32 (received + r) = received + r)
        by (unfold to_uint32; apply Z.mod_small; lia).
      rewrite Hu'.
      destruct (IH (received + r) (memcpy_at data (Z.to_nat received) got) w1)
        as (rc & data' & w' & rs & Erun & Hchunks & Hdata & Hrc); try lia.
      exists rc, data', w', (EvRecv fd to_recv r got :: rs).
      rewrite Erun. cbn [app forallb chunk_read existsb short_read].
      split; [reflexivity|]. split; [|split].
      * rewrite Z.eqb_refl, Hchunks.
        replace (to_recv <=? 4096) with true by (symmetry; apply Z.leb_le; lia).
        replace (r <=? to_recv) with true by (symmetry; apply Z.leb_le; lia).
        reflexivity.
      * intros Hcap. cbn [received_bytes flat_map].
        fold (received_bytes rs).
        rewrite <- memcpy_at_app by lia.
        replace (Z.to_nat received + length got)%nat with (Z.to_nat (received + r)) by lia.
        apply Hdata. rewrite memcpy_at_length; lia.
      * cbn [received_bytes flat_map]. fold (received_bytes rs).
        rewrite length_app.
        replace (r <=? 0) with false by (symmetry; apply Z.leb_gt; lia).
        cbn [orb]. destruct Hrc as [(? & ? & ?)|(? & ? & ?)]; [left|right];
          repeat split; try assumption; lia.
  - apply Z.ltb_ge in Elt.
    exists 0, data, w, []. cbn. repeat split; try reflexivity.
    + intros _. now rewrite memcpy_at_nil.
    + left. repeat split; lia.
Qed.

(* ----------------------------------------------------------------- *)
(** *** The download on an established connection *)

Lemma socket_get_image_data_connected buf size w p rest :
  net w = p :: rest -> connects p ->
  socket_get_image_data (Some buf) (Some size) w =
  let fd := create_ret p in
  let '(r, got, q) := recv_from 4 (incoming p) in
  let w1 := connected w p rest q in
  let pre := prologue p 10000 (str "get_c") ++ [EvRecv fd 4 r got] in
  let image_size := decode_size (memcpy_at [0; 0; 0; 0] 0 got) in
  if negb (r =? 4) || (image_size >? IMAGE_BUFFER_SIZE) then
    (Some (-1, buf, size), set_sock None w1, pre ++ [EvClose fd])
  else
    let '(res, w2, t2) := recv_image (Z.to_nat image_size) fd image_size 0 buf w1 in
    match res with
    | None => (None, w2, pre ++ t2)
    | Some (rc, buf') =>
        if rc =? 0 then (Some (0, buf', image_size), set_sock None w2, pre ++ t2 ++ [EvClose fd])
        else (Some (-1, buf', image_size), w2, pre ++ t2 ++ [])
    end.
Proof.
  intros Hnet (Hfd & Haddr & Hconn & Hsend).
  unfold socket_get_image_data. unfold_api. rewrite Hnet. crunch.
  replace (create_ret p <? 0) with false by lia. crunch.
  replace (addr_ret p =? 0) with false by lia. crunch.
  rewrite Hconn. change (0 =? 0) with true. crunch.
  replace (send_ret p <? 0) with false by lia. crunch.
  destruct (recv_from 4 (incoming p)) as [[r got] q]. crunch.
  destruct (r =? 4); crunch; [|reflexivity].
  change (memset [0; 0; 0; 0] 0 4) with [0; 0; 0; 0].
  destruct (decode_size (memcpy_at [0; 0; 0; 0] 0 got) >? IMAGE_BUFFER_SIZE); crunch;
    [reflexivity|].
  fold (connected w p rest q).
  destruct (recv_image _ _ _ _ _ _) as [[[[rc buf']|] w2] t2]; crunch;
    [|now rewrite app_nil_r].
  destruct (rc =? 0); crunch; rewrite ?app_nil_r; reflexivity.
Qed.

(** The first receive on a connection whose first segment holds the four
    header bytes. *)
Lemma recv_header b bs q :
  (4 <= length (b :: bs))%nat ->
  exists q', recv_from 4 (Seg b bs :: q) = (4, firstn 4 (b :: bs), q').
Proof.
  intros H. unfold recv_from. eexists.
  change (Z.to_nat 4) with 4%nat.
  rewrite length_firstn, Nat.min_l by exact H. reflexivity.
Qed.

Lemma memcpy_header h : length h = 4%nat -> memcpy_at [0; 0; 0; 0] 0 h = h.
Proof.
  intros H. do 5 (destruct h as [|? h]; try discriminate). reflexivity.
Qed.

Lemma decode_size_range h : 0 <= decode_size h < 2 ^ 32.
Proof. unfold decode_size, to_uint32. apply Z.mod_pos_bound. lia. Qed.

Lemma lor_disjoint m k y : 0 <= k -> 0 <= y < 2 ^ k -> Z.lor (m * 2 ^ k) y = m * 2 ^ k + y.
Proof.
  intros Hk Hy.
  assert (Hland : Z.land (m * 2 ^ k) y = 0).
  { apply Z.bits_inj'. intros i Hi. rewrite Z.land_spec, Z.bits_0.
    destruct (Z.lt_ge_cases i k) as [Hlt|Hge].
    - rewrite Z.mul_pow2_bits_low by lia. reflexivity.
    - assert (Z.testbit y i = false) as ->; [|apply andb_false_r].
      destruct (Z.eq_dec y 0) as [->|Hy0]; [apply Z.bits_0|].
      apply Z.bits_above_log2; [lia|].
      apply Z.log2_lt_pow2; [lia|].
      assert (2 ^ k <= 2 ^ i) by (apply Z.pow_le_mono_r; lia). lia. }
  rewrite <- Z.lxor_lor by exact Hland.
  symmetry. apply Z.add_nocarry_lxor. exact Hland.
Qed.

(** The header is read as an unsigned big-endian number: the detour of
    the first byte through [int] changes nothing. *)
Lemma decode_size_big_endian a b c d :
  0 <= a < 256 -> 0 <= b < 256 -> 0 <= c < 256 -> 0 <= d < 256 ->
  decode_size [a; b; c; d] = a * 2 ^ 24 + b * 2 ^ 16 + c * 2 ^ 8 + d.
Proof.
  intros Ha Hb Hc Hd. unfold decode_size, to_uint8. cbn [nth].
  rewrite !Z.mod_small by lia. rewrite !Z.shiftl_mul_pow2 by lia.
  assert (Hx : exists m, to_int32 (a * 2 ^ 24) = m * 2 ^ 24 /\ (m = a \/ m = a - 256)).
  { unfold to_int32. change (2 ^ 24) with 16777216. change (2 ^ 31) with 2147483648.
    change (2 ^ 32) with 4294967296. destruct (Z_lt_ge_dec a 128).
    - exists a. split; [|auto]. rewrite Z.mod_small by lia. lia.
    - exists (a - 256). split; [|auto].
      replace (a * 16777216 + 2147483648)
        with ((a * 16777216 - 2147483648) + 1 * 4294967296) by lia.
      rewrite Z.mod_add by lia. rewrite Z.mod_small by lia. lia. }
  destruct Hx as (m & -> & Hm).
  rewrite (lor_disjoint m 24) by (change (2 ^ 16) with 65536; change (2 ^ 24) with 16777216; lia).
  replace (m * 2 ^ 24 + b * 2 ^ 16) with ((m * 2 ^ 8 + b) * 2 ^ 16)
    by (change (2 ^ 24) with (2 ^ 8 * 2 ^ 16); lia).
  rewrite (lor_disjoint _ 16) by (change (2 ^ 8) with 256; change (2 ^ 16) with 65536; lia).
  replace ((m * 2 ^ 8 + b) * 2 ^ 16 + c * 2 ^ 8) with ((m * 2 ^ 16 + b * 2 ^ 8 + c) * 2 ^ 8)
    by (change (2 ^ 16) with (2 ^ 8 * 2 ^ 8); lia).
  rewrite (lor_disjoint _ 8) by (change (2 ^ 8) with 256; lia).
  unfold to_uint32.
  change (2 ^ 8) with 256. change (2 ^ 16) with 65536. change (2 ^ 24) with 16777216.
  change (2 ^ 32) with 4294967296.
  destruct Hm as [-> | ->].
  - rewrite Z.mod_small by lia. lia.
  - replace ((((a - 256) * 65536 + b * 256 + c) * 256 + d))
      with ((a * 16777216 + b * 65536 + c * 256 + d) + (-1) * 4294967296) by lia.
    rewrite Z.mod_add by lia. rewrite Z.mod_small by lia. lia.
Qed.

(** On an established connection whose first receive delivers an
    acceptable header, the call runs the receive loop to its end. *)
Lemma socket_get_image_data_frame buf size w p rest header q :
  net w = p :: rest -> connects p ->
  recv_from 4 (incoming p) = (4, header, q) ->
  decode_size header <= IMAGE_BUFFER_SIZE ->
  exists rc buf' w' rs,
    socket_get_image_data (Some buf) (Some size) w
    = (Some (rc, buf', decode_size header), w',
       prologue p 10000 (str "get_c")
       ++ EvRecv (create_ret p) 4 4 header :: rs ++ [EvClose (create_ret p)]) /\
    length header = 4%nat /\
    forallb (chunk_read (create_ret p)) rs = true /\
    (IMAGE_BUFFER_SIZE <= Z.of_nat (length buf) ->
     buf' = memcpy_at buf 0 (received_bytes rs)) /\
    ((rc = 0 /\ Z.of_nat (length (received_bytes rs)) = decode_size header /\
      existsb short_read rs = false) \/
     (rc = -1 /\ Z.of_nat (length (received_bytes rs)) < decode_size header /\
      existsb short_read rs = true)).
Proof.
  intros Hnet Hp Hrecv Hcap.
  assert (Hlen : length header = 4%nat).
  { destruct (recv_from_spec 4 _ _ _ _ ltac:(lia) Hrecv) as [[H _]|[H _]]; lia. }
  rewrite (socket_get_image_data_connected buf size w p rest Hnet Hp).
  rewrite Hrecv. cbv zeta. rewrite (memcpy_header header Hlen).
  change (negb (4 =? 4)) with false. cbn [orb].
  replace (decode_size header >? IMAGE_BUFFER_SIZE) with false by lia.
  pose proof (decode_size_range header) as Hrange.
  destruct (recv_image_run (Z.to_nat (decode_size header)) (create_ret p)
              (decode_size header) 0 buf (connected w p rest q))
    as (rc & buf' & w' & rs & Erun & Hchunks & Hdata & Hrc); try lia.
  rewrite Erun.
  assert (Hdata' : IMAGE_BUFFER_SIZE <= Z.of_nat (length buf) ->
                   buf' = memcpy_at buf 0 (received_bytes rs)).
  { intros H. apply Hdata. lia. }
  destruct Hrc as [(-> & Hn & Hs)|(-> & Hn & Hs)]; cbn [Z.eqb app].
  - exists 0, buf'. eexists. exists rs. rewrite app_nil_r.
    split; [reflexivity|]. do 3 (split; [assumption|]).
    left. repeat split; [lia | assumption].
  - exists (-1), buf', w', rs. rewrite app_nil_r.
    split; [reflexivity|]. do 3 (split; [assumption|]).
    right. repeat split; [lia | assumption].
Qed.

(** Every run of [socket_get_image_data] on a buffer is one of the runs
    above: in particular the call returns. *)
Lemma socket_get_image_data_run buf size w :
  exists fd,
    download_run fd buf size
      (value (socket_get_image_data (Some buf) (Some size) w))
      (trace (socket_get_image_data (Some buf) (Some size) w)).
Proof.
  destruct (net w) as [|p rest] eqn:Hnet.
  { exists (-1). unfold socket_get_image_data. unfold_api. rewrite Hnet.
    apply Run_no_socket. lia. }
  exists (create_ret p).
  destruct (create_ret p <? 0) eqn:E1.
  { unfold socket_get_image_data. unfold_api. rewrite Hnet. crunch. rewrite E1.
    apply Run_no_socket. lia. }
  destruct (addr_ret p =? 0) eqn:E2.
  { unfold socket_get_image_data. unfold_api. rewrite Hnet. crunch. rewrite E1.
    crunch. rewrite E2.
    apply (Run_no_connection _ _ _ [_; _; _]); [lia|reflexivity]. }
  destruct (connect_ret p =? 0) eqn:E3.
  2:{ unfold socket_get_image_data. unfold_api. rewrite Hnet. crunch. rewrite E1.
      crunch. rewrite E2. crunch. rewrite E3.
      apply (Run_no_connection _ _ _ [_; _; _; _]); [lia|reflexivity]. }
  destruct (send_ret p <? 0) eqn:E4.
  { unfold socket_get_image_data. unfold_api. rewrite Hnet. crunch. rewrite E1.
    crunch. rewrite E2. crunch. rewrite E3. crunch. rewrite E4.
    apply (Run_no_connection _ _ _ [_; _; _; _; _]); [lia|reflexivity]. }
  assert (Hp : connects p) by (unfold connects; lia).
  destruct (recv_from 4 (incoming p)) as [[r got] q] eqn:Erecv.
  destruct (negb (r =? 4) || (decode_size (memcpy_at [0; 0; 0; 0] 0 got) >? IMAGE_BUFFER_SIZE))
    eqn:E5.
  - rewrite (socket_get_image_data_connected buf size w p rest Hnet Hp).
    rewrite Erecv. cbv zeta. rewrite E5.
    apply (Run_no_header _ _ _ [_; _; _; _; _]); [lia|reflexivity|exact E5].
  - apply orb_false_iff in E5. destruct E5 as [E5 E6].
    assert (r = 4) as -> by lia.
    assert (Hlen : length got = 4%nat).
    { destruct (recv_from_spec 4 _ _ _ _ ltac:(lia) Erecv) as [[H _]|[H _]]; lia. }
    rewrite (memcpy_header got Hlen) in E6.
    destruct (socket_get_image_data_frame buf size w p rest got q Hnet Hp Erecv)
      as (rc & buf' & w' & rs & Erun & _ & Hchunks & Hdata & Hrc); [lia|].
    rewrite Erun.
    apply (Run_frame _ _ _ [_; _; _; _; _]); try assumption; try reflexivity; lia.
Qed.

(* ----------------------------------------------------------------- *)
(** *** What the peer sends *)

Lemma recv_from_stream len q r got q' :
  recv_from len q = (r, got, q') -> 0 < r ->
  stream q = got ++ stream q' /\ r = Z.of_nat (length got).
Proof.
  intros E Hr. destruct q as [|[b bs|e] q0]; cbn [recv_from] in E.
  - inversion E; subst. lia.
  - inversion E; subst. split; [|reflexivity].
    cbn [stream]. rewrite <- (firstn_skipn (Z.to_nat len) (b :: bs)) at 1.
    destruct (skipn (Z.to_nat len) (b :: bs)) as [|b' bs']; cbn [stream].
    + now rewrite app_nil_r.
    + now rewrite <- app_assoc.
  - inversion E; subst. lia.
Qed.

Lemma received_bytes_setup t : forallb is_setup t = true -> received_bytes t = [].
Proof.
  induction t as [|e t IH]; [reflexivity|]. cbn [forallb]. intros H.
  apply andb_true_iff in H. destruct H as [He Ht].
  destruct e; try discriminate; cbn; auto.
Qed.

Lemma sockets_closed_setup open t t' :
  forallb is_setup t = true -> sockets_closed open (t ++ t') = sockets_closed open t'.
Proof.
  induction t as [|e t IH]; [reflexivity|]. cbn [forallb]. intros H.
  apply andb_true_iff in H. destruct H as [He Ht].
  destruct e; try discriminate; cbn; auto.
Qed.

Lemma sockets_closed_chunks fd open t t' :
  forallb (chunk_read fd) t = true -> sockets_closed open (t ++ t') = sockets_closed open t'.
Proof.
  induction t as [|e t IH]; [reflexivity|]. cbn [forallb]. intros H.
  apply andb_true_iff in H. destruct H as [He Ht].
  destruct e; try discriminate; cbn; auto.
Qed.

Lemma short_read_setup t : forallb is_setup t = true -> existsb short_read t = false.
Proof.
  induction t as [|e t IH]; [reflexivity|]. cbn [forallb]. intros H.
  apply andb_true_iff in H. destruct H as [He Ht].
  destruct e; try discriminate; cbn; auto.
Qed.

Lemma download_run_closed fd buf size v t :
  download_run fd buf size v t -> sockets_closed None t = true.
Proof.
  intros H. destruct H as [Hfd|t Hfd Ht|t r got Hfd Ht _|t header rs rc buf' Hfd Ht _ _ Hrs _ _];
    cbn [sockets_closed].
  - now replace (fd <? 0) with true by lia.
  - replace (fd <? 0) with false by lia.
    rewrite sockets_closed_setup by exact Ht. cbn. now rewrite Z.eqb_refl.
  - replace (fd <? 0) with false by lia.
    rewrite sockets_closed_setup by exact Ht. cbn. now rewrite Z.eqb_refl.
  - replace (fd <? 0) with false by lia.
    rewrite sockets_closed_setup by exact Ht. cbn [sockets_closed].
    rewrite (sockets_closed_chunks fd) by exact Hrs. cbn. now rewrite Z.eqb_refl.
Qed.

(* ================================================================= *)
(** ** The claims on the socket functions (C9, C5, C10, C6, C1) *)

(** C9.  Every socket that [socket_send_command] or
    [socket_get_image_data] has created is closed exactly once before the
    function returns, whatever the path: in the trace of either call a
    socket is created only while none is open, only the open socket is
    closed, and none is open at the end. *)
Theorem sockets_closed_on_every_path cmd resp resp_size data data_size w :
  sockets_closed None (trace (socket_send_command cmd resp resp_size w)) = true /\
  sockets_closed None (trace (socket_get_image_data data data_size w)) = true.
Proof.
  split; [apply socket_send_command_closes|].
  destruct data as [buf|], data_size as [size|]; try reflexivity.
  destruct (socket_get_image_data_run buf size w) as [fd H].
  eapply download_run_closed; eauto.
Qed.

(** C5.  When the header that the peer sends declares more than
    [IMAGE_BUFFER_SIZE] bytes, the download fails, closes the connection
    and has made a single receive, the one of four bytes for the header;
    the buffer and [*data_size] are as before. *)
Theorem oversized_frame_rejected buf size w p rest header :
  net w = p :: rest -> connects p ->
  length header = 4%nat -> firstn 4 (stream (incoming p)) = header ->
  IMAGE_BUFFER_SIZE < decode_size header ->
  exists r got w',
    socket_get_image_data (Some buf) (Some size) w
    = (Some (-1, buf, size), w',
       prologue p 10000 (str "get_c")
       ++ [EvRecv (create_ret p) 4 r got; EvClose (create_ret p)]) /\
    sock w' = None.
Proof.
  intros Hnet Hp Hlen Hstream Hbig.
  rewrite (socket_get_image_data_connected buf size w p rest Hnet Hp).
  destruct (recv_from 4 (incoming p)) as [[r got] q] eqn:Erecv. cbv zeta.
  assert (Htest : negb (r =? 4)
                  || (decode_size (memcpy_at [0; 0; 0; 0] 0 got) >? IMAGE_BUFFER_SIZE) = true).
  { destruct (r =? 4) eqn:Er; [|reflexivity]. cbn [negb orb].
    assert (r = 4) as -> by lia.
    destruct (recv_from_stream 4 _ _ _ _ Erecv ltac:(lia)) as [Hs Hl].
    assert (got = header) as ->.
    { rewrite <- Hstream, Hs, firstn_app.
      replace (4 - length got)%nat with 0%nat by lia.
      rewrite firstn_all2 by lia. cbn. symmetry. apply app_nil_r. }
    rewrite (memcpy_header header Hlen). lia. }
  rewrite Htest. exists r, got. eexists. split; reflexivity.
Qed.

(** C10.  Once the header has arrived, [*data_size] holds the declared
    length whatever happens next: when the download then fails for want of
    frame bytes, it holds the declared length and not the smaller number
    of frame bytes received. *)
Theorem data_size_set_before_frame buf size w p rest b bs q :
  net w = p :: rest -> connects p ->
  incoming p = Seg b bs :: q -> (4 <= length (b :: bs))%nat ->
  decode_size (firstn 4 (b :: bs)) <= IMAGE_BUFFER_SIZE ->
  exists rc buf' w' t,
    socket_get_image_data (Some buf) (Some size) w
    = (Some (rc, buf', decode_size (firstn 4 (b :: bs))), w', t) /\
    (rc = 0 \/ rc = -1) /\
    (rc = -1 ->
     Z.of_nat (length (received_bytes t)) - 4 < decode_size (firstn 4 (b :: bs))).
Proof.
  intros Hnet Hp Hin Hlen Hcap.
  destruct (recv_header b bs q Hlen) as [q' Hrecv]. rewrite <- Hin in Hrecv.
  destruct (socket_get_image_data_frame buf size w p rest _ q' Hnet Hp Hrecv Hcap)
    as (rc & buf' & w' & rs & Erun & Hh & _ & _ & Hrc).
  exists rc, buf', w'. eexists. split; [exact Erun|].
  split; [destruct Hrc as [(? & _)|(? & _)]; auto|].
  intros Hfail.
  rewrite received_bytes_app. cbn [received_bytes flat_map prologue app].
  fold (received_bytes (rs ++ [EvClose (create_ret p)])).
  rewrite received_bytes_app. cbn [received_bytes flat_map].
  rewrite !length_app. cbn [length]. rewrite Hh.
  destruct Hrc as [(? & _)|(_ & Hn & _)]; lia.
Qed.

Lemma short_read_chunks_close fd rs :
  existsb short_read (rs ++ [EvClose fd]) = existsb short_read rs.
Proof. rewrite existsb_app. cbn. apply orb_false_r. Qed.

(** C6.  No partial frame is ever reported as a success.  The download
    returns, and either it fails, or it succeeds and then no receive has
    seen the peer close or fail (a receive that does makes the call
    fail), exactly the declared number of frame bytes has been received
    after the four header bytes, [*data_size] is that number and the
    frame is at the front of the buffer. *)
Theorem partial_frame_is_an_error buf size w :
  IMAGE_BUFFER_SIZE <= Z.of_nat (length buf) ->
  exists rc buf' size',
    value (socket_get_image_data (Some buf) (Some size) w) = Some (rc, buf', size') /\
    (rc = -1 \/
     (rc = 0 /\
      existsb short_read (trace (socket_get_image_data (Some buf) (Some size) w)) = false /\
      exists header frame,
        received_bytes (trace (socket_get_image_data (Some buf) (Some size) w))
        = header ++ frame /\
        length header = 4%nat /\
        size' = decode_size header /\
        Z.of_nat (length frame) = size' /\
        firstn (length frame) buf' = frame)).
Proof.
  intros Hcap.
  destruct (socket_get_image_data_run buf size w) as [fd H].
  set (v := value _) in *. set (t := trace _) in *. clearbody v t.
  destruct H as [Hfd|t Hfd Ht|t r got Hfd Ht _|t header rs rc buf' Hfd Ht Hh Hd Hrs Hbuf Hrc].
  1-3: exists (-1), buf, size; split; [reflexivity | left; reflexivity].
  exists rc, buf', (decode_size header). split; [reflexivity|].
  destruct Hrc as [(-> & Hn & Hs)|(-> & _)]; [right|left; reflexivity].
  split; [reflexivity|]. split.
  - cbn [existsb short_read]. rewrite existsb_app, (short_read_setup t Ht).
    cbn [existsb short_read orb]. rewrite short_read_chunks_close, Hs. reflexivity.
  - exists header, (received_bytes rs).
    split; [|split; [exact Hh|split; [reflexivity|split; [exact Hn|]]]].
    + cbn [received_bytes flat_map app].
      fold (received_bytes (t ++ EvRecv fd 4 4 header :: rs ++ [EvClose fd])).
      rewrite received_bytes_app, (received_bytes_setup t Ht).
      cbn [received_bytes flat_map app].
      fold (received_bytes (rs ++ [EvClose fd])).
      rewrite received_bytes_app. cbn. now rewrite app_nil_r.
    + rewrite (Hbuf Hcap). apply memcpy_at_firstn.
Qed.

(* ----------------------------------------------------------------- *)
(** *** Concrete runs *)

Lemma oversized_frame_rejected_witness :
  exists r got w',
    socket_get_image_data (Some [7; 7]) (Some 9)
      (server [accepting [Seg 0 [2; 0; 0; 1; 2; 3]]])
    = (Some (-1, [7; 7], 9), w',
       prologue (accepting [Seg 0 [2; 0; 0; 1; 2; 3]]) 10000 (str "get_c")
       ++ [EvRecv 3 4 r got; EvClose 3]) /\
    sock w' = None.
Proof.
  apply (oversized_frame_rejected [7; 7] 9
           (server [accepting [Seg 0 [2; 0; 0; 1; 2; 3]]])
           (accepting [Seg 0 [2; 0; 0; 1; 2; 3]]) [] [0; 2; 0; 0]).
  - reflexivity.
  - unfold connects. cbn. lia.
  - reflexivity.
  - reflexivity.
  - vm_compute. reflexivity.
Defined.

Lemma data_size_set_before_frame_witness :
  exists rc buf' w' t,
    socket_get_image_data (Some [7; 7; 7; 7; 7; 7]) (Some 9)
      (server [accepting [Seg 0 [0; 0; 5; 65; 66]]])
    = (Some (rc, buf', decode_size (firstn 4 [0; 0; 0; 5; 65; 66])), w', t) /\
    (rc = 0 \/ rc = -1) /\
    (rc = -1 ->
     Z.of_nat (length (received_bytes t)) - 4 < decode_size (firstn 4 [0; 0; 0; 5; 65; 66])).
Proof.
  apply (data_size_set_before_frame [7; 7; 7; 7; 7; 7] 9
           (server [accepting [Seg 0 [0; 0; 5; 65; 66]]])
           (accepting [Seg 0 [0; 0; 5; 65; 66]]) [] 0 [0; 0; 5; 65; 66] []).
  - reflexivity.
  - unfold connects. cbn. lia.
  - reflexivity.
  - cbn. lia.
  - vm_compute. discriminate.
Defined.

Lemma partial_frame_is_an_error_witness :
  exists rc buf' size',
    value (socket_get_image_data (Some blank_image) (Some 9)
             (server [accepting [Seg 0 [0; 0; 5; 65; 66]; Seg 67 [68; 69]]]))
    = Some (rc, buf', size') /\
    (rc = -1 \/
     (rc = 0 /\
      existsb short_read
        (trace (socket_get_image_data (Some blank_image) (Some 9)
                  (server [accepting [Seg 0 [0; 0; 5; 65; 66]; Seg 67 [68; 69]]])))
      = false /\
      exists header frame,
        received_bytes
          (trace (socket_get_image_data (Some blank_image) (Some 9)
                    (server [accepting [Seg 0 [0; 0; 5; 65; 66]; Seg 67 [68; 69]]])))
        = header ++ frame /\
        length header = 4%nat /\
        size' = decode_size header /\
        Z.of_nat (length frame) = size' /\
        firstn (length frame) buf' = frame)).
Proof.
  apply partial_frame_is_an_error. vm_compute. discriminate.
Defined.

(* ----------------------------------------------------------------- *)
(** *** The frame, however the peer cuts it *)

Lemma prefix_split (got rest todo extra : list Z) :
  got ++ rest = todo ++ extra -> (length got <= length todo)%nat ->
  todo = got ++ skipn (length got) todo /\ rest = skipn (length got) todo ++ extra.
Proof.
  intros E Hlen.
  assert (Hf : got = firstn (length got) todo).
  { pose proof (f_equal (firstn (length got)) E) as H.
    rewrite !firstn_app, Nat.sub_diag, firstn_all in H.
    replace (length got - length todo)%nat with 0%nat in H by lia.
    cbn in H. now rewrite !app_nil_r in H. }
  split.
  - rewrite Hf at 1. symmetry. apply firstn_skipn.
  - pose proof (f_equal (skipn (length got)) E) as H.
    rewrite !skipn_app, Nat.sub_diag, skipn_all in H.
    replace (length got - length todo)%nat with 0%nat in H by lia.
    cbn in H. exact H.
Qed.

Lemma recv_from_nonempty len q r got q' :
  stream q <> [] -> 0 < len -> recv_from len q = (r, got, q') -> 0 < r.
Proof.
  intros Hs Hlen E. destruct q as [|[b bs|e] q0]; cbn [recv_from stream] in *;
    try congruence.
  inversion E; subst. rewrite length_firstn. cbn [length]. lia.
Qed.

(** When the peer still delivers the bytes [todo] that the frame lacks,
    in whatever segments, the loop runs to its end and has received
    exactly [todo]. *)
Lemma recv_image_stream fuel fd image_size received data w s p0 todo extra :
  0 <= received <= image_size -> image_size < 2 ^ 32 ->
  image_size - received <= Z.of_nat fuel ->
  sock w = Some (s, p0) ->
  stream (incoming p0) = todo ++ extra ->
  Z.of_nat (length todo) = image_size - received ->
  exists data' w' rs,
    recv_image fuel fd image_size received data w = (Some (0, data'), w', rs) /\
    received_bytes rs = todo /\
    forallb (chunk_read fd) rs = true /\
    (image_size <= Z.of_nat (length data) ->
     data' = memcpy_at data (Z.to_nat received) todo).
Proof.
  revert received data w p0 todo.
  induction fuel as [|fuel IH]; intros received data w p0 todo Hr Hmax Hfuel Hsock Hs Htodo;
    cbn [recv_image]; destruct (received <? image_size) eqn:Elt;
    try (apply Z.ltb_lt in Elt; lia).
  - destruct todo; [|cbn in Htodo; lia].
    exists data, w, []. repeat split. intros _. now rewrite memcpy_at_nil.
  - apply Z.ltb_lt in Elt.
    assert (Hu : to_uint32 (image_size - received) = image_size - received)
      by (unfold to_uint32; apply Z.mod_small; lia).
    rewrite Hu.
    set (to_recv := if image_size - received >? 4096 then 4096 else image_size - received).
    assert (Hto : 0 < to_recv <= 4096 /\ to_recv <= image_size - received).
    { subst to_recv. destruct (image_size - received >? 4096) eqn:E; lia. }
    unfold bind at 1. unfold tal_net_recv. rewrite Hsock.
    destruct (recv_from to_recv (incoming p0)) as [[r got] q'] eqn:Erecv.
    assert (Hpos : 0 < r).
    { eapply recv_from_nonempty; [|apply (proj1 Hto)|exact Erecv].
      rewrite Hs. destruct todo; [cbn in Htodo; lia|discriminate]. }
    destruct (recv_from_stream _ _ _ _ _ Erecv Hpos) as [Hsplit Hlen].
    destruct (recv_from_spec to_recv _ _ _ _ ltac:(lia) Erecv) as [[_ Hle]|[Hneg _]]; [|lia].
    rewrite Hs in Hsplit. symmetry in Hsplit.
    destruct (prefix_split _ _ _ _ Hsplit ltac:(lia)) as [Htodo' Hrest].
    replace (r <=? 0) with false by lia.
    assert (Hu' : to_uint32 (received + r) = received + r)
      by (unfold to_uint32; apply Z.mod_small; lia).
    rewrite Hu'.
    assert (Hlen' : length (skipn (length got) todo) = (length todo - length got)%nat)
      by apply length_skipn.
    destruct (IH (received + r) (memcpy_at data (Z.to_nat received) got)
                 (set_sock (Some (s, with_incoming q' p0)) w) (with_incoming q' p0)
                 (skipn (length got) todo))
      as (data' & w' & rs & Erun & Hbytes & Hchunks & Hdata);
      try lia; try reflexivity; try exact Hrest.
    rewrite Erun. exists data', w', (EvRecv fd to_recv r got :: rs).
    split; [reflexivity|]. split; [|split].
    + cbn [received_bytes flat_map]. fold (received_bytes rs).
      rewrite Hbytes. symmetry. exact Htodo'.
    + cbn [forallb chunk_read]. rewrite Hchunks, Z.eqb_refl.
      replace (to_recv <=? 4096) with true by lia.
      replace (r <=? to_recv) with true by lia. reflexivity.
    + intros Hcap. rewrite Htodo' at 1.
      rewrite <- memcpy_at_app by lia.
      replace (Z.to_nat received + length got)%nat with (Z.to_nat (received + r)) by lia.
      apply Hdata. rewrite memcpy_at_length; lia.
  - destruct todo; [|cbn in Htodo; apply Z.ltb_ge in Elt; lia].
    exists data, w, []. repeat split. intros _. now rewrite memcpy_at_nil.
Qed.

(** The download is right whenever the four header bytes arrive in one
    piece: a frame of a declared length within [IMAGE_BUFFER_SIZE] that
    the peer sends in full is received and stored whole, however the peer
    cuts the frame bytes into segments, and no receive asks for more than
    4096 bytes. *)
Lemma download_complete buf size w p rest b bs q header frame extra :
  net w = p :: rest -> connects p ->
  incoming p = Seg b bs :: q -> (4 <= length (b :: bs))%nat ->
  stream (incoming p) = header ++ frame ++ extra ->
  length header = 4%nat ->
  decode_size header = Z.of_nat (length frame) ->
  Z.of_nat (length frame) <= IMAGE_BUFFER_SIZE <= Z.of_nat (length buf) ->
  exists buf' w' rs,
    socket_get_image_data (Some buf) (Some size) w
    = (Some (0, buf', Z.of_nat (length frame)), w',
       prologue p 10000 (str "get_c")
       ++ EvRecv (create_ret p) 4 4 header :: rs ++ [EvClose (create_ret p)]) /\
    forallb (chunk_read (create_ret p)) rs = true /\
    received_bytes rs = frame /\
    firstn (length frame) buf' = frame /\
    length buf' = length buf.
Proof.
  intros Hnet Hp Hin Hfirst Hs Hh Hdec Hcap.
  destruct (recv_header b bs q Hfirst) as [q' Hrecv]. rewrite <- Hin in Hrecv.
  destruct (recv_from_stream _ _ _ _ _ Hrecv ltac:(lia)) as [Hsplit _].
  assert (Hhead : firstn 4 (b :: bs) = header /\ stream q' = frame ++ extra).
  { rewrite Hs in Hsplit.
    assert (Hl : length (firstn 4 (b :: bs)) = 4%nat)
      by (rewrite length_firstn; lia).
    symmetry in Hsplit.
    destruct (prefix_split _ _ _ _ Hsplit ltac:(lia)) as [H1 H2].
    rewrite Hl in H1, H2. rewrite skipn_all2 in H1, H2 by lia.
    rewrite app_nil_r in H1. cbn in H2. auto. }
  destruct Hhead as [Hheader Hq']. rewrite Hheader in Hrecv.
  rewrite (socket_get_image_data_connected buf size w p rest Hnet Hp).
  rewrite Hrecv. cbv zeta. rewrite (memcpy_header header Hh).
  change (negb (4 =? 4)) with false. cbn [orb].
  replace (decode_size header >? IMAGE_BUFFER_SIZE) with false by lia.
  pose proof (decode_size_range header) as Hrange.
  destruct (recv_image_stream (Z.to_nat (decode_size header)) (create_ret p)
              (decode_size header) 0 buf (connected w p rest q')
              (create_ret p) (with_incoming q' p) frame extra)
    as (buf' & w' & rs & Erun & Hbytes & Hchunks & Hdata);
    try lia; try reflexivity; try exact Hq'.
  rewrite Erun. cbn [Z.eqb]. rewrite Hdec.
  exists buf'. eexists. exists rs. split; [reflexivity|].
  split; [exact Hchunks|]. split; [exact Hbytes|].
  rewrite Hdata by lia. split.
  - apply memcpy_at_firstn.
  - apply memcpy_at_length. cbn. lia.
Qed.

(** C1, at an input where it fails.  The peer sends a well-formed frame
    of five bytes but the four header bytes arrive in two segments of two:
    the single receive for the header returns two bytes and the download
    fails, with the buffer and [*data_size] untouched, although every
    byte of the frame would follow. *)
Theorem fragmented_header_fails buf size :
  let q := [Seg 0 [0]; Seg 0 [5; 65; 66; 67; 68; 69]] in
  stream q = [0; 0; 0; 5] ++ [65; 66; 67; 68; 69] /\
  decode_size [0; 0; 0; 5] = 5 /\
  socket_get_image_data (Some buf) (Some size) (server [accepting q])
  = (Some (-1, buf, size),
     server [],
     prologue (accepting q) 10000 (str "get_c") ++ [EvRecv 3 4 2 [0; 0]; EvClose 3]).
Proof.
  cbv zeta. split; [reflexivity|]. split; [reflexivity|]. reflexivity.
Qed.

(* ================================================================= *)
(** ** The command channel (C4) *)

(** C4 as stated fails: the reply arrives in two segments, the call
    succeeds after one receive that returned the first segment only, while
    the buffer is not full, the peer has not closed and nothing has timed
    out. *)
Lemma reply_cut_after_first_segment :
  ~ reads_until_full_closed_or_timeout (str "info") (repeat 0 1024) RECV_BUFFER_SIZE
      two_segment_server
  /\ fst (value (socket_send_command (Some (str "info")) (Some (repeat 0 1024))
                   RECV_BUFFER_SIZE two_segment_server)) = 0
  /\ received_bytes (trace (socket_send_command (Some (str "info")) (Some (repeat 0 1024))
                              RECV_BUFFER_SIZE two_segment_server))
     = info_reply_head.
Proof.
  split; [|split; vm_compute; reflexivity].
  unfold reads_until_full_closed_or_timeout. vm_compute. intros H.
  specialize (H eq_refl). discriminate.
Qed.

(** C4, amended.  The command channel makes at most one receive, for at
    most [resp_size - 1] bytes.  Without a receive the call has failed
    and the buffer is untouched.  With one, the call returns what this
    receive delivered: it succeeds when the receive returned a positive
    count or zero (the orderly close of the peer, an empty response), and
    fails when the receive returned a negative value (time-out or
    fault). *)
Theorem command_channel_single_receive cmd resp resp_size w :
  let r := socket_send_command (Some cmd) (Some resp) resp_size w in
  (filter is_recv (trace r) = [] /\ value r = (-1, resp)) \/
  (exists fd ret got,
      filter is_recv (trace r) = [EvRecv fd (resp_size - 1) ret got] /\
      value r = (if ret <? 0 then -1 else 0, response_after resp resp_size ret got)).
Proof.
  cbv zeta. unfold socket_send_command.
  destruct (resp_size <=? 0); [left; split; reflexivity|].
  unfold_api. destruct (net w) as [|p rest]; [left; split; reflexivity|].
  crunch.
  repeat (first [split_test | split_recv]; crunch);
    try (left; split; reflexivity);
    right; eexists _, _, _; (split; [reflexivity|]);
    unfold value, response_after; cbn [fst snd].
  - rewrite E3. replace (r <? 0) with false by lia. reflexivity.
  - rewrite E3. replace (r <? 0) with false by lia. reflexivity.
  - rewrite E3. replace (r <? 0) with true by lia. reflexivity.
Qed.

(* ================================================================= *)
(** ** The response parser (C7) *)

Lemma strstr_unfold s needle :
  strstr s needle =
  if starts_with needle s then Some O
  else match s with
       | [] => None
       | h :: s' => if h =? 0 then None else option_map S (strstr s' needle)
       end.
Proof. destruct s; reflexivity. Qed.

Lemma strstr_absent needle s : occurs needle s = false -> strstr s needle = None.
Proof.
  unfold occurs. induction s as [|h s IH]; cbn [length occurs_before]; intros H;
    apply orb_false_iff in H; destruct H as [H0 H1]; rewrite strstr_unfold, H0.
  - reflexivity.
  - rewrite (IH H1). now destruct (h =? 0).
Qed.

Lemma strstr_first needle pre rest :
  forallb nonzero pre = true ->
  occurs_before needle (pre ++ rest) (length pre) = false ->
  starts_with needle rest = true ->
  strstr (pre ++ rest) needle = Some (length pre).
Proof.
  intros Hnz Hocc Hrest. induction pre as [|h pre IH]; cbn [app length].
  - now rewrite strstr_unfold, Hrest.
  - cbn [forallb] in Hnz. apply andb_true_iff in Hnz. destruct Hnz as [Hh Hnz].
    cbn [app length occurs_before] in Hocc.
    apply orb_false_iff in Hocc. destruct Hocc as [H0 H1].
    rewrite strstr_unfold, H0.
    unfold nonzero in Hh. apply negb_true_iff in Hh. rewrite Hh.
    now rewrite (IH Hnz H1).
Qed.

Lemma skipn_length_app {A : Type} (pre rest : list A) : skipn (length pre) (pre ++ rest) = rest.
Proof. induction pre; [reflexivity|assumption]. Qed.

(** The format of the [total] field reads [42] from ["total" : 42]
    whatever follows, unless a digit follows. *)
Lemma sscanf_total_42 post :
  starts_with_digit post = false ->
  sscanf (quoted "total" ++ str " : 42" ++ post) (field_format "total") = Some 42.
Proof.
  intros H. cbn. destruct post as [|d post]; [reflexivity|].
  cbn in H. unfold isdigit in H. cbn. unfold isdigit. now rewrite H.
Qed.

Lemma scan_field_total_42 pre post old :
  forallb nonzero pre = true ->
  occurs_before (quoted "total") (pre ++ quoted "total" ++ str " : 42" ++ post)
                (length pre) = false ->
  starts_with_digit post = false ->
  scan_field (pre ++ quoted "total" ++ str " : 42" ++ post) "total" old = 42.
Proof.
  intros Hnz Hocc Hpost. unfold scan_field.
  rewrite (strstr_first _ _ _ Hnz Hocc) by reflexivity.
  rewrite skipn_length_app, (sscanf_total_42 post Hpost). reflexivity.
Qed.

(** C7, amended.  A field whose quoted name occurs nowhere in the
    response is absent: its variable keeps the value it had ([scan_field]
    returns the old value), so [g_image_index] and [g_image_total] are
    unchanged by the parsing of the [update] response, and
    [g_image_total] by that of the [info] response.  And a response whose
    first ["total"] is followed by [ : 42], with any bytes before (no
    earlier ["total"], all inside the C string) and any bytes after (not
    a further digit), sets [g_image_total] to 42. *)
Theorem response_fields response w :
  (forall name old,
      occurs (quoted name) response = false -> scan_field response name old = old) /\
  (occurs (quoted "current_index") response = false ->
   g_image_index (final (parse_update response w)) = g_image_index w) /\
  (occurs (quoted "total") response = false ->
   g_image_total (final (parse_update response w)) = g_image_total w /\
   g_image_total (final (parse_info response w)) = g_image_total w) /\
  (forall pre post,
      response = pre ++ quoted "total" ++ str " : 42" ++ post ->
      forallb nonzero pre = true ->
      occurs_before (quoted "total") response (length pre) = false ->
      starts_with_digit post = false ->
      g_image_total (final (parse_update response w)) = 42).
Proof.
  assert (Habsent : forall name old,
             occurs (quoted name) response = false -> scan_field response name old = old).
  { intros name old H. unfold scan_field. now rewrite (strstr_absent _ _ H). }
  split; [exact Habsent|]. split; [|split].
  - intros H. unfold parse_update, bind, get, modify, final. cbn.
    now rewrite (Habsent _ _ H).
  - intros H. split.
    + unfold parse_update, bind, get, modify, final. cbn. now rewrite (Habsent _ _ H).
    + unfold parse_info. rewrite (strstr_absent _ _ H). reflexivity.
  - intros pre post -> Hnz Hocc Hpost.
    unfold parse_update, bind, get, modify, final. cbn [fst snd set_image_total g_image_total].
    apply scan_field_total_42; assumption.
Qed.

Lemma response_fields_witness :
  g_image_total (final (parse_update update_reply (server []))) = 42 /\
  g_image_total (final (parse_update update_reply_swapped (server []))) = 42 /\
  g_image_index (final (parse_update (str "{}") (server []))) = 0 /\
  g_image_total (final (parse_update (str "{}") (server []))) = 0.
Proof.
  split; [|split; [|split]].
  - apply (proj2 (proj2 (proj2 (response_fields update_reply (server [])))))
      with (pre := str "{" ++ quoted "current_index" ++ str " : 3, ") (post := str "}");
      reflexivity.
  - apply (proj2 (proj2 (proj2 (response_fields update_reply_swapped (server [])))))
      with (pre := str "{")
           (post := str ", " ++ quoted "current_index" ++ str " : 3}");
      reflexivity.
  - apply (proj1 (proj2 (response_fields (str "{}") (server [])))). reflexivity.
  - apply (proj1 (proj2 (proj2 (response_fields (str "{}") (server []))))). reflexivity.
Defined.

(** C7 as stated fails.  The step reads the first ["total"] of the
    text only: when the value of an earlier field is the word [total],
    the text holds ["total" : 42] and the field does not resolve to 42,
    [g_image_total] keeping its value; with the two fields in the other
    order it does resolve to 42, so that the order of the fields
    matters. *)
Lemma total_behind_a_value_not_read :
  holds_total_42 note_total_reply /\
  ~ resolves_total_42 note_total_reply /\
  g_image_total (final (parse_update note_total_reply (set_image_total 9 (server [])))) = 9 /\
  holds_total_42 total_note_reply /\
  g_image_total (final (parse_update total_note_reply (set_image_total 9 (server [])))) = 42.
Proof.
  split; [|split; [|split; [|split]]].
  - exists (str "{" ++ quoted "note" ++ str " : " ++ quoted "total" ++ str ", "), (str "}").
    repeat split.
  - intros H. specialize (H (set_image_total 9 (server []))). vm_compute in H. discriminate.
  - vm_compute. reflexivity.
  - exists (str "{"), (str ", " ++ quoted "note" ++ str " : " ++ quoted "total" ++ str "}").
    repeat split.
  - vm_compute. reflexivity.
Qed.

(* ================================================================= *)
(** ** The filename of the [info] response (C2) *)

(** C2.  The step does not extract the name.  On the [info] reply of
    the protocol, whose name is [sunset.bin], it stores the word
    [filename]: the search for the opening quote starts at the marker and
    finds the quote of the marker itself.  What it stores is not the text
    between the second and the third double quote following the marker,
    wherever the count starts (at the marker, after its opening quote,
    after the marker).  A name of 300 characters is not stored cut to 255
    either: the step stores the word [filename] again. *)
Lemma filename_not_as_claimed :
  claimed_filename 1 info_reply = Some (str "sunset.bin") /\
  cstring (parse_filename info_reply) = str "filename" /\
  ~ filename_as_claimed 0 info_reply /\
  ~ filename_as_claimed 1 info_reply /\
  ~ filename_as_claimed 10 info_reply /\
  claimed_filename 1 long_info_reply = Some (repeat 65 255) /\
  cstring (parse_filename long_info_reply) = str "filename" /\
  ~ filename_as_claimed 1 long_info_reply.
Proof.
  unfold filename_as_claimed.
  repeat split; try (vm_compute; reflexivity); vm_compute; discriminate.
Qed.

Lemma starts_with_app needle s :
  starts_with needle s = true -> exists rest, s = needle ++ rest.
Proof.
  revert s. induction needle as [|c needle IH]; intros s H.
  - now exists s.
  - destruct s as [|h s]; [discriminate|]. cbn [starts_with] in H.
    apply andb_true_iff in H. destruct H as [Hc Hs].
    destruct (IH s Hs) as [rest ->]. exists rest.
    apply Z.eqb_eq in Hc. now subst.
Qed.

Lemma strstr_found s needle p :
  strstr s needle = Some p -> starts_with needle (skipn p s) = true.
Proof.
  revert p. induction s as [|h s IH]; intros p H; rewrite strstr_unfold in H.
  - destruct (starts_with needle []) eqn:E; [|discriminate].
    inversion H; subst. exact E.
  - destruct (starts_with needle (h :: s)) eqn:E.
    + inversion H; subst. exact E.
    + destruct (h =? 0); [discriminate|].
      destruct (strstr s needle) as [p'|]; [|discriminate].
      inversion H; subst. cbn [skipn]. now apply IH.
Qed.

(** The slip of the step: the two quotes it finds are the marker's own,
    so that the text it stores is always the word [filename]. *)
Lemma parse_filename_marker response p :
  strstr response (quoted "filename") = Some p ->
  find_quotes (skipn p response) = (Some 0%nat, Some 9%nat) /\
  parse_filename response = str "filename" ++ repeat 0 248.
Proof.
  intros H. unfold parse_filename. rewrite H.
  destruct (starts_with_app _ _ (strstr_found _ _ _ H)) as [rest ->].
  split; reflexivity.
Qed.

Lemma strchr_bound s c i : strchr s c = Some i -> (i < length s)%nat.
Proof.
  revert i. induction s as [|h s IH]; intros i H; [discriminate|].
  cbn [strchr] in H. destruct (h =? c).
  - inversion H. cbn. lia.
  - destruct (h =? 0); [discriminate|].
    destruct (strchr s c) as [j|]; [|discriminate].
    inversion H. cbn. specialize (IH j eq_refl). lia.
Qed.

(** The copy of the name found between two quotes: whole and
    NUL-terminated when shorter than 255 bytes, not at all otherwise, and
    always inside the 256 bytes of [filename]. *)
Lemma store_filename_bounded filename s start end_ :
  length filename = 256%nat -> (end_ <= length s)%nat ->
  let len := (end_ - start - 1)%nat in
  let name := firstn len (skipn (start + 1) s) in
  let out := store_filename filename s (Some start, Some end_) in
  length out = 256%nat /\
  ((start + 1 < end_)%nat -> (len < 255)%nat -> firstn (S len) out = name ++ [0]) /\
  ((255 <= len)%nat -> out = filename).
Proof.
  intros Hf Hend len name out.
  assert (Hname : (start + 1 < end_)%nat -> length name = len).
  { intros H. subst name. rewrite length_firstn, length_skipn. lia. }
  assert (Hstored : (start + 1 < end_)%nat -> (len < 255)%nat ->
                    out = name ++ [0] ++ skipn (S len) filename).
  { intros H1 H2. subst out. unfold store_filename.
    replace (start + 1 <? end_)%nat with true by (symmetry; apply Nat.ltb_lt; lia).
    fold len. replace (Z.of_nat len <? 256 - 1) with true by lia.
    fold name. unfold store. rewrite <- (Hname H1) at 1.
    replace (length name) with (0 + length name)%nat at 1 by reflexivity.
    rewrite memcpy_at_app by lia.
    unfold memcpy_at. cbn [firstn app]. rewrite <- app_assoc, length_app, (Hname H1).
    cbn [length app]. repeat f_equal. lia. }
  split; [|split].
  - destruct (Nat.ltb_spec (start + 1) end_) as [H1|H1];
      [destruct (Nat.ltb_spec len 255) as [H2|H2]|].
    + rewrite (Hstored H1 H2), !length_app, length_skipn, (Hname H1). cbn [length]. lia.
    + subst out. unfold store_filename.
      replace (start + 1 <? end_)%nat with true by (symmetry; apply Nat.ltb_lt; lia).
      fold len. replace (Z.of_nat len <? 256 - 1) with false by lia. exact Hf.
    + subst out. unfold store_filename.
      replace (start + 1 <? end_)%nat with false by (symmetry; apply Nat.ltb_ge; lia).
      exact Hf.
  - intros H1 H2. rewrite (Hstored H1 H2).
    rewrite (app_assoc name [0%Z]), firstn_app.
    replace (S len - length (name ++ [0%Z]))%nat with 0%nat
      by (rewrite length_app, (Hname H1); cbn [length]; lia).
    rewrite firstn_all2 by (rewrite length_app, (Hname H1); cbn [length]; lia).
    cbn. now rewrite app_nil_r.
  - intros H. subst out. unfold store_filename.
    destruct (start + 1 <? end_)%nat; [|reflexivity].
    fold len. now replace (Z.of_nat len <? 256 - 1) with false by lia.
Qed.

(** The part of C2 that holds: whatever the response, the buffer keeps
    its 256 bytes and its last byte is a NUL. *)
Lemma parse_filename_length response :
  length (parse_filename response) = 256%nat /\ nth 255 (parse_filename response) 0 = 0.
Proof.
  destruct (strstr response (quoted "filename")) as [p|] eqn:E.
  - destruct (parse_filename_marker response p E) as [_ ->]. split; reflexivity.
  - unfold parse_filename. rewrite E. split; reflexivity.
Qed.

(* ================================================================= *)
(** ** The sync loop (C8, C3) *)

Lemma forallb_impl {A : Type} (f g : A -> bool) (l : list A) :
  (forall x, f x = true -> g x = true) -> forallb f l = true -> forallb g l = true.
Proof.
  intros H. induction l as [|x l IH]; [reflexivity|]. cbn. intros Hl.
  apply andb_true_iff in Hl. destruct Hl as [Hx Hl]. now rewrite (H x Hx), (IH Hl).
Qed.

Lemma net_step_events t : forallb is_net t = true -> forallb step_event t = true.
Proof. apply forallb_impl. now intros []. Qed.

Lemma socket_send_command_net cmd resp resp_size w :
  forallb is_net (trace (socket_send_command cmd resp resp_size w)) = true.
Proof.
  unfold socket_send_command.
  destruct cmd as [c|], resp as [r|]; try reflexivity.
  destruct (resp_size <=? 0); [reflexivity|].
  unfold_api. destruct (net w) as [|p rest]; [reflexivity|].
  crunch. repeat (first [split_test | split_recv]; crunch); reflexivity.
Qed.

(** A call with a buffer of positive size starts by creating one socket
    and creates no other. *)
Lemma socket_send_command_attempt cmd resp resp_size w :
  0 < resp_size ->
  exists fd t,
    trace (socket_send_command (Some cmd) (Some resp) resp_size w) = EvSocketCreate fd :: t /\
    existsb is_create t = false.
Proof.
  intros Hsize. unfold socket_send_command.
  replace (resp_size <=? 0) with false by lia.
  unfold_api. destruct (net w) as [|p rest]; [now eexists _, _|].
  crunch. repeat (first [split_test | split_recv]; crunch); now eexists _, _.
Qed.

Lemma download_run_net fd buf size v t : download_run fd buf size v t -> forallb is_net t = true.
Proof.
  assert (Hsetup : forall t, forallb is_setup t = true -> forallb is_net t = true)
    by (intros t0; apply forallb_impl; now intros []).
  assert (Hchunk : forall t, forallb (chunk_read fd) t = true -> forallb is_net t = true)
    by (intros t0; apply forallb_impl; now intros []).
  intros [Hfd|t0 Hfd Ht|t0 r got Hfd Ht _|t0 header rs rc buf' Hfd Ht _ _ Hrs _ _];
    cbn [forallb is_net andb]; rewrite ?forallb_app; cbn [forallb is_net andb];
    rewrite ?forallb_app; cbn [forallb is_net andb];
    rewrite ?(Hsetup _ Ht), ?(Hchunk _ Hrs); reflexivity.
Qed.

Lemma socket_get_image_data_net buf size w :
  forallb is_net (trace (socket_get_image_data (Some buf) (Some size) w)) = true.
Proof.
  destruct (socket_get_image_data_run buf size w) as [fd H].
  eapply download_run_net; eauto.
Qed.

(** The call returns: the model of its loop has fuel enough. *)
Lemma socket_get_image_data_returns buf size w :
  exists rc buf' size',
    value (socket_get_image_data (Some buf) (Some size) w) = Some (rc, buf', size').
Proof.
  destruct (socket_get_image_data_run buf size w) as [fd H].
  set (v := value _) in *. set (t := trace _) in *. clearbody v t.
  destruct H; now eexists _, _, _.
Qed.

Lemma deliver_silent evs w : trace (deliver evs w) = [].
Proof.
  revert w. induction evs as [|e evs IH]; intros w; [reflexivity|].
  cbn [deliver]. unfold bind.
  destruct (wifi_event_callback e w) as [[a w1] t1] eqn:E.
  assert (t1 = []) as ->.
  { destruct e; cbn in E; inversion E; reflexivity. }
  specialize (IH w1). destruct (deliver evs w1) as [[b w2] t2]. exact IH.
Qed.

Lemma wait_events_silent w : trace (wait_events w) = [].
Proof.
  unfold wait_events, bind, get, modify.
  destruct (link_events w) as [|evs rest]; [reflexivity|].
  pose proof (deliver_silent evs (set_link_events rest w)) as H.
  destruct (deliver evs (set_link_events rest w)) as [[b w2] t2]. exact H.
Qed.

Lemma tal_system_sleep_trace ms w : trace (tal_system_sleep ms w) = [EvSleep ms].
Proof.
  unfold tal_system_sleep, bind, emit.
  pose proof (wait_events_silent w) as H.
  destruct (wait_events w) as [[b w2] t2]. cbn in *. now subst.
Qed.

Lemma DEV_Delay_ms_trace ms w : trace (DEV_Delay_ms ms w) = [EvDelay ms].
Proof.
  unfold DEV_Delay_ms, bind, emit.
  pose proof (wait_events_silent w) as H.
  destruct (wait_events w) as [[b w2] t2]. cbn in *. now subst.
Qed.

Lemma ends_in_delay_bind {A : Type} (m : M A) (k : A -> M progress) w :
  forallb step_event (trace (m w)) = true ->
  ends_in_delay (k (value (m w)) (final (m w))) ->
  ends_in_delay (bind m k w).
Proof.
  unfold bind, ends_in_delay, value, final, trace.
  destruct (m w) as [[a w1] t1]. cbn [fst snd].
  destruct (k a w1) as [[b w2] t2]. cbn [fst snd].
  intros H1 (l' & t0 & Hv & Ht & H0).
  exists l', (t1 ++ t0). subst. rewrite app_assoc, forallb_app, H1, H0. auto.
Qed.

Lemma delay_and_continue_ends resp size count w :
  ends_in_delay (delay_and_continue resp size count w).
Proof.
  unfold delay_and_continue, bind, ret, ends_in_delay.
  pose proof (tal_system_sleep_trace LOOP_INTERVAL_MS w) as H.
  destruct (tal_system_sleep LOOP_INTERVAL_MS w) as [[b w2] t2].
  cbn in H. subst. now eexists _, [].
Qed.

Lemma delay_and_continue_trace resp size count w :
  trace (delay_and_continue resp size count w) = [EvSleep LOOP_INTERVAL_MS].
Proof.
  unfold delay_and_continue, bind, ret.
  pose proof (tal_system_sleep_trace LOOP_INTERVAL_MS w) as H.
  destruct (tal_system_sleep LOOP_INTERVAL_MS w) as [[b w2] t2].
  cbn in *. now subst.
Qed.

Lemma display_step_ends resp buf size count w :
  ends_in_delay (display_step resp buf size count w).
Proof.
  unfold display_step.
  apply ends_in_delay_bind.
  { unfold DEV_Module_Init. now destruct (dev_inits w). }
  destruct (negb (value (DEV_Module_Init w) =? 0)).
  - apply ends_in_delay_bind; [reflexivity|]. apply delay_and_continue_ends.
  - do 2 (apply ends_in_delay_bind; [reflexivity|]).
    apply ends_in_delay_bind; [now rewrite DEV_Delay_ms_trace|].
    apply ends_in_delay_bind; [reflexivity|].
    apply ends_in_delay_bind; [now rewrite DEV_Delay_ms_trace|].
    do 2 (apply ends_in_delay_bind; [reflexivity|]).
    apply delay_and_continue_ends.
Qed.

Lemma malloc_cases size w :
  (value (malloc size w) = None /\ trace (malloc size w) = [EvMalloc size false]) \/
  (exists buf, value (malloc size w) = Some buf /\ trace (malloc size w) = [EvMalloc size true]).
Proof.
  unfold malloc. destruct (heap w) as [|[junk|] rest]; [left|right|left];
    try (split; reflexivity).
  eexists. split; reflexivity.
Qed.

Lemma fetch_step_ends resp size count w :
  ends_in_delay (fetch_step resp size count w).
Proof.
  unfold fetch_step.
  apply ends_in_delay_bind.
  { destruct (malloc_cases IMAGE_BUFFER_SIZE w) as [[_ ->]|(buf & _ & ->)]; reflexivity. }
  destruct (value (malloc IMAGE_BUFFER_SIZE w)) as [buf|];
    [|apply delay_and_continue_ends].
  apply ends_in_delay_bind.
  { apply net_step_events, socket_get_image_data_net. }
  destruct (socket_get_image_data_returns buf size (final (malloc IMAGE_BUFFER_SIZE w)))
    as (rc & buf' & size' & ->).
  destruct (negb (rc =? 0)).
  - apply ends_in_delay_bind; [reflexivity|]. apply delay_and_continue_ends.
  - apply display_step_ends.
Qed.

Lemma parse_info_silent resp w : trace (parse_info resp w) = [].
Proof.
  unfold parse_info, bind, ret, modify.
  now destruct (strstr resp (quoted "total")).
Qed.

Lemma info_step_ends resp size count w :
  ends_in_delay (info_step resp size count w).
Proof.
  unfold info_step.
  apply ends_in_delay_bind.
  { apply net_step_events, socket_send_command_net. }
  destruct (value (socket_send_command _ _ _ w)) as [rc resp'].
  destruct (negb (rc =? 0)); [apply delay_and_continue_ends|].
  apply ends_in_delay_bind; [now rewrite parse_info_silent|].
  apply fetch_step_ends.
Qed.

Lemma cycle_ends l w : ends_in_delay (cycle l w).
Proof.
  unfold cycle.
  apply ends_in_delay_bind.
  { apply net_step_events, socket_send_command_net. }
  destruct (value (socket_send_command _ _ _ w)) as [rc resp'].
  destruct (negb (rc =? 0)); [apply delay_and_continue_ends|].
  apply ends_in_delay_bind; [reflexivity|].
  apply info_step_ends.
Qed.

Lemma step_events_no_sleep t : forallb step_event t = true -> filter is_sleep t = [].
Proof.
  induction t as [|e t IH]; [reflexivity|]. cbn [forallb filter]. intros H.
  apply andb_true_iff in H. destruct H as [He Ht].
  destruct e; try discriminate; cbn; auto.
Qed.

Lemma step_events_no_poll t : forallb step_event t = true -> existsb is_link_poll t = false.
Proof.
  induction t as [|e t IH]; [reflexivity|]. cbn [forallb existsb]. intros H.
  apply andb_true_iff in H. destruct H as [He Ht].
  destruct e; try discriminate; cbn; auto.
Qed.

Lemma no_create_filter t : existsb is_create t = false -> filter is_create t = [].
Proof.
  induction t as [|e t IH]; [reflexivity|]. cbn [existsb filter]. intros H.
  apply orb_false_iff in H. destruct H as [He Ht]. rewrite He. auto.
Qed.

(** [cycles] turns of the loop: still looping, [cycles] inter-cycle
    delays and no other sleep, no poll of the link. *)
Lemma main_loop_runs cycles l w :
  exists l',
    value (main_loop cycles l w) = Looping l' /\
    filter is_sleep (trace (main_loop cycles l w)) = repeat (EvSleep LOOP_INTERVAL_MS) cycles /\
    existsb is_link_poll (trace (main_loop cycles l w)) = false.
Proof.
  revert l w. induction cycles as [|cycles IH]; intros l w.
  - exists l. repeat split.
  - cbn [main_loop]. unfold bind.
    destruct (cycle_ends l w) as (l1 & t0 & Hv & Ht & H0).
    destruct (cycle l w) as [[v w1] t1]. cbn [value trace fst snd] in Hv, Ht. subst v t1.
    destruct (IH l1 w1) as (l' & Hv' & Hs & Hp).
    destruct (main_loop cycles l1 w1) as [[v w2] t2]. cbn [value trace fst snd] in *.
    exists l'. split; [exact Hv'|]. split.
    + rewrite !filter_app, (step_events_no_sleep _ H0), Hs. reflexivity.
    + rewrite !existsb_app, (step_events_no_poll _ H0), Hp. reflexivity.
Qed.

(** *** A failed step skips the rest of the cycle *)

Lemma cycle_update_fails l w :
  fst (value (socket_send_command (Some (str "update")) (Some (response l))
                RECV_BUFFER_SIZE w)) <> 0 ->
  trace (cycle l w)
  = trace (socket_send_command (Some (str "update")) (Some (response l)) RECV_BUFFER_SIZE w)
    ++ [EvSleep LOOP_INTERVAL_MS].
Proof.
  unfold cycle, bind.
  destruct (socket_send_command _ _ _ w) as [[[rc resp] w1] t1]. cbn [value trace fst snd].
  intros H. replace (rc =? 0) with false by lia. cbn [negb].
  pose proof (delay_and_continue_trace resp (image_size l) (to_uint32 (loop_count l + 1)) w1) as Hd.
  destruct (delay_and_continue _ _ _ w1) as [[b w2] t2]. cbn in Hd. now subst.
Qed.

Lemma info_step_fails resp size count w :
  fst (value (socket_send_command (Some (str "info")) (Some resp) RECV_BUFFER_SIZE w)) <> 0 ->
  trace (info_step resp size count w)
  = trace (socket_send_command (Some (str "info")) (Some resp) RECV_BUFFER_SIZE w)
    ++ [EvSleep LOOP_INTERVAL_MS].
Proof.
  unfold info_step, bind.
  destruct (socket_send_command _ _ _ w) as [[[rc resp'] w1] t1]. cbn [value trace fst snd].
  intros H. replace (rc =? 0) with false by lia. cbn [negb].
  pose proof (delay_and_continue_trace resp' size count w1) as Hd.
  destruct (delay_and_continue _ _ _ w1) as [[b w2] t2]. cbn in Hd. now subst.
Qed.

Lemma fetch_step_no_memory resp size count w :
  value (malloc IMAGE_BUFFER_SIZE w) = None ->
  trace (fetch_step resp size count w)
  = [EvMalloc IMAGE_BUFFER_SIZE false; EvSleep LOOP_INTERVAL_MS].
Proof.
  unfold fetch_step, bind. intros H.
  destruct (malloc_cases IMAGE_BUFFER_SIZE w) as [[_ Ht]|(buf & Hv & _)];
    [|congruence].
  destruct (malloc IMAGE_BUFFER_SIZE w) as [[v w1] t1].
  unfold value, trace in *. cbn [fst snd] in *. subst v t1.
  pose proof (delay_and_continue_trace resp size count w1) as Hd.
  destruct (delay_and_continue _ _ _ w1) as [[b w2] t2].
  unfold trace in Hd. cbn [snd] in Hd. now subst.
Qed.

Lemma fetch_step_fails resp size count w buf rc buf' size' :
  value (malloc IMAGE_BUFFER_SIZE w) = Some buf ->
  value (socket_get_image_data (Some buf) (Some size) (final (malloc IMAGE_BUFFER_SIZE w)))
  = Some (rc, buf', size') ->
  rc <> 0 ->
  trace (fetch_step resp size count w)
  = EvMalloc IMAGE_BUFFER_SIZE true
    :: trace (socket_get_image_data (Some buf) (Some size)
                (final (malloc IMAGE_BUFFER_SIZE w)))
    ++ [EvFree; EvSleep LOOP_INTERVAL_MS].
Proof.
  unfold fetch_step, bind. intros H.
  destruct (malloc_cases IMAGE_BUFFER_SIZE w) as [[Hv _]|(buf0 & _ & Ht)];
    [congruence|].
  destruct (malloc IMAGE_BUFFER_SIZE w) as [[v w1] t1].
  unfold value, final, trace in *. cbn [fst snd] in *. subst v t1.
  destruct (socket_get_image_data _ _ _) as [[v w2] t2]. cbn [fst snd].
  intros -> Hrc. replace (rc =? 0) with false by lia. cbn [negb].
  unfold free, emit.
  pose proof (delay_and_continue_trace resp size' count w2) as Hd.
  destruct (delay_and_continue _ _ _ w2) as [[b w3] t3].
  unfold trace in Hd. cbn [snd] in Hd. subst.
  reflexivity.
Qed.

Lemma display_step_fails resp buf size count w :
  value (DEV_Module_Init w) <> 0 ->
  trace (display_step resp buf size count w)
  = [EvModuleInit (value (DEV_Module_Init w)); EvFree; EvSleep LOOP_INTERVAL_MS].
Proof.
  unfold display_step, bind, DEV_Module_Init.
  destruct (dev_inits w) as [|r rest]; cbn [value trace fst snd]; intros H.
  - cbn. unfold free, emit.
    pose proof (delay_and_continue_trace resp size count w) as Hd.
    destruct (delay_and_continue _ _ _ w) as [[b w2] t2]. cbn in Hd. now subst.
  - replace (r =? 0) with false by lia. cbn [negb]. unfold free, emit.
    pose proof (delay_and_continue_trace resp size count (set_dev_inits rest w)) as Hd.
    destruct (delay_and_continue _ _ _ _) as [[b w2] t2]. cbn in Hd. now subst.
Qed.

(** C8.  Every cycle stays in the loop and its trace is made of step
    events followed by one [tal_system_sleep (LOOP_INTERVAL_MS)], its last
    event; so [cycles] turns make [cycles] delays and the loop never
    returns.  A step that fails is followed by the delay at once: after a
    failed [update] the cycle has created one socket only (no [info], no
    [get_c]); likewise after a failed [info], a failed allocation, a
    failed download and a failed [DEV_Module_Init]. *)
Theorem failed_step_skips_to_delay l w :
  ends_in_delay (cycle l w) /\
  (forall cycles, exists l',
      value (main_loop cycles l w) = Looping l' /\
      filter is_sleep (trace (main_loop cycles l w))
      = repeat (EvSleep LOOP_INTERVAL_MS) cycles) /\
  (fst (value (socket_send_command (Some (str "update")) (Some (response l))
                 RECV_BUFFER_SIZE w)) <> 0 ->
   trace (cycle l w)
   = trace (socket_send_command (Some (str "update")) (Some (response l))
              RECV_BUFFER_SIZE w)
     ++ [EvSleep LOOP_INTERVAL_MS] /\
   length (filter is_create (trace (cycle l w))) = 1%nat) /\
  (forall resp size count,
      fst (value (socket_send_command (Some (str "info")) (Some resp)
                    RECV_BUFFER_SIZE w)) <> 0 ->
      trace (info_step resp size count w)
      = trace (socket_send_command (Some (str "info")) (Some resp) RECV_BUFFER_SIZE w)
        ++ [EvSleep LOOP_INTERVAL_MS]) /\
  (forall resp size count,
      value (malloc IMAGE_BUFFER_SIZE w) = None ->
      trace (fetch_step resp size count w)
      = [EvMalloc IMAGE_BUFFER_SIZE false; EvSleep LOOP_INTERVAL_MS]) /\
  (forall resp size count buf rc buf' size',
      value (malloc IMAGE_BUFFER_SIZE w) = Some buf ->
      value (socket_get_image_data (Some buf) (Some size)
               (final (malloc IMAGE_BUFFER_SIZE w)))
      = Some (rc, buf', size') ->
      rc <> 0 ->
      trace (fetch_step resp size count w)
      = EvMalloc IMAGE_BUFFER_SIZE true
        :: trace (socket_get_image_data (Some buf) (Some size)
                    (final (malloc IMAGE_BUFFER_SIZE w)))
        ++ [EvFree; EvSleep LOOP_INTERVAL_MS]) /\
  (forall resp buf size count,
      value (DEV_Module_Init w) <> 0 ->
      trace (display_step resp buf size count w)
      = [EvModuleInit (value (DEV_Module_Init w)); EvFree; EvSleep LOOP_INTERVAL_MS]).
Proof.
  split; [apply cycle_ends|]. split; [|split; [|split; [|split; [|split]]]].
  - intros cycles. destruct (main_loop_runs cycles l w) as (l' & Hv & Hs & _). eauto.
  - intros H. rewrite (cycle_update_fails l w H). split; [reflexivity|].
    destruct (socket_send_command_attempt (str "update") (response l) RECV_BUFFER_SIZE w)
      as (fd & t & -> & Hc); [reflexivity|].
    cbn [app filter is_create length]. rewrite filter_app, (no_create_filter _ Hc).
    reflexivity.
  - intros. now apply info_step_fails.
  - intros. now apply fetch_step_no_memory.
  - intros. eapply fetch_step_fails; eauto.
  - intros. now apply display_step_fails.
Qed.

Lemma failed_step_skips_to_delay_witness :
  (trace (cycle first_locals dead_world)
   = trace (socket_send_command (Some (str "update")) (Some (response first_locals))
              RECV_BUFFER_SIZE dead_world)
     ++ [EvSleep LOOP_INTERVAL_MS] /\
   length (filter is_create (trace (cycle first_locals dead_world))) = 1%nat) /\
  trace (info_step [] 0 1 dead_world)
  = trace (socket_send_command (Some (str "info")) (Some []) RECV_BUFFER_SIZE dead_world)
    ++ [EvSleep LOOP_INTERVAL_MS] /\
  trace (fetch_step [] 0 1 dead_world)
  = [EvMalloc IMAGE_BUFFER_SIZE false; EvSleep LOOP_INTERVAL_MS] /\
  trace (display_step [] [] 0 1 dead_world)
  = [EvModuleInit (value (DEV_Module_Init dead_world)); EvFree; EvSleep LOOP_INTERVAL_MS].
Proof.
  destruct (failed_step_skips_to_delay first_locals dead_world)
    as (_ & _ & Hupdate & Hinfo & Halloc & _ & Hinit).
  split; [|split; [|split]].
  - apply Hupdate. vm_compute. discriminate.
  - apply Hinfo. vm_compute. discriminate.
  - apply Halloc. reflexivity.
  - apply Hinit. vm_compute. discriminate.
Defined.

(** C3 as stated fails: after the link is lost during a delay, the next
    cycle polls nothing and sends [update] at once. *)
Lemma link_loss_not_awaited :
  exists l1,
    value (cycle first_locals link_loss_world) = Looping l1 /\
    g_wifi_connected (final (cycle first_locals link_loss_world)) = false /\
    ~ link_awaited l1 (final (cycle first_locals link_loss_world)) /\
    firstn 6 (trace (cycle l1 (final (cycle first_locals link_loss_world))))
    = prologue (accepting (segment update_reply)) 5000 (str "update").
Proof.
  eexists. split; [vm_compute; reflexivity|]. split; [vm_compute; reflexivity|].
  split; [|vm_compute; reflexivity].
  unfold link_awaited. vm_compute. intros H. specialize (H eq_refl). discriminate.
Qed.

Lemma wifi_connect_wait_no_socket timeout w :
  existsb is_create (trace (wifi_connect_wait_from timeout w)) = false.
Proof.
  revert w. induction timeout as [|timeout IH]; intros w; [reflexivity|].
  cbn [wifi_connect_wait_from]. unfold read_wifi_connected, bind, get, emit, ret.
  cbn [fst snd]. destruct (g_wifi_connected w); [reflexivity|].
  pose proof (tal_system_sleep_trace 1000 w) as Hs.
  destruct (tal_system_sleep 1000 w) as [[u w1] t1]. unfold trace in Hs. cbn [snd] in Hs.
  subst t1. specialize (IH w1).
  destruct (wifi_connect_wait_from timeout w1) as [[r w2] t2]. exact IH.
Qed.

(** [EPD_test_net] returns only from its start-up, with [-1] and before
    any socket is created. *)
Lemma EPD_test_net_returns_at_startup stack cycles w rc :
  value (EPD_test_net stack cycles w) = Returned rc ->
  rc = -1 /\ existsb is_create (trace (EPD_test_net stack cycles w)) = false.
Proof.
  unfold EPD_test_net, bind, tal_wifi_init, tal_wifi_set_work_mode,
    tal_wifi_station_connect, tal_wifi_station_disconnect, emit, ret.
  destruct (negb (wifi_init_ret w =? 0));
    [intros H; inversion H; split; reflexivity|].
  destruct (negb (wifi_mode_ret w =? 0));
    [intros H; inversion H; split; reflexivity|].
  destruct (negb (wifi_connect_ret w =? 0));
    [intros H; inversion H; split; reflexivity|].
  unfold wifi_connect_wait.
  pose proof (wifi_connect_wait_no_socket 30 w) as Hw.
  destruct (wifi_connect_wait_from 30 w) as [[up w1] t1]. unfold trace in Hw. cbn [snd] in Hw.
  destruct (negb (up =? 0)).
  - intros H; inversion H; split; [reflexivity|].
    cbn [trace snd app existsb is_create orb]. rewrite existsb_app, Hw. reflexivity.
  - match goal with
    | |- context [main_loop cycles ?l w1] =>
        destruct (main_loop_runs cycles l w1) as (l' & Hv & _);
        destruct (main_loop cycles l w1) as [[v w2] t2]
    end.
    unfold value in *. cbn [fst] in *. subst v. discriminate.
Qed.

(* ----------------------------------------------------------------- *)
(** *** The loop is blind to the link *)

Lemma same_but_link_fields w1 w2 :
  same_but_link w1 w2 ->
  g_socket_connected w1 = g_socket_connected w2 /\
  g_image_index w1 = g_image_index w2 /\
  g_image_total w1 = g_image_total w2 /\
  sock w1 = sock w2 /\ net w1 = net w2 /\ heap w1 = heap w2 /\
  dev_inits w1 = dev_inits w2 /\ link_events w1 = link_events w2 /\
  wifi_init_ret w1 = wifi_init_ret w2 /\ wifi_mode_ret w1 = wifi_mode_ret w2 /\
  wifi_connect_ret w1 = wifi_connect_ret w2.
Proof.
  unfold same_but_link, set_wifi_connected. intros H. inversion H. repeat split; assumption.
Qed.

Ltac world_fields H :=
  let H1 := fresh in
  pose proof (same_but_link_fields _ _ H) as H1;
  destruct H1 as (? & ? & ? & ? & ? & ? & ? & ? & ? & ? & ?).

Lemma link_blind_ret {A : Type} (a : A) : link_blind (ret a).
Proof. intros w1 w2 H. repeat split. exact H. Qed.

Lemma link_blind_emit e : link_blind (emit e).
Proof. intros w1 w2 H. repeat split. exact H. Qed.

Lemma link_blind_bind {A B : Type} (m : M A) (k : A -> M B) :
  link_blind m -> (forall a, link_blind (k a)) -> link_blind (bind m k).
Proof.
  intros Hm Hk w1 w2 H. unfold bind.
  destruct (Hm w1 w2 H) as (Hv & Ht & Hw).
  destruct (m w1) as [[a1 u1] t1], (m w2) as [[a2 u2] t2].
  unfold value, final, trace in *. cbn [fst snd] in *. subst a2 t2.
  destruct (Hk a1 u1 u2 Hw) as (Hv' & Ht' & Hw').
  destruct (k a1 u1) as [[b1 v1] s1], (k a1 u2) as [[b2 v2] s2].
  unfold value, final, trace in *. cbn [fst snd] in *. now subst.
Qed.

(** A primitive that reads and writes fields other than the link flag. *)
Ltac blind_primitive :=
  let w1 := fresh "w" in
  let w2 := fresh "w" in
  let H := fresh "H" in
  intros w1 w2 H; world_fields H;
  destruct w1, w2; unfold same_but_link, set_wifi_connected, value, final, trace in *;
  cbn in *; subst;
  repeat match goal with
         | |- context [match ?x with _ => _ end] => destruct x
         | |- context [if ?c then _ else _] => destruct c
         end;
  repeat split.

Lemma link_blind_socket_create : link_blind tal_net_socket_create.
Proof. unfold tal_net_socket_create. blind_primitive. Qed.

Lemma link_blind_set_timeout fd ms dir : link_blind (tal_net_set_timeout fd ms dir).
Proof. apply link_blind_emit. Qed.

Lemma link_blind_str2addr : link_blind tal_net_str2addr.
Proof. unfold tal_net_str2addr. blind_primitive. Qed.

Lemma link_blind_connect fd addr port : link_blind (tal_net_connect fd addr port).
Proof. unfold tal_net_connect. blind_primitive. Qed.

Lemma link_blind_send fd buf : link_blind (tal_net_send fd buf).
Proof. unfold tal_net_send. blind_primitive. Qed.

Lemma link_blind_recv fd len : link_blind (tal_net_recv fd len).
Proof.
  unfold tal_net_recv. intros w1 w2 H. world_fields H.
  destruct w1, w2; unfold same_but_link, set_wifi_connected, value, final, trace in *;
    cbn in *; subst.
  match goal with
  | |- context [match ?x with Some _ => _ | None => _ end] => destruct x as [[s p]|]
  end; [|repeat split].
  destruct (recv_from len (incoming p)) as [[r got] q]. repeat split.
Qed.

Lemma link_blind_close fd : link_blind (tal_net_close fd).
Proof. unfold tal_net_close. blind_primitive. Qed.

Lemma link_blind_socket_flag b : link_blind (modify (set_socket_connected b)).
Proof. unfold modify. blind_primitive. Qed.

Lemma link_blind_malloc size : link_blind (malloc size).
Proof. unfold malloc. blind_primitive. Qed.

Lemma link_blind_module_init : link_blind DEV_Module_Init.
Proof. unfold DEV_Module_Init. blind_primitive. Qed.

Lemma link_blind_callback ev : link_blind (wifi_event_callback ev).
Proof. destruct ev; unfold wifi_event_callback, bind, modify, ret; blind_primitive. Qed.

Lemma link_blind_deliver evs : link_blind (deliver evs).
Proof.
  induction evs as [|e evs IH]; cbn [deliver]; [apply link_blind_ret|].
  apply link_blind_bind; [apply link_blind_callback|]. intros _. exact IH.
Qed.

Lemma link_blind_wait_events : link_blind wait_events.
Proof.
  intros w1 w2 H. world_fields H. unfold wait_events, bind, get.
  cbn [fst snd].
  replace (link_events w2) with (link_events w1) by assumption.
  destruct (link_events w1) as [|evs rest]; [repeat split; exact H|].
  assert (H' : same_but_link (set_link_events rest w1) (set_link_events rest w2)).
  { destruct w1, w2; unfold same_but_link, set_wifi_connected in *; cbn in *;
      subst; reflexivity. }
  unfold modify.
  destruct (link_blind_deliver evs _ _ H') as (Hv & Ht & Hw).
  destruct (deliver evs (set_link_events rest w1)) as [[a1 u1] t1],
           (deliver evs (set_link_events rest w2)) as [[a2 u2] t2].
  unfold value, final, trace in *. cbn [fst snd] in *. now subst.
Qed.

Lemma link_blind_sleep ms : link_blind (tal_system_sleep ms).
Proof.
  unfold tal_system_sleep. apply link_blind_bind; [apply link_blind_emit|].
  intros _. apply link_blind_wait_events.
Qed.

Lemma link_blind_delay ms : link_blind (DEV_Delay_ms ms).
Proof.
  unfold DEV_Delay_ms. apply link_blind_bind; [apply link_blind_emit|].
  intros _. apply link_blind_wait_events.
Qed.

Create HintDb blind.
#[local] Hint Resolve link_blind_ret link_blind_emit link_blind_socket_create
  link_blind_set_timeout link_blind_str2addr link_blind_connect link_blind_send
  link_blind_recv link_blind_close link_blind_socket_flag link_blind_malloc
  link_blind_module_init link_blind_sleep link_blind_delay : blind.

(** Blindness of a computation made of blind parts. *)
Ltac blind :=
  repeat first
    [ solve [auto with blind]
    | apply link_blind_bind; [|intros ?]
    | match goal with
      | |- link_blind (match ?x with _ => _ end) => destruct x
      | |- link_blind (if ?c then _ else _) => destruct c
      | |- link_blind (let _ := _ in _) => cbv zeta
      end ].

Lemma link_blind_send_command cmd resp resp_size :
  link_blind (socket_send_command cmd resp resp_size).
Proof. unfold socket_send_command. blind. Qed.

Lemma link_blind_recv_image fuel fd image_size received data :
  link_blind (recv_image fuel fd image_size received data).
Proof.
  revert received data. induction fuel as [|fuel IH]; intros received data;
    cbn [recv_image]; blind.
Qed.

Lemma link_blind_get_image_data data data_size :
  link_blind (socket_get_image_data data data_size).
Proof.
  pose proof link_blind_recv_image.
  unfold socket_get_image_data. blind; auto.
Qed.

Lemma link_blind_parse_update resp : link_blind (parse_update resp).
Proof.
  unfold parse_update, bind, get, modify. intros w1 w2 H. world_fields H.
  destruct w1, w2; unfold same_but_link, set_wifi_connected, value, final, trace in *;
    cbn in *; subst.
  repeat split.
Qed.

Lemma link_blind_parse_info resp : link_blind (parse_info resp).
Proof.
  unfold parse_info. apply link_blind_bind; [|intros ?; apply link_blind_ret].
  destruct (strstr resp (quoted "total")); [|apply link_blind_ret].
  apply link_blind_bind; [|intros ?; apply link_blind_ret].
  unfold modify. blind_primitive.
Qed.

Lemma link_blind_cycle l : link_blind (cycle l).
Proof.
  pose proof link_blind_send_command. pose proof link_blind_get_image_data.
  pose proof link_blind_parse_update. pose proof link_blind_parse_info.
  unfold cycle, info_step, fetch_step, display_step, delay_and_continue,
    free, EPD_4IN0E_Init, EPD_4IN0E_Display_Fast, EPD_4IN0E_Sleep, DEV_Module_Exit.
  blind; auto.
Qed.

Lemma link_blind_main_loop cycles l : link_blind (main_loop cycles l).
Proof.
  revert l. induction cycles as [|cycles IH]; intros l; cbn [main_loop];
    [apply link_blind_ret|].
  apply link_blind_bind; [apply link_blind_cycle|].
  intros [l'|rc|]; [apply IH | apply link_blind_ret | apply link_blind_ret].
Qed.

Lemma same_but_link_set b w : same_but_link (set_wifi_connected b w) w.
Proof. reflexivity. Qed.

(** C3, amended.  Link loss never ends the process and is never looked
    at: whatever WiFi events arrive and whatever the link flag holds, any
    number of turns leaves the loop running, no turn reads the link flag
    (the result and the trace of the turns are the same whatever the flag
    holds), every turn starts by creating the socket for [update], and
    [EPD_test_net] returns only from its start-up, before any socket is
    created. *)
Theorem steady_state_ignores_link stack cycles l w :
  (exists l', value (main_loop cycles l w) = Looping l') /\
  existsb is_link_poll (trace (main_loop cycles l w)) = false /\
  (forall b,
      value (main_loop cycles l (set_wifi_connected b w)) = value (main_loop cycles l w) /\
      trace (main_loop cycles l (set_wifi_connected b w)) = trace (main_loop cycles l w)) /\
  (exists fd t, trace (cycle l w) = EvSocketCreate fd :: t) /\
  (value (EPD_test_net stack cycles w) = Returned (-1) /\
   existsb is_create (trace (EPD_test_net stack cycles w)) = false
   \/ exists l', value (EPD_test_net stack cycles w) = Looping l').
Proof.
  destruct (main_loop_runs cycles l w) as (l' & Hv & _ & Hp).
  split; [eauto|]. split; [exact Hp|]. split; [|split].
  - intros b.
    destruct (link_blind_main_loop cycles l _ _ (same_but_link_set b w)) as (H1 & H2 & _).
    auto.
  - unfold cycle, bind.
    destruct (socket_send_command_attempt (str "update") (response l) RECV_BUFFER_SIZE w)
      as (fd & t & Ht & _); [reflexivity|].
    destruct (socket_send_command _ _ _ w) as [[[rc resp] w1] t1].
    unfold trace in Ht. cbn [snd] in Ht. subst t1.
    match goal with
    | |- context [(if ?c then ?a else ?b) w1] =>
        destruct ((if c then a else b) w1) as [[v w2] t2]
    end.
    now exists fd, (t ++ t2).
  - destruct (value (EPD_test_net stack cycles w)) as [l1|rc|] eqn:E.
    + right. eauto.
    + left. destruct (EPD_test_net_returns_at_startup stack cycles w rc E) as [-> H].
      auto.
    + exfalso. revert E.
      unfold EPD_test_net, bind, tal_wifi_init, tal_wifi_set_work_mode,
        tal_wifi_station_connect, tal_wifi_station_disconnect, emit, ret.
      destruct (negb (wifi_init_ret w =? 0)); [discriminate|].
      destruct (negb (wifi_mode_ret w =? 0)); [discriminate|].
      destruct (negb (wifi_connect_ret w =? 0)); [discriminate|].
      destruct (wifi_connect_wait w) as [[up w1] t1].
      destruct (negb (up =? 0)); [discriminate|].
      match goal with
      | |- context [main_loop cycles ?l0 w1] =>
          destruct (main_loop_runs cycles l0 w1) as (l1 & Hv1 & _);
          destruct (main_loop cycles l0 w1) as [[v w2] t2]
      end.
      unfold value in *. cbn [fst] in *. subst v. discriminate.
Qed.

(* ================================================================= *)
(** ** Runs of the protocol *)

(** A frame cut short: five bytes declared, two delivered, then the peer
    closes.  The call fails and [*data_size] holds 5. *)
Example truncated_frame_run :
  socket_get_image_data (Some [7; 7; 7; 7; 7; 7]) (Some 9)
    (server [accepting [Seg 0 [0; 0; 5; 65; 66]]])
  = (Some (-1, [65; 66; 7; 7; 7; 7], 5), server [],
     prologue (accepting [Seg 0 [0; 0; 5; 65; 66]]) 10000 (str "get_c")
     ++ [EvRecv 3 4 4 [0; 0; 0; 5]; EvRecv 3 5 2 [65; 66]; EvRecv 3 3 0 [];
         EvClose 3]).
Proof. reflexivity. Qed.

(** One whole cycle: the counters are read from the [update] response,
    the frame of 1000 bytes is shown once, and the cycle ends in the
    delay. *)
Example album_cycle :
  let r := cycle first_locals album_world in
  (g_image_index (final r), g_image_total (final r)) = (3, 10) /\
  length (filter is_display (trace r)) = 1%nat /\
  (exists l', value r = Looping l' /\ image_size l' = 1000) /\
  last (trace r) EvFree = EvSleep LOOP_INTERVAL_MS.
Proof.
  cbv zeta. split; [vm_compute; reflexivity|]. split; [vm_compute; reflexivity|].
  split; [|vm_compute; reflexivity].
  eexists. split; [vm_compute; reflexivity|]. reflexivity.
Qed.

(* ================================================================= *)
(** * Further properties *)

(** ** The start-up and the link *)

Lemma trace_bind {A B : Type} (m : M A) (k : A -> M B) w :
  trace (bind m k w) = trace (m w) ++ trace (k (value (m w)) (final (m w))).
Proof.
  unfold bind, trace, value, final.
  destruct (m w) as [[a w1] t1]. cbn [fst snd].
  now destruct (k a w1) as [[b w2] t2].
Qed.

Lemma value_bind {A B : Type} (m : M A) (k : A -> M B) w :
  value (bind m k w) = value (k (value (m w)) (final (m w))).
Proof.
  unfold bind, trace, value, final.
  destruct (m w) as [[a w1] t1]. cbn [fst snd].
  now destruct (k a w1) as [[b w2] t2].
Qed.

Lemma final_bind {A B : Type} (m : M A) (k : A -> M B) w :
  final (bind m k w) = final (k (value (m w)) (final (m w))).
Proof.
  unfold bind, trace, value, final.
  destruct (m w) as [[a w1] t1]. cbn [fst snd].
  now destruct (k a w1) as [[b w2] t2].
Qed.

Lemma wifi_connect_wait_from_rounds timeout w :
  (exists k, (k < timeout)%nat /\
             value (wifi_connect_wait_from timeout w) = 0 /\
             trace (wifi_connect_wait_from timeout w) = poll_rounds k ++ [EvReadLink true]) \/
  (value (wifi_connect_wait_from timeout w) = -1 /\
   trace (wifi_connect_wait_from timeout w) = poll_rounds timeout).
Proof.
  revert w. induction timeout as [|timeout IH]; intros w.
  - right. split; reflexivity.
  - cbn [wifi_connect_wait_from].
    rewrite trace_bind, value_bind.
    replace (read_wifi_connected w)
      with (g_wifi_connected w, w, [EvReadLink (g_wifi_connected w)]) by reflexivity.
    cbn [value final trace fst snd app].
    destruct (g_wifi_connected w) eqn:Eup.
    + left. exists 0%nat. repeat split. lia.
    + rewrite trace_bind, value_bind, tal_system_sleep_trace.
      destruct (IH (final (tal_system_sleep 1000 w))) as [(k & Hk & Hv & Ht)|[Hv Ht]].
      * left. exists (S k). rewrite Hv, Ht. repeat split. lia.
      * right. rewrite Hv, Ht. split; reflexivity.
Qed.

(** X1.  [wifi_connect_wait] polls the link at most 30 times, one second
    apart.  It returns 0 as soon as a poll finds the link up, after fewer
    than 30 sleeps, and -1 after 30 polls that found it down, each
    followed by its sleep: the flag is not looked at after the thirtieth
    sleep.  The statement is about the polls, the sleeps and the return
    value; it says nothing on the flag once the call has returned. *)
Theorem wifi_connect_wait_bounded w :
  (exists k, (k < 30)%nat /\
             value (wifi_connect_wait w) = 0 /\
             trace (wifi_connect_wait w) = poll_rounds k ++ [EvReadLink true]) \/
  (value (wifi_connect_wait w) = -1 /\
   trace (wifi_connect_wait w) = poll_rounds 30).
Proof. apply wifi_connect_wait_from_rounds. Qed.

Lemma deliver_flags evs w :
  g_wifi_connected (final (deliver evs w)) = link_after evs (g_wifi_connected w) /\
  g_socket_connected (final (deliver evs w))
  = (if existsb is_disconnected evs then false else g_socket_connected w) /\
  g_image_index (final (deliver evs w)) = g_image_index w /\
  g_image_total (final (deliver evs w)) = g_image_total w /\
  sock (final (deliver evs w)) = sock w /\
  net (final (deliver evs w)) = net w /\
  heap (final (deliver evs w)) = heap w.
Proof.
  revert w. induction evs as [|e evs IH]; intros w; [repeat split|].
  cbn [deliver]. rewrite final_bind.
  destruct (IH (final (wifi_event_callback e w))) as (H1 & H2 & H3 & H4 & H5 & H6 & H7).
  rewrite H1, H2, H3, H4, H5, H6, H7.
  destruct e; cbn; repeat split; now destruct (existsb is_disconnected evs).
Qed.

(** X2.  After the callback has seen a series of WiFi events, the link
    flag is the one of the last event that sets it (up after
    [WFE_CONNECTED], down after [WFE_CONNECT_FAILED] and
    [WFE_DISCONNECTED]) and unchanged when there is none; the socket flag
    is cleared only by [WFE_DISCONNECTED]; the image counters, the sockets
    and the heap are never touched. *)
Theorem callback_sets_flags_only evs w :
  g_wifi_connected (final (deliver evs w)) = link_after evs (g_wifi_connected w) /\
  g_socket_connected (final (deliver evs w))
  = (if existsb is_disconnected evs then false else g_socket_connected w) /\
  g_image_index (final (deliver evs w)) = g_image_index w /\
  g_image_total (final (deliver evs w)) = g_image_total w /\
  sock (final (deliver evs w)) = sock w /\
  net (final (deliver evs w)) = net w /\
  heap (final (deliver evs w)) = heap w.
Proof. apply deliver_flags. Qed.

Lemma awaits_link_rounds k t : awaits_link (poll_rounds k ++ t) = awaits_link t.
Proof. induction k as [|k IH]; [reflexivity|exact IH]. Qed.

Lemma filter_sleep_rounds k : filter is_sleep (poll_rounds k) = repeat (EvSleep 1000) k.
Proof. induction k as [|k IH]; [reflexivity|]. cbn. now rewrite IH. Qed.

Lemma no_create_rounds k : existsb is_create (poll_rounds k) = false.
Proof. induction k as [|k IH]; [reflexivity|exact IH]. Qed.

Lemma timeout_trace k :
  existsb is_create
    ([EvWifiInit 0; EvWifiSetWorkMode 0; EvWifiStationConnect 0]
     ++ poll_rounds k ++ [EvWifiStationDisconnect]) = false /\
  length (filter is_sleep
            ([EvWifiInit 0; EvWifiSetWorkMode 0; EvWifiStationConnect 0]
             ++ poll_rounds k ++ [EvWifiStationDisconnect])) = k.
Proof.
  rewrite existsb_app, filter_app, existsb_app, filter_app.
  rewrite no_create_rounds, filter_sleep_rounds.
  cbn [existsb is_create filter is_sleep orb app].
  now rewrite app_nil_r, repeat_length.
Qed.

Lemma forallb_trace_bind {A B : Type} (P : event -> bool) (m : M A) (k : A -> M B) w :
  forallb P (trace (m w)) = true ->
  forallb P (trace (k (value (m w)) (final (m w)))) = true ->
  forallb P (trace (bind m k w)) = true.
Proof. intros H1 H2. now rewrite trace_bind, forallb_app, H1, H2. Qed.

Lemma net_loop_events t : forallb is_net t = true -> forallb loop_event t = true.
Proof. apply forallb_impl. now intros []. Qed.

Lemma delay_and_continue_events resp size count w :
  forallb loop_event (trace (delay_and_continue resp size count w)) = true.
Proof. now rewrite delay_and_continue_trace. Qed.

Lemma display_step_events resp buf size count w :
  forallb loop_event (trace (display_step resp buf size count w)) = true.
Proof.
  unfold display_step. apply forallb_trace_bind.
  { unfold DEV_Module_Init. now destruct (dev_inits w). }
  destruct (negb (value (DEV_Module_Init w) =? 0)).
  - apply forallb_trace_bind; [reflexivity|]. apply delay_and_continue_events.
  - do 2 (apply forallb_trace_bind; [reflexivity|]).
    apply forallb_trace_bind; [now rewrite DEV_Delay_ms_trace|].
    apply forallb_trace_bind; [reflexivity|].
    apply forallb_trace_bind; [now rewrite DEV_Delay_ms_trace|].
    do 2 (apply forallb_trace_bind; [reflexivity|]).
    apply delay_and_continue_events.
Qed.

Lemma fetch_step_events resp size count w :
  forallb loop_event (trace (fetch_step resp size count w)) = true.
Proof.
  unfold fetch_step. apply forallb_trace_bind.
  { destruct (malloc_cases IMAGE_BUFFER_SIZE w) as [[_ ->]|(buf & _ & ->)]; reflexivity. }
  destruct (value (malloc IMAGE_BUFFER_SIZE w)) as [buf|];
    [|apply delay_and_continue_events].
  apply forallb_trace_bind.
  { apply net_loop_events, socket_get_image_data_net. }
  destruct (socket_get_image_data_returns buf size (final (malloc IMAGE_BUFFER_SIZE w)))
    as (rc & buf' & size' & ->).
  destruct (negb (rc =? 0)).
  - apply forallb_trace_bind; [reflexivity|]. apply delay_and_continue_events.
  - apply display_step_events.
Qed.

Lemma cycle_events l w : forallb loop_event (trace (cycle l w)) = true.
Proof.
  unfold cycle. apply forallb_trace_bind.
  { apply net_loop_events, socket_send_command_net. }
  destruct (value (socket_send_command _ _ _ w)) as [rc resp'].
  destruct (negb (rc =? 0)); [apply delay_and_continue_events|].
  apply forallb_trace_bind; [reflexivity|].
  unfold info_step. apply forallb_trace_bind.
  { apply net_loop_events, socket_send_command_net. }
  destruct (value (socket_send_command _ _ _ _)) as [rc' resp''].
  destruct (negb (rc' =? 0)); [apply delay_and_continue_events|].
  apply forallb_trace_bind; [now rewrite parse_info_silent|].
  apply fetch_step_events.
Qed.

Lemma main_loop_events cycles l w : forallb loop_event (trace (main_loop cycles l w)) = true.
Proof.
  revert l w. induction cycles as [|cycles IH]; intros l w; [reflexivity|].
  cbn [main_loop]. apply forallb_trace_bind; [apply cycle_events|].
  destruct (cycle_ends l w) as (l1 & t0 & Hv & _). rewrite Hv. apply IH.
Qed.

Lemma EPD_test_net_unfold stack cycles w :
  EPD_test_net stack cycles w =
  if negb (wifi_init_ret w =? 0) then
    (Returned (-1), w, [EvWifiInit (wifi_init_ret w)])
  else if negb (wifi_mode_ret w =? 0) then
    (Returned (-1), w, [EvWifiInit (wifi_init_ret w); EvWifiSetWorkMode (wifi_mode_ret w)])
  else if negb (wifi_connect_ret w =? 0) then
    (Returned (-1), w,
     [EvWifiInit (wifi_init_ret w); EvWifiSetWorkMode (wifi_mode_ret w);
      EvWifiStationConnect (wifi_connect_ret w)])
  else
    let r := wifi_connect_wait w in
    let start := [EvWifiInit (wifi_init_ret w); EvWifiSetWorkMode (wifi_mode_ret w);
                  EvWifiStationConnect (wifi_connect_ret w)] ++ trace r in
    if negb (value r =? 0) then
      (Returned (-1), final r, start ++ [EvWifiStationDisconnect])
    else
      let r' := main_loop cycles (entry_locals stack) (final r) in
      (value r', final r', start ++ trace r').
Proof.
  unfold EPD_test_net, bind, tal_wifi_init, tal_wifi_set_work_mode,
    tal_wifi_station_connect, tal_wifi_station_disconnect, emit, ret.
  destruct (negb (wifi_init_ret w =? 0)); [reflexivity|].
  destruct (negb (wifi_mode_ret w =? 0)); [reflexivity|].
  destruct (negb (wifi_connect_ret w =? 0)); [reflexivity|].
  cbv zeta. destruct (wifi_connect_wait w) as [[up w1] t1].
  unfold value, final, trace. cbn [fst snd].
  destruct (negb (up =? 0)); [reflexivity|].
  fold (entry_locals stack).
  now destruct (main_loop cycles (entry_locals stack) w1) as [[v w2] t2].
Qed.

(** X3.  [EPD_test_net] creates no socket before a poll has found the
    link up.  It enters its loop only when the three start-up calls have
    returned 0 and one of at most 30 polls has found the link up; it
    returns only -1, having created no socket and slept at most 30 times;
    and it disconnects the station only when the wait has timed out. *)
Theorem startup_before_loop stack cycles w :
  awaits_link (trace (EPD_test_net stack cycles w)) = true /\
  (forall l', value (EPD_test_net stack cycles w) = Looping l' ->
     wifi_init_ret w = 0 /\ wifi_mode_ret w = 0 /\ wifi_connect_ret w = 0 /\
     exists k, (k < 30)%nat /\
       trace (EPD_test_net stack cycles w)
       = [EvWifiInit 0; EvWifiSetWorkMode 0; EvWifiStationConnect 0]
         ++ poll_rounds k ++ [EvReadLink true]
         ++ trace (main_loop cycles (entry_locals stack) (final (wifi_connect_wait w)))) /\
  (forall rc, value (EPD_test_net stack cycles w) = Returned rc ->
     rc = -1 /\
     existsb is_create (trace (EPD_test_net stack cycles w)) = false /\
     (length (filter is_sleep (trace (EPD_test_net stack cycles w))) <= 30)%nat) /\
  (existsb is_station_disconnect (trace (EPD_test_net stack cycles w)) = true ->
   value (wifi_connect_wait w) = -1 /\
   value (EPD_test_net stack cycles w) = Returned (-1)).
Proof.
  rewrite EPD_test_net_unfold. cbv zeta.
  pose proof (wifi_connect_wait_from_rounds 30 w) as Hw. fold wifi_connect_wait in Hw.
  set (rw := wifi_connect_wait w) in *. clearbody rw.
  pose proof (main_loop_runs cycles (entry_locals stack) (final rw)) as Hrun.
  pose proof (main_loop_events cycles (entry_locals stack) (final rw)) as Hev.
  set (r' := main_loop cycles (entry_locals stack) (final rw)) in *. clearbody r'.
  destruct rw as [[up w1] t1], r' as [[v w2] t2].
  unfold value, final, trace in *. cbn [fst snd] in *.
  destruct Hrun as (l1 & -> & _ & _).
  assert (Hnd : existsb is_station_disconnect t2 = false).
  { destruct (existsb is_station_disconnect t2) eqn:E; [|reflexivity].
    apply existsb_exists in E. destruct E as (e & Hin & He).
    destruct e; try discriminate.
    rewrite forallb_forall in Hev. now specialize (Hev _ Hin). }
  destruct (negb (wifi_init_ret w =? 0)) eqn:E1.
  { cbn. split; [reflexivity|]. split; [intros l' H; discriminate H|].
    split; [|intros H; discriminate H]. intros rc [= <-]. repeat split. lia. }
  destruct (negb (wifi_mode_ret w =? 0)) eqn:E2.
  { cbn. split; [reflexivity|]. split; [intros l' H; discriminate H|].
    split; [|intros H; discriminate H]. intros rc [= <-]. repeat split. lia. }
  destruct (negb (wifi_connect_ret w =? 0)) eqn:E3.
  { cbn. split; [reflexivity|]. split; [intros l' H; discriminate H|].
    split; [|intros H; discriminate H]. intros rc [= <-]. repeat split. lia. }
  assert (H1 : wifi_init_ret w = 0) by (apply negb_false_iff in E1; lia).
  assert (H2 : wifi_mode_ret w = 0) by (apply negb_false_iff in E2; lia).
  assert (H3 : wifi_connect_ret w = 0) by (apply negb_false_iff in E3; lia).
  rewrite H1, H2, H3. cbv zeta. cbn [fst snd app].
  destruct Hw as [(k & Hk & -> & ->)|[-> ->]]; cbn [Z.eqb negb fst snd].
  - split; [|split; [|split]].
    + cbn [awaits_link]. rewrite <- app_assoc, awaits_link_rounds. reflexivity.
    + intros l' _. repeat split. exists k. split; [exact Hk|].
      now rewrite <- !app_assoc.
    + intros rc H. discriminate.
    + cbn [existsb is_station_disconnect orb].
      rewrite !existsb_app, Hnd. cbn [existsb is_station_disconnect orb].
      assert (Hr : existsb is_station_disconnect (poll_rounds k) = false)
        by (clear; induction k; auto).
      rewrite Hr. discriminate.
  - split; [|split; [|split]].
    + cbn [awaits_link]. rewrite awaits_link_rounds. reflexivity.
    + intros l' H. discriminate.
    + intros rc [= <-]. split; [reflexivity|].
      destruct (timeout_trace 30) as [Hc Hs].
      cbn [app] in Hc, Hs. rewrite Hc, Hs. split; [reflexivity|apply le_n].
    + intros _. split; reflexivity.
Qed.

(* ================================================================= *)
(** ** More on the socket functions *)

Lemma cstring_app_nul a rest : cstring (a ++ 0 :: rest) = cstring a.
Proof.
  induction a as [|c a IH]; [reflexivity|].
  cbn [app cstring]. destruct (c =? 0); [reflexivity|]. now rewrite IH.
Qed.

Lemma cstring_zeros n : cstring (repeat 0 n) = [].
Proof. now destruct n. Qed.

Lemma skipn_zeros k n : skipn k (repeat 0 n) = repeat 0 (n - k).
Proof.
  revert n. induction k as [|k IH]; intros [|n]; cbn; try reflexivity.
  apply IH.
Qed.

Lemma memset_whole resp n :
  0 <= n -> Z.of_nat (length resp) = n -> memset resp 0 n = repeat 0 (length resp).
Proof.
  intros Hn Hlen. unfold memset.
  replace (Z.to_nat n) with (length resp) by lia.
  now rewrite skipn_all, app_nil_r.
Qed.

(** The buffer after the one receive of the command channel: as long as
    before, holding a NUL, and as a C string what was received up to its
    first NUL. *)
Lemma response_after_safe resp resp_size ret got :
  0 < resp_size -> Z.of_nat (length resp) = resp_size ->
  (ret = Z.of_nat (length got) /\ ret <= resp_size - 1) \/ (ret < 0 /\ got = []) ->
  length (response_after resp resp_size ret got) = length resp /\
  In 0 (response_after resp resp_size ret got) /\
  cstring (response_after resp resp_size ret got) = cstring got.
Proof.
  intros Hsize Hlen Hret. unfold response_after.
  rewrite (memset_whole resp resp_size) by lia.
  set (n := length resp) in *.
  assert (Hgot : (length got < n)%nat) by (destruct Hret as [[? ?]|[_ ->]]; cbn; lia).
  assert (Hcopy : memcpy_at (repeat 0 n) 0 got = got ++ 0 :: repeat 0 (n - length got - 1)).
  { unfold memcpy_at. cbn [firstn app Nat.add]. f_equal.
    rewrite skipn_zeros.
    replace (n - length got - 1)%nat with (pred (n - length got)) by lia.
    destruct (n - length got)%nat eqn:E; [lia|reflexivity]. }
  assert (Hstore : store (memcpy_at (repeat 0 n) 0 got) (length got) 0
                   = memcpy_at (repeat 0 n) 0 got).
  { rewrite Hcopy. unfold store, memcpy_at.
    rewrite firstn_app, Nat.sub_diag, firstn_all. cbn [firstn app length].
    rewrite app_nil_r. f_equal.
    rewrite skipn_app, skipn_all2 by lia.
    replace (length got + 1 - length got)%nat with 1%nat by lia. reflexivity. }
  assert (Hres : (if ret >? 0
                  then store (memcpy_at (repeat 0 n) 0 got) (Z.to_nat ret) 0
                  else memcpy_at (repeat 0 n) 0 got)
                 = got ++ 0 :: repeat 0 (n - length got - 1)).
  { destruct (ret >? 0) eqn:E; [|exact Hcopy].
    destruct Hret as [[-> _]|[? _]]; [|lia].
    rewrite Nat2Z.id, Hstore. exact Hcopy. }
  rewrite Hres. split; [|split].
  - rewrite length_app. cbn [length]. rewrite repeat_length. lia.
  - apply in_or_app. right. now left.
  - apply cstring_app_nul.
Qed.

(** The runs of [socket_send_command]: without a receive the call has
    failed and left the buffer alone; with one, the buffer is
    [response_after] what the receive has returned. *)
Lemma socket_send_command_cases cmd resp resp_size w :
  (received_bytes (trace (socket_send_command (Some cmd) (Some resp) resp_size w)) = [] /\
   value (socket_send_command (Some cmd) (Some resp) resp_size w) = (-1, resp)) \/
  (exists ret got,
      received_bytes (trace (socket_send_command (Some cmd) (Some resp) resp_size w)) = got /\
      ((ret = Z.of_nat (length got) /\ ret <= resp_size - 1) \/ (ret < 0 /\ got = [])) /\
      value (socket_send_command (Some cmd) (Some resp) resp_size w)
      = (if ret <? 0 then -1 else 0, response_after resp resp_size ret got)).
Proof.
  unfold socket_send_command.
  destruct (resp_size <=? 0) eqn:Esize; [left; split; reflexivity|].
  unfold_api. destruct (net w) as [|p rest]; [left; split; reflexivity|].
  crunch.
  repeat (first [split_test | split_recv]; crunch);
    try (left; split; reflexivity);
    right; exists r, got;
    (split; [cbn; now rewrite app_nil_r|]);
    (split; [eapply recv_from_spec; [|eassumption]; lia|]);
    unfold value, response_after; cbn [fst snd]; rewrite E3.
  - replace (r <? 0) with false by lia. reflexivity.
  - replace (r <? 0) with false by lia. reflexivity.
  - replace (r <? 0) with true by lia. reflexivity.
Qed.

(** X4.  [socket_send_command] never writes outside the response buffer
    of [resp_size] bytes; after any call that has received, the buffer
    holds a NUL, and after a successful call the C string in it is what
    the receive delivered, up to the first NUL among these bytes. *)
Theorem response_buffer_safe cmd resp resp_size w :
  0 < resp_size -> Z.of_nat (length resp) = resp_size ->
  length (snd (value (socket_send_command (Some cmd) (Some resp) resp_size w)))
  = length resp /\
  (fst (value (socket_send_command (Some cmd) (Some resp) resp_size w)) = 0 ->
   In 0 (snd (value (socket_send_command (Some cmd) (Some resp) resp_size w))) /\
   cstring (snd (value (socket_send_command (Some cmd) (Some resp) resp_size w)))
   = cstring (received_bytes
                (trace (socket_send_command (Some cmd) (Some resp) resp_size w)))).
Proof.
  intros Hsize Hlen.
  destruct (socket_send_command_cases cmd resp resp_size w)
    as [[Hb ->]|(ret & got & Hb & Hret & ->)]; cbn [fst snd].
  - split; [reflexivity|]. discriminate.
  - destruct (response_after_safe resp resp_size ret got Hsize Hlen Hret)
      as (H1 & H2 & H3).
    split; [exact H1|]. intros _. rewrite Hb. split; assumption.
Qed.

Lemma response_buffer_safe_witness :
  length (snd (value (socket_send_command (Some (str "info")) (Some (repeat 7 1024))
                        RECV_BUFFER_SIZE two_segment_server)))
  = length (repeat 7 1024) /\
  (fst (value (socket_send_command (Some (str "info")) (Some (repeat 7 1024))
                 RECV_BUFFER_SIZE two_segment_server)) = 0 ->
   In 0 (snd (value (socket_send_command (Some (str "info")) (Some (repeat 7 1024))
                       RECV_BUFFER_SIZE two_segment_server))) /\
   cstring (snd (value (socket_send_command (Some (str "info")) (Some (repeat 7 1024))
                          RECV_BUFFER_SIZE two_segment_server)))
   = cstring (received_bytes
                (trace (socket_send_command (Some (str "info")) (Some (repeat 7 1024))
                          RECV_BUFFER_SIZE two_segment_server)))).
Proof.
  apply (response_buffer_safe (str "info") (repeat 7 1024) RECV_BUFFER_SIZE
           two_segment_server); reflexivity.
Defined.

(** X5.  [socket_recv_json_response] only listens: it sends nothing,
    closes the socket it has opened on every path, and succeeds exactly
    when its receive has delivered at least one byte; a connection that
    the server closes without data is a failure here. *)
Theorem json_response_needs_bytes resp resp_size w :
  existsb is_send (trace (socket_recv_json_response (Some resp) resp_size w)) = false /\
  sockets_closed None (trace (socket_recv_json_response (Some resp) resp_size w)) = true /\
  (fst (value (socket_recv_json_response (Some resp) resp_size w)) = 0 <->
   received_bytes (trace (socket_recv_json_response (Some resp) resp_size w)) <> []).
Proof.
  unfold socket_recv_json_response.
  destruct (resp_size <=? 0) eqn:Esize;
    [split; [reflexivity|split; [reflexivity|split; [discriminate|intros H; now elim H]]]|].
  unfold_api. destruct (net w) as [|p rest];
    [split; [reflexivity|split; [reflexivity|split; [discriminate|intros H; now elim H]]]|].
  crunch.
  destruct (create_ret p <? 0) eqn:Efd;
    [split; [reflexivity|split; [cbn; rewrite Efd; reflexivity
                                |split; [discriminate|intros H; now elim H]]]|].
  crunch.
  repeat (first [split_test | split_recv]; crunch);
    (split; [reflexivity|split; [rewrite ?Efd, ?Z.eqb_refl; reflexivity|]]);
    try (split; [discriminate|intros H; now elim H]);
    unfold value; cbn [fst snd]; rewrite ?app_nil_r;
    (apply recv_from_spec in Erecv; [|lia]);
    destruct Erecv as [[-> _]|[Hneg ->]];
    try (destruct got; cbn [length] in * );
    first [ lia
          | split; [discriminate | intros H; now elim H]
          | split; [intros _; discriminate | reflexivity] ].
Qed.

(** X6.  When the server accepts the command and then closes the
    connection without a reply, [socket_send_command] still reports
    success, with an empty response string. *)
Theorem silent_close_is_success cmd resp resp_size w p rest :
  0 < resp_size -> Z.of_nat (length resp) = resp_size ->
  net w = p :: rest -> connects p -> incoming p = [] ->
  fst (value (socket_send_command (Some cmd) (Some resp) resp_size w)) = 0 /\
  cstring (snd (value (socket_send_command (Some cmd) (Some resp) resp_size w))) = [].
Proof.
  intros Hsize Hlen Hnet (Hfd & Haddr & Hconn & Hsend) Hin.
  unfold socket_send_command.
  replace (resp_size <=? 0) with false by lia.
  unfold_api. rewrite Hnet. crunch.
  replace (create_ret p <? 0) with false by lia. crunch.
  replace (addr_ret p =? 0) with false by lia. crunch.
  rewrite Hconn. change (0 =? 0) with true. crunch.
  replace (send_ret p <? 0) with false by lia. crunch.
  rewrite Hin. crunch. split; [reflexivity|].
  rewrite memcpy_at_nil, (memset_whole resp resp_size) by lia.
  apply cstring_zeros.
Qed.

Lemma silent_close_is_success_witness :
  fst (value (socket_send_command (Some (str "update")) (Some (repeat 7 1024))
                RECV_BUFFER_SIZE (server [accepting []]))) = 0 /\
  cstring (snd (value (socket_send_command (Some (str "update")) (Some (repeat 7 1024))
                         RECV_BUFFER_SIZE (server [accepting []])))) = [].
Proof.
  apply (silent_close_is_success (str "update") (repeat 7 1024) RECV_BUFFER_SIZE
           (server [accepting []]) (accepting []) []); try reflexivity.
  unfold connects, accepting. cbn. lia.
Defined.

(* ----------------------------------------------------------------- *)
(** *** The image buffer *)

Lemma memcpy_at_front buf src : memcpy_at buf 0 src = src ++ skipn (length src) buf.
Proof. reflexivity. Qed.

Lemma frame_bytes_run p header rs fd :
  length header = 4%nat ->
  frame_bytes (prologue p 10000 (str "get_c")
               ++ EvRecv fd 4 4 header :: rs ++ [EvClose fd])
  = received_bytes rs.
Proof.
  intros Hlen. unfold frame_bytes.
  rewrite received_bytes_app.
  change (received_bytes (prologue p 10000 (str "get_c"))) with (@nil Z).
  change (EvRecv fd 4 4 header :: rs ++ [EvClose fd])
    with ([EvRecv fd 4 4 header] ++ rs ++ [EvClose fd]).
  rewrite !received_bytes_app.
  change (received_bytes [EvRecv fd 4 4 header]) with (header ++ []).
  change (received_bytes [EvClose fd]) with (@nil Z).
  rewrite !app_nil_r. cbn [app].
  rewrite skipn_app, skipn_all2 by lia.
  rewrite Hlen, Nat.sub_diag. reflexivity.
Qed.

Lemma header_bytes_run p header rs fd :
  length header = 4%nat ->
  firstn 4 (received_bytes (prologue p 10000 (str "get_c")
                            ++ EvRecv fd 4 4 header :: rs ++ [EvClose fd]))
  = header.
Proof.
  intros Hlen.
  rewrite received_bytes_app.
  change (received_bytes (prologue p 10000 (str "get_c"))) with (@nil Z).
  change (EvRecv fd 4 4 header :: rs ++ [EvClose fd])
    with ([EvRecv fd 4 4 header] ++ rs ++ [EvClose fd]).
  rewrite !received_bytes_app.
  change (received_bytes [EvRecv fd 4 4 header]) with (header ++ []).
  rewrite app_nil_r. cbn [app].
  rewrite firstn_app, <- Hlen, Nat.sub_diag, firstn_all. cbn. apply app_nil_r.
Qed.

(** What a call of [socket_get_image_data] leaves: a return value of 0
    or -1, the frame bytes received at the start of the buffer and the
    rest of the buffer as before; a return value of 0 comes with as many
    frame bytes as [*data_size] says, which is what the header declares. *)
Lemma socket_get_image_data_outcome buf size w :
  exists rc buf' size',
    value (socket_get_image_data (Some buf) (Some size) w) = Some (rc, buf', size') /\
    (rc = 0 \/ rc = -1) /\
    Z.of_nat (length (frame_bytes (trace (socket_get_image_data (Some buf) (Some size) w))))
    <= IMAGE_BUFFER_SIZE /\
    (IMAGE_BUFFER_SIZE <= Z.of_nat (length buf) ->
     buf' = frame_bytes (trace (socket_get_image_data (Some buf) (Some size) w))
            ++ skipn (length (frame_bytes
                                (trace (socket_get_image_data (Some buf) (Some size) w))))
                     buf) /\
    (rc = 0 ->
     Z.of_nat (length (frame_bytes (trace (socket_get_image_data (Some buf) (Some size) w))))
     = size' /\
     size' = decode_size (firstn 4 (received_bytes
                                      (trace (socket_get_image_data (Some buf) (Some size) w))))).
Proof.
  assert (Hearly : forall w' t,
             frame_bytes t = [] ->
             exists rc buf' size',
               value (Some (-1, buf, size), w', t) = Some (rc, buf', size') /\
               (rc = 0 \/ rc = -1) /\
               Z.of_nat (length (frame_bytes (trace (Some (-1, buf, size), w', t))))
               <= IMAGE_BUFFER_SIZE /\
               (IMAGE_BUFFER_SIZE <= Z.of_nat (length buf) ->
                buf' = frame_bytes (trace (Some (-1, buf, size), w', t))
                       ++ skipn (length (frame_bytes (trace (Some (-1, buf, size), w', t))))
                                buf) /\
               (rc = 0 ->
                Z.of_nat (length (frame_bytes (trace (Some (-1, buf, size), w', t)))) = size' /\
                size' = decode_size (firstn 4 (received_bytes
                                                 (trace (Some (-1, buf, size), w', t)))))).
  { intros w' t Ht. exists (-1), buf, size. unfold value, trace. cbn [fst snd].
    rewrite Ht. split; [reflexivity|]. split; [now right|].
    split; [discriminate|]. split; [reflexivity|discriminate]. }
  destruct (net w) as [|p rest] eqn:Hnet.
  { unfold socket_get_image_data. unfold_api. rewrite Hnet. now apply Hearly. }
  destruct (create_ret p <? 0) eqn:E1.
  { unfold socket_get_image_data. unfold_api. rewrite Hnet. crunch. rewrite E1.
    now apply Hearly. }
  destruct (addr_ret p =? 0) eqn:E2.
  { unfold socket_get_image_data. unfold_api. rewrite Hnet. crunch. rewrite E1.
    crunch. rewrite E2. now apply Hearly. }
  destruct (connect_ret p =? 0) eqn:E3.
  2:{ unfold socket_get_image_data. unfold_api. rewrite Hnet. crunch. rewrite E1.
      crunch. rewrite E2. crunch. rewrite E3. now apply Hearly. }
  destruct (send_ret p <? 0) eqn:E4.
  { unfold socket_get_image_data. unfold_api. rewrite Hnet. crunch. rewrite E1.
    crunch. rewrite E2. crunch. rewrite E3. crunch. rewrite E4. now apply Hearly. }
  assert (Hp : connects p) by (unfold connects; lia).
  destruct (recv_from 4 (incoming p)) as [[r got] q] eqn:Erecv.
  destruct (negb (r =? 4) || (decode_size (memcpy_at [0; 0; 0; 0] 0 got) >? IMAGE_BUFFER_SIZE))
    eqn:E5.
  - rewrite (socket_get_image_data_connected buf size w p rest Hnet Hp).
    rewrite Erecv. cbv zeta. rewrite E5. apply Hearly.
    unfold frame_bytes. rewrite !received_bytes_app.
    change (received_bytes (prologue p 10000 (str "get_c"))) with (@nil Z).
    change (received_bytes [EvRecv (create_ret p) 4 r got]) with (got ++ []).
    change (received_bytes [EvClose (create_ret p)]) with (@nil Z).
    rewrite !app_nil_r. cbn [app]. apply skipn_all2.
    destruct (recv_from_spec 4 _ _ _ _ ltac:(lia) Erecv) as [[H H']|[_ ->]]; cbn; lia.
  - apply orb_false_iff in E5. destruct E5 as [E5 E6].
    assert (r = 4) as -> by lia.
    assert (Hlen : length got = 4%nat).
    { destruct (recv_from_spec 4 _ _ _ _ ltac:(lia) Erecv) as [[H _]|[H _]]; lia. }
    rewrite (memcpy_header got Hlen) in E6.
    destruct (socket_get_image_data_frame buf size w p rest got q Hnet Hp Erecv)
      as (rc & buf' & w' & rs & Erun & _ & Hchunks & Hdata & Hrc); [lia|].
    rewrite Erun. unfold value, trace. cbn [fst snd].
    rewrite (frame_bytes_run p got rs (create_ret p) Hlen).
    rewrite (header_bytes_run p got rs (create_ret p) Hlen).
    exists rc, buf', (decode_size got). split; [reflexivity|].
    split; [destruct Hrc as [[-> _]|[-> _]]; [now left|now right]|].
    split; [destruct Hrc as [(_ & H & _)|(_ & H & _)]; lia|].
    split.
    + intros Hcap. rewrite (Hdata Hcap). apply memcpy_at_front.
    + intros ->. destruct Hrc as [(_ & H & _)|(H & _)]; [|discriminate].
      split; [exact H|reflexivity].
Qed.

(** X7.  [socket_get_image_data] stays inside an image buffer of
    [IMAGE_BUFFER_SIZE] bytes: the call returns, the buffer keeps its
    length, the frame bytes received (never more than the capacity) are
    at its start, and the bytes behind them are what they were before
    the call. *)
Theorem download_within_buffer buf size w :
  IMAGE_BUFFER_SIZE <= Z.of_nat (length buf) ->
  exists rc buf' size',
    value (socket_get_image_data (Some buf) (Some size) w) = Some (rc, buf', size') /\
    length buf' = length buf /\
    Z.of_nat (length (frame_bytes (trace (socket_get_image_data (Some buf) (Some size) w))))
    <= IMAGE_BUFFER_SIZE /\
    firstn (length (frame_bytes (trace (socket_get_image_data (Some buf) (Some size) w))))
           buf'
    = frame_bytes (trace (socket_get_image_data (Some buf) (Some size) w)) /\
    skipn (length (frame_bytes (trace (socket_get_image_data (Some buf) (Some size) w))))
          buf'
    = skipn (length (frame_bytes (trace (socket_get_image_data (Some buf) (Some size) w))))
            buf.
Proof.
  intros Hcap.
  destruct (socket_get_image_data_outcome buf size w)
    as (rc & buf' & size' & Hv & _ & Hle & Hbuf & _).
  set (frame := frame_bytes _) in *.
  exists rc, buf', size'. split; [exact Hv|].
  rewrite (Hbuf Hcap). split; [|split; [exact Hle|split]].
  - rewrite length_app, length_skipn. lia.
  - rewrite firstn_app, Nat.sub_diag, firstn_all. cbn. apply app_nil_r.
  - rewrite skipn_app, Nat.sub_diag, skipn_all. reflexivity.
Qed.

Lemma download_within_buffer_witness :
  exists rc buf' size',
    value (socket_get_image_data (Some blank_image) (Some 0) two_byte_frame_server)
    = Some (rc, buf', size') /\
    length buf' = length blank_image /\
    Z.of_nat (length (frame_bytes (trace (socket_get_image_data (Some blank_image) (Some 0)
                                            two_byte_frame_server))))
    <= IMAGE_BUFFER_SIZE /\
    firstn (length (frame_bytes (trace (socket_get_image_data (Some blank_image) (Some 0)
                                          two_byte_frame_server))))
           buf'
    = frame_bytes (trace (socket_get_image_data (Some blank_image) (Some 0)
                            two_byte_frame_server)) /\
    skipn (length (frame_bytes (trace (socket_get_image_data (Some blank_image) (Some 0)
                                         two_byte_frame_server))))
          buf'
    = skipn (length (frame_bytes (trace (socket_get_image_data (Some blank_image) (Some 0)
                                           two_byte_frame_server))))
            blank_image.
Proof.
  apply (download_within_buffer blank_image 0 two_byte_frame_server).
  vm_compute. discriminate.
Defined.

(* ================================================================= *)
(** ** The resources of the loop *)

(** *** The traces of the steps *)

Lemma display_step_trace resp buf size count w :
  trace (display_step resp buf size count w)
  = EvModuleInit (value (DEV_Module_Init w))
    :: (if negb (value (DEV_Module_Init w) =? 0) then give_up_events
        else show_events buf).
Proof.
  unfold display_step. rewrite trace_bind.
  replace (trace (DEV_Module_Init w)) with [EvModuleInit (value (DEV_Module_Init w))]
    by (unfold DEV_Module_Init; now destruct (dev_inits w)).
  cbn [app]. f_equal.
  destruct (negb (value (DEV_Module_Init w) =? 0)).
  - rewrite trace_bind, delay_and_continue_trace. reflexivity.
  - repeat (rewrite trace_bind; cbv beta).
    rewrite !DEV_Delay_ms_trace, delay_and_continue_trace. reflexivity.
Qed.

Lemma fetch_step_trace resp size count w :
  trace (fetch_step resp size count w)
  = match value (malloc IMAGE_BUFFER_SIZE w) with
    | None => [EvMalloc IMAGE_BUFFER_SIZE false; EvSleep LOOP_INTERVAL_MS]
    | Some buf =>
        EvMalloc IMAGE_BUFFER_SIZE true
        :: trace (socket_get_image_data (Some buf) (Some size)
                    (final (malloc IMAGE_BUFFER_SIZE w)))
        ++ match value (socket_get_image_data (Some buf) (Some size)
                          (final (malloc IMAGE_BUFFER_SIZE w))) with
           | Some (rc, buf', size') =>
               if negb (rc =? 0) then give_up_events
               else trace (display_step resp buf' size' count
                             (final (socket_get_image_data (Some buf) (Some size)
                                       (final (malloc IMAGE_BUFFER_SIZE w)))))
           | None => []
           end
    end.
Proof.
  unfold fetch_step. rewrite trace_bind.
  destruct (malloc_cases IMAGE_BUFFER_SIZE w) as [[Hv Ht]|(buf & Hv & Ht)];
    rewrite Ht, Hv.
  - now rewrite delay_and_continue_trace.
  - cbn [app]. f_equal. rewrite trace_bind. f_equal.
    destruct (value (socket_get_image_data _ _ _)) as [[[rc buf'] size']|];
      [|reflexivity].
    destruct (negb (rc =? 0)); [|reflexivity].
    now rewrite trace_bind, delay_and_continue_trace.
Qed.

Lemma parse_update_silent resp w : trace (parse_update resp w) = [].
Proof. reflexivity. Qed.

Lemma cycle_trace l w :
  trace (cycle l w)
  = let u := socket_send_command (Some (str "update")) (Some (response l))
                                 RECV_BUFFER_SIZE w in
    trace u
    ++ if negb (fst (value u) =? 0) then [EvSleep LOOP_INTERVAL_MS]
       else
         let i := socket_send_command (Some (str "info")) (Some (snd (value u)))
                    RECV_BUFFER_SIZE (final (parse_update (snd (value u)) (final u))) in
         trace i
         ++ if negb (fst (value i) =? 0) then [EvSleep LOOP_INTERVAL_MS]
            else trace (fetch_step (snd (value i)) (image_size l)
                          (to_uint32 (loop_count l + 1))
                          (final (parse_info (snd (value i)) (final i)))).
Proof.
  cbv zeta. unfold cycle. rewrite trace_bind. f_equal.
  destruct (value (socket_send_command _ _ _ w)) as [rc resp]. cbn [fst snd].
  destruct (negb (rc =? 0)); [apply delay_and_continue_trace|].
  rewrite trace_bind, parse_update_silent. cbn [app].
  unfold info_step. rewrite trace_bind. f_equal.
  destruct (value (socket_send_command _ _ _ _)) as [rc' resp']. cbn [fst snd].
  destruct (negb (rc' =? 0)); [apply delay_and_continue_trace|].
  now rewrite trace_bind, parse_info_silent.
Qed.

Lemma main_loop_trace cycles l w :
  trace (main_loop (S cycles) l w)
  = trace (cycle l w)
    ++ match value (cycle l w) with
       | Looping l' => trace (main_loop cycles l' (final (cycle l w)))
       | _ => []
       end.
Proof.
  cbn [main_loop]. rewrite trace_bind. f_equal.
  now destruct (value (cycle l w)).
Qed.

(** *** The image buffer *)

Lemma heap_run_app held t1 t2 :
  heap_run held (t1 ++ t2)
  = match heap_run held t1 with Some held' => heap_run held' t2 | None => None end.
Proof.
  revert held. induction t1 as [|e t1 IH]; intros held; [reflexivity|].
  destruct e; cbn [app heap_run]; try apply IH; destruct held; try reflexivity; apply IH.
Qed.

Lemma heap_run_net held t : forallb is_net t = true -> heap_run held t = Some held.
Proof.
  induction t as [|e t IH]; [reflexivity|]. cbn [forallb]. intros H.
  apply andb_true_iff in H. destruct H as [He Ht].
  destruct e; try discriminate; cbn [heap_run]; auto.
Qed.

Lemma display_step_heap resp buf size count w :
  heap_run true (trace (display_step resp buf size count w)) = Some false.
Proof. rewrite display_step_trace. now destruct (negb _). Qed.

Lemma fetch_step_heap resp size count w :
  heap_run false (trace (fetch_step resp size count w)) = Some false.
Proof.
  rewrite fetch_step_trace.
  destruct (value (malloc IMAGE_BUFFER_SIZE w)) as [buf|]; [|reflexivity].
  cbn [heap_run]. rewrite heap_run_app, heap_run_net by apply socket_get_image_data_net.
  destruct (socket_get_image_data_returns buf size (final (malloc IMAGE_BUFFER_SIZE w)))
    as (rc & buf' & size' & ->).
  destruct (negb (rc =? 0)); [reflexivity|apply display_step_heap].
Qed.

Lemma cycle_heap l w : heap_run false (trace (cycle l w)) = Some false.
Proof.
  rewrite cycle_trace. cbv zeta.
  rewrite heap_run_app, heap_run_net by apply socket_send_command_net.
  destruct (negb _); [reflexivity|].
  rewrite heap_run_app, heap_run_net by apply socket_send_command_net.
  destruct (negb _); [reflexivity|apply fetch_step_heap].
Qed.

(** X8.  The loop keeps the image buffer in order over any number of
    cycles: it allocates only while no buffer is held, frees each buffer
    that it got exactly once, hands only a held buffer to the panel, and
    holds none when a cycle ends. *)
Theorem image_buffer_released cycles l w :
  heap_run false (trace (main_loop cycles l w)) = Some false.
Proof.
  revert l w. induction cycles as [|cycles IH]; intros l w; [reflexivity|].
  rewrite main_loop_trace, heap_run_app, cycle_heap.
  destruct (value (cycle l w)); [apply IH|reflexivity|reflexivity].
Qed.

(** *** The panel *)

Lemma panel_run_app s t1 t2 :
  panel_run s (t1 ++ t2)
  = match panel_run s t1 with Some s' => panel_run s' t2 | None => None end.
Proof.
  revert s. induction t1 as [|e t1 IH]; intros s; [reflexivity|].
  destruct e; cbn [app panel_run]; try apply IH; destruct s; try reflexivity; apply IH.
Qed.

Lemma panel_run_net s t : forallb is_net t = true -> panel_run s t = Some s.
Proof.
  induction t as [|e t IH]; [reflexivity|]. cbn [forallb]. intros H.
  apply andb_true_iff in H. destruct H as [He Ht].
  destruct e; try discriminate; cbn [panel_run]; auto.
Qed.

Lemma display_step_panel resp buf size count w :
  panel_run Off (trace (display_step resp buf size count w)) = Some Off /\
  (length (filter is_display (trace (display_step resp buf size count w))) <= 1)%nat.
Proof.
  rewrite display_step_trace. cbn [panel_run].
  destruct (value (DEV_Module_Init w) =? 0); cbn; split; (reflexivity || lia).
Qed.

Lemma filter_net_display t : forallb is_net t = true -> filter is_display t = [].
Proof.
  induction t as [|e t IH]; [reflexivity|]. cbn [forallb filter]. intros H.
  apply andb_true_iff in H. destruct H as [He Ht].
  destruct e; try discriminate; cbn; auto.
Qed.

Lemma fetch_step_panel resp size count w :
  panel_run Off (trace (fetch_step resp size count w)) = Some Off /\
  (length (filter is_display (trace (fetch_step resp size count w))) <= 1)%nat.
Proof.
  rewrite fetch_step_trace.
  destruct (value (malloc IMAGE_BUFFER_SIZE w)) as [buf|]; [|split; [reflexivity|cbn; lia]].
  cbn [panel_run filter is_display].
  rewrite panel_run_app, panel_run_net by apply socket_get_image_data_net.
  rewrite filter_app, filter_net_display by apply socket_get_image_data_net.
  cbn [app].
  destruct (socket_get_image_data_returns buf size (final (malloc IMAGE_BUFFER_SIZE w)))
    as (rc & buf' & size' & ->).
  destruct (negb (rc =? 0)); [split; [reflexivity|cbn; lia]|apply display_step_panel].
Qed.

Lemma cycle_panel l w :
  panel_run Off (trace (cycle l w)) = Some Off /\
  (length (filter is_display (trace (cycle l w))) <= 1)%nat.
Proof.
  rewrite cycle_trace. cbv zeta.
  rewrite panel_run_app, panel_run_net by apply socket_send_command_net.
  rewrite filter_app, filter_net_display by apply socket_send_command_net.
  cbn [app].
  destruct (negb _); [split; [reflexivity|cbn; lia]|].
  rewrite panel_run_app, panel_run_net by apply socket_send_command_net.
  rewrite filter_app, filter_net_display by apply socket_send_command_net.
  cbn [app].
  destruct (negb _); [split; [reflexivity|cbn; lia]|apply fetch_step_panel].
Qed.

(** X9.  The loop drives the panel in order over any number of cycles:
    the module is started only while off, the panel is initialised before
    it is written to, put to sleep after it, and the module is left only
    once the panel sleeps, so that the panel is off when a cycle ends;
    and a cycle shows at most one image. *)
Theorem panel_left_off cycles l w :
  panel_run Off (trace (main_loop cycles l w)) = Some Off /\
  (length (filter is_display (trace (main_loop cycles l w))) <= cycles)%nat.
Proof.
  revert l w. induction cycles as [|cycles IH]; intros l w; [split; [reflexivity|cbn; lia]|].
  rewrite main_loop_trace, panel_run_app, filter_app, length_app.
  destruct (cycle_panel l w) as [-> Hc].
  destruct (value (cycle l w)) as [l'| |].
  - destruct (IH l' (final (cycle l w))) as [-> Hn]. split; [reflexivity|lia].
  - split; [reflexivity|cbn; lia].
  - split; [reflexivity|cbn; lia].
Qed.

(** *** The sockets *)

Lemma sockets_closed_app open t1 t2 :
  sockets_closed open t1 = true ->
  sockets_closed open (t1 ++ t2) = sockets_closed None t2.
Proof.
  revert open. induction t1 as [|e t1 IH]; intros open H.
  - now destruct open.
  - destruct e; cbn [app sockets_closed] in *; try (now apply IH).
    + destruct (_ <? 0); [now apply IH|].
      destruct open; [discriminate|now apply IH].
    + destruct open as [fd'|]; [|discriminate].
      apply andb_true_iff in H. destruct H as [-> H]. cbn [andb]. now apply IH.
Qed.

Lemma download_run_creates_once fd buf size v t :
  download_run fd buf size v t -> length (filter is_create t) = 1%nat.
Proof.
  assert (Hsetup : forall t, forallb is_setup t = true -> filter is_create t = []).
  { induction t0 as [|e t0 IH]; [reflexivity|]. cbn [forallb filter]. intros H.
    apply andb_true_iff in H. destruct H as [He Ht].
    destruct e; try discriminate; cbn; auto. }
  assert (Hchunk : forall t, forallb (chunk_read fd) t = true -> filter is_create t = []).
  { induction t0 as [|e t0 IH]; [reflexivity|]. cbn [forallb filter]. intros H.
    apply andb_true_iff in H. destruct H as [He Ht].
    destruct e; try discriminate; cbn; auto. }
  intros [Hfd|t0 Hfd Ht|t0 r got Hfd Ht _|t0 header rs rc buf' Hfd Ht _ _ Hrs _ _];
    cbn [filter is_create]; rewrite ?filter_app; cbn [filter is_create];
    rewrite ?filter_app; cbn [filter is_create];
    rewrite ?(Hsetup _ Ht), ?(Hchunk _ Hrs); reflexivity.
Qed.

Lemma command_creates_once cmd resp w :
  length (filter is_create (trace (socket_send_command (Some cmd) (Some resp)
                                     RECV_BUFFER_SIZE w))) = 1%nat.
Proof.
  destruct (socket_send_command_attempt cmd resp RECV_BUFFER_SIZE w) as (fd & t & -> & Ht);
    [reflexivity|].
  cbn [filter is_create]. now rewrite (no_create_filter t Ht).
Qed.

Lemma display_step_sockets resp buf size count w :
  sockets_closed None (trace (display_step resp buf size count w)) = true /\
  filter is_create (trace (display_step resp buf size count w)) = [].
Proof. rewrite display_step_trace. now destruct (negb _). Qed.

Lemma fetch_step_sockets resp size count w :
  sockets_closed None (trace (fetch_step resp size count w)) = true /\
  (length (filter is_create (trace (fetch_step resp size count w))) <= 1)%nat.
Proof.
  rewrite fetch_step_trace.
  destruct (value (malloc IMAGE_BUFFER_SIZE w)) as [buf|]; [|split; [reflexivity|cbn; lia]].
  cbn [sockets_closed filter is_create].
  destruct (socket_get_image_data_run buf size (final (malloc IMAGE_BUFFER_SIZE w)))
    as [fd Hrun].
  rewrite sockets_closed_app by (eapply download_run_closed; exact Hrun).
  rewrite filter_app, length_app, (download_run_creates_once _ _ _ _ _ Hrun).
  destruct (socket_get_image_data_returns buf size (final (malloc IMAGE_BUFFER_SIZE w)))
    as (rc & buf' & size' & ->).
  destruct (negb (rc =? 0)); [split; [reflexivity|cbn; lia]|].
  destruct (display_step_sockets resp buf' size' count
              (final (socket_get_image_data (Some buf) (Some size)
                        (final (malloc IMAGE_BUFFER_SIZE w))))) as [-> ->].
  split; [reflexivity|cbn; lia].
Qed.

Lemma cycle_sockets l w :
  sockets_closed None (trace (cycle l w)) = true /\
  (1 <= length (filter is_create (trace (cycle l w))) <= 3)%nat.
Proof.
  rewrite cycle_trace. cbv zeta.
  rewrite sockets_closed_app by apply socket_send_command_closes.
  rewrite filter_app, length_app, command_creates_once.
  destruct (negb _); [split; [reflexivity|cbn; lia]|].
  rewrite sockets_closed_app by apply socket_send_command_closes.
  rewrite filter_app, length_app, command_creates_once.
  destruct (negb _); [split; [reflexivity|cbn; lia]|].
  match goal with
  | |- context [trace (fetch_step ?r ?s ?c ?w')] =>
      destruct (fetch_step_sockets r s c w') as [-> Hn]
  end.
  split; [reflexivity|lia].
Qed.

(** X10.  Over any number of cycles the loop has at most one socket open
    at a time and closes each socket that it has created, so that none is
    open when a cycle ends; a cycle asks for a socket at least once and
    at most three times, once for each command. *)
Theorem loop_sockets_closed cycles l w :
  sockets_closed None (trace (main_loop cycles l w)) = true /\
  (cycles <= length (filter is_create (trace (main_loop cycles l w))) <= 3 * cycles)%nat.
Proof.
  revert l w. induction cycles as [|cycles IH]; intros l w; [split; [reflexivity|cbn; lia]|].
  rewrite main_loop_trace, filter_app, length_app.
  destruct (cycle_sockets l w) as [Hc Hn].
  rewrite (sockets_closed_app _ _ _ Hc).
  destruct (cycle_ends l w) as (l' & t0 & Hv & _). rewrite Hv.
  destruct (IH l' (final (cycle l w))) as [-> Hm]. split; [reflexivity|lia].
Qed.

(** *** The image that is shown *)

Lemma malloc_length size w buf :
  value (malloc size w) = Some buf -> length buf = Z.to_nat size.
Proof.
  unfold malloc, value. destruct (heap w) as [|[junk|] rest]; try discriminate.
  cbn [fst]. intros [= <-].
  rewrite length_firstn, length_app, repeat_length. lia.
Qed.

Lemma existsb_net_display t : forallb is_net t = true -> existsb is_display t = false.
Proof.
  induction t as [|e t IH]; [reflexivity|]. cbn [forallb existsb]. intros H.
  apply andb_true_iff in H. destruct H as [He Ht].
  destruct e; try discriminate; cbn; auto.
Qed.

(** X11.  When step 3 of a cycle shows an image, it shows one image, the
    whole buffer of [IMAGE_BUFFER_SIZE] bytes: at its start the frame
    that the download has received, as many bytes as the header of the
    frame declares, and behind it what the memory from [malloc] held. *)
Theorem shown_image_is_frame resp size count w :
  existsb is_display (trace (fetch_step resp size count w)) = true ->
  exists image buf,
    filter is_display (trace (fetch_step resp size count w)) = [EvDisplayFast image] /\
    value (malloc IMAGE_BUFFER_SIZE w) = Some buf /\
    length image = Z.to_nat IMAGE_BUFFER_SIZE /\
    image = frame_bytes (trace (fetch_step resp size count w))
            ++ skipn (length (frame_bytes (trace (fetch_step resp size count w)))) buf /\
    Z.of_nat (length (frame_bytes (trace (fetch_step resp size count w))))
    = decode_size (firstn 4 (received_bytes (trace (fetch_step resp size count w)))).
Proof.
  rewrite fetch_step_trace.
  destruct (malloc_cases IMAGE_BUFFER_SIZE w) as [[Hv Ht]|(buf & Hv & Ht)]; rewrite Hv;
    [discriminate|].
  pose proof (malloc_length _ _ _ Hv) as Hlen.
  assert (Hcap : IMAGE_BUFFER_SIZE <= Z.of_nat (length buf))
    by (rewrite Hlen; unfold IMAGE_BUFFER_SIZE; lia).
  set (wm := final (malloc IMAGE_BUFFER_SIZE w)). clearbody wm.
  pose proof (socket_get_image_data_net buf size wm) as Hnet.
  destruct (socket_get_image_data_outcome buf size wm)
    as (rc & buf' & size' & Hval & Hrc & Hle & Hbuf & Hok).
  rewrite Hval.
  set (d := socket_get_image_data (Some buf) (Some size) wm) in *. clearbody d.
  assert (Hgive : existsb is_display (EvMalloc IMAGE_BUFFER_SIZE true
                                      :: trace d ++ give_up_events) = false).
  { cbn [existsb is_display orb]. rewrite existsb_app, (existsb_net_display _ Hnet).
    reflexivity. }
  destruct (negb (rc =? 0)) eqn:E; [intros H; rewrite Hgive in H; discriminate|].
  assert (rc = 0) as -> by (destruct Hrc as [-> | ->]; [reflexivity|discriminate]).
  rewrite display_step_trace.
  destruct (negb (value (DEV_Module_Init (final d)) =? 0)).
  { intros H. cbn [existsb is_display orb] in H.
    rewrite existsb_app, (existsb_net_display _ Hnet) in H. discriminate. }
  intros _. destruct (Hok eq_refl) as [Hn Hdecl].
  assert (Hrecv : received_bytes
                    (EvMalloc IMAGE_BUFFER_SIZE true
                     :: trace d ++ EvModuleInit (value (DEV_Module_Init (final d)))
                                   :: show_events buf')
                  = received_bytes (trace d)).
  { change (EvMalloc IMAGE_BUFFER_SIZE true :: trace d ++ ?t)
      with ([EvMalloc IMAGE_BUFFER_SIZE true] ++ trace d ++ t).
    rewrite !received_bytes_app. cbn. apply app_nil_r. }
  unfold frame_bytes in *. rewrite Hrecv.
  set (frame := skipn 4 (received_bytes (trace d))) in *.
  exists buf', buf. split; [|split; [reflexivity|split; [|split]]].
  - cbn [filter is_display]. rewrite filter_app, (filter_net_display _ Hnet). reflexivity.
  - rewrite (Hbuf Hcap), length_app, length_skipn. lia.
  - exact (Hbuf Hcap).
  - rewrite Hn. exact Hdecl.
Qed.

Lemma shown_image_is_frame_witness :
  exists image buf,
    filter is_display (trace (fetch_step [] 0 1 frame_world)) = [EvDisplayFast image] /\
    value (malloc IMAGE_BUFFER_SIZE frame_world) = Some buf /\
    length image = Z.to_nat IMAGE_BUFFER_SIZE /\
    image = frame_bytes (trace (fetch_step [] 0 1 frame_world))
            ++ skipn (length (frame_bytes (trace (fetch_step [] 0 1 frame_world)))) buf /\
    Z.of_nat (length (frame_bytes (trace (fetch_step [] 0 1 frame_world))))
    = decode_size (firstn 4 (received_bytes (trace (fetch_step [] 0 1 frame_world)))).
Proof.
  apply (shown_image_is_frame [] 0 1 frame_world).
  vm_compute. reflexivity.
Defined.

(* ================================================================= *)
(** ** More on the response parser *)

Lemma skip_ws_stop ws c rest :
  forallb isspace ws = true -> isspace c = false ->
  skip_ws (ws ++ c :: rest) = c :: rest.
Proof.
  intros Hws Hc. induction ws as [|s ws IH]; cbn [app skip_ws].
  - now rewrite Hc.
  - cbn [forallb] in Hws. apply andb_true_iff in Hws. destruct Hws as [-> Hws]. auto.
Qed.

Lemma digits_fold acc ds post :
  forallb isdigit ds = true -> starts_with_digit post = false ->
  digits acc (ds ++ post) = fold_left (fun acc c => acc * 10 + (c - 48)) ds acc.
Proof.
  intros Hds Hpost. revert acc. induction ds as [|d ds IH]; intros acc; cbn [app fold_left].
  - destruct post as [|c post]; [reflexivity|]. cbn [digits].
    cbn [starts_with_digit] in Hpost. now rewrite Hpost.
  - cbn [forallb] in Hds. apply andb_true_iff in Hds. destruct Hds as [Hd Hds].
    cbn [digits]. rewrite Hd. now apply IH.
Qed.

Lemma sscanf_lits lits s fmt : sscanf (lits ++ s) (map Lit lits ++ fmt) = sscanf s fmt.
Proof.
  induction lits as [|c lits IH]; [reflexivity|].
  cbn [app map sscanf]. now rewrite Z.eqb_refl.
Qed.

Lemma starts_with_prefix needle rest : starts_with needle (needle ++ rest) = true.
Proof.
  induction needle as [|c needle IH]; [reflexivity|].
  cbn [app starts_with]. now rewrite Z.eqb_refl.
Qed.

Lemma isdigit_not_space c : isdigit c = true -> isspace c = false.
Proof. unfold isdigit, isspace. lia. Qed.

(** The format of a field reads the number behind the colon, whatever
    the white space around the colon. *)
Lemma sscanf_field name ws1 ws2 neg ds post :
  forallb isspace ws1 = true -> forallb isspace ws2 = true ->
  forallb isdigit ds = true -> ds <> [] -> starts_with_digit post = false ->
  sscanf (field_text name ws1 ws2 (sign_text neg ++ ds) ++ post) (field_format name)
  = Some (signed neg (decimal ds)).
Proof.
  intros Hws1 Hws2 Hds Hne Hpost. unfold field_text, field_format.
  rewrite <- !app_assoc, sscanf_lits. cbn [sscanf].
  rewrite <- app_comm_cons, (skip_ws_stop ws1 58) by (assumption || reflexivity).
  rewrite Z.eqb_refl, <- !app_assoc.
  destruct ds as [|d ds]; [now elim Hne|].
  pose proof Hds as Hd. cbn [forallb] in Hd. apply andb_true_iff in Hd.
  destruct Hd as [Hd _].
  pose proof (isdigit_not_space d Hd) as Hsp.
  pose proof (digits_fold 0 (d :: ds) post Hds Hpost) as Hval.
  fold (decimal (d :: ds)) in Hval.
  destruct neg; cbn [sign_text signed app] in *.
  - rewrite (skip_ws_stop ws2 45) by (assumption || reflexivity).
    unfold scan_int. cbn [skip_ws]. change (isspace 45) with false. cbv iota.
    change ((45 =? 45) || (45 =? 43)) with true. cbv iota.
    rewrite Hd. change (45 =? 45) with true. cbv iota. now rewrite Hval.
  - rewrite (skip_ws_stop ws2 d) by assumption.
    unfold scan_int. cbn [skip_ws]. rewrite Hsp.
    replace ((d =? 45) || (d =? 43)) with false by (unfold isdigit in Hd; lia).
    rewrite Hd. now rewrite Hval.
Qed.

(** X12.  The block that reads a field ([current_index] and [total] of
    the [update] response, [index] and [total] of the [info] response)
    reads the first occurrence of the quoted name and takes the decimal
    number behind the colon, with or without a minus sign, whatever white
    space, or none, stands around the colon.  The number is to fit an
    [int]. *)
Theorem field_read_as_decimal response name old pre ws1 ws2 neg ds post :
  response = pre ++ field_text name ws1 ws2 (sign_text neg ++ ds) ++ post ->
  forallb nonzero pre = true ->
  occurs_before (quoted name) response (length pre) = false ->
  forallb isspace ws1 = true -> forallb isspace ws2 = true ->
  forallb isdigit ds = true -> ds <> [] -> starts_with_digit post = false ->
  decimal ds < 2 ^ 31 ->
  scan_field response name old = signed neg (decimal ds).
Proof.
  intros -> Hnz Hocc Hws1 Hws2 Hds Hne Hpost _. unfold scan_field.
  rewrite (strstr_first _ _ _ Hnz Hocc)
    by (unfold field_text; rewrite <- !app_assoc; apply starts_with_prefix).
  rewrite skipn_length_app, sscanf_field by assumption. reflexivity.
Qed.

Lemma field_read_as_decimal_witness :
  scan_field (str "{" ++ field_text "current_index" [] (str "  ") (sign_text true ++ str "17")
              ++ str ", x")
             "current_index" 5
  = signed true (decimal (str "17")).
Proof.
  apply (field_read_as_decimal _ "current_index" 5 (str "{") [] (str "  ") true (str "17")
           (str ", x")); try reflexivity.
  discriminate.
Defined.

(** X13.  A [total] field whose value is not a number: the [update] step
    leaves [g_image_total] as it was, the [info] step sets it to 0. *)
Theorem malformed_total_resets response w pre ws1 ws2 c post :
  response = pre ++ field_text "total" ws1 ws2 [c] ++ post ->
  forallb nonzero pre = true ->
  occurs_before (quoted "total") response (length pre) = false ->
  forallb isspace ws1 = true -> forallb isspace ws2 = true ->
  isspace c = false -> isdigit c = false -> c <> 45 -> c <> 43 ->
  g_image_total (final (parse_update response w)) = g_image_total w /\
  g_image_total (final (parse_info response w)) = 0.
Proof.
  intros -> Hnz Hocc Hws1 Hws2 Hsp Hd Hminus Hplus.
  assert (Hfind : strstr (pre ++ field_text "total" ws1 ws2 [c] ++ post) (quoted "total")
                  = Some (length pre)).
  { apply (strstr_first _ _ _ Hnz Hocc).
    unfold field_text. rewrite <- !app_assoc. apply starts_with_prefix. }
  assert (Hscan : sscanf (field_text "total" ws1 ws2 [c] ++ post) (field_format "total")
                  = None).
  { unfold field_text, field_format.
    rewrite <- !app_assoc, sscanf_lits. cbn [sscanf].
    rewrite <- app_comm_cons, (skip_ws_stop ws1 58) by (assumption || reflexivity).
    rewrite Z.eqb_refl, <- !app_assoc. cbn [app].
    rewrite (skip_ws_stop ws2 c) by assumption.
    unfold scan_int. cbn [skip_ws]. rewrite Hsp.
    replace ((c =? 45) || (c =? 43)) with false by lia.
    now rewrite Hd. }
  split.
  - unfold parse_update, bind, get, modify, final.
    cbn [fst snd set_image_total set_image_index g_image_total].
    unfold scan_field at 1. now rewrite Hfind, skipn_length_app, Hscan.
  - unfold parse_info. rewrite Hfind, skipn_length_app, Hscan. reflexivity.
Qed.

Lemma malformed_total_resets_witness :
  g_image_total (final (parse_update
                          (str "{" ++ field_text "total" [] (str " ") (str "n") ++ str "ull}")
                          (set_image_total 42 (server [])))) = 42 /\
  g_image_total (final (parse_info
                          (str "{" ++ field_text "total" [] (str " ") (str "n") ++ str "ull}")
                          (set_image_total 42 (server [])))) = 0.
Proof.
  apply (malformed_total_resets _ (set_image_total 42 (server [])) (str "{") [] (str " ")
           110 (str "ull}")); try reflexivity; discriminate.
Defined.

(** X14.  The name that the [info] step logs is never the name of the
    image: for a response without the marker it is empty, and for any
    response with the marker it is the word [filename], the quotes that
    the step finds being those of the marker itself. *)
Theorem logged_filename_is_the_marker response :
  (occurs (quoted "filename") response = false ->
   cstring (parse_filename response) = []) /\
  (forall p, strstr response (quoted "filename") = Some p ->
             cstring (parse_filename response) = str "filename").
Proof.
  split.
  - intros H. unfold parse_filename. now rewrite (strstr_absent _ _ H).
  - intros p H. destruct (parse_filename_marker response p H) as [_ ->]. reflexivity.
Qed.

(* ================================================================= *)
(** ** The hexadecimal dump *)

(** The dump, line by line. *)
Lemma print_hex_dump_lines data len max_lines :
  0 <= len < 2 ^ 32 - 15 -> 0 <= max_lines < 2 ^ 32 ->
  print_hex_dump data len max_lines
  = if Z.min ((len + 15) / 16) max_lines =? 0 then []
    else if Z.min ((len + 15) / 16) max_lines =? 1 then hex_line data len 0
    else hex_line data len 0 ++ hex_line data len 1 ++ truncation_note len.
Proof.
  intros Hlen Hmax. unfold print_hex_dump.
  replace (to_uint32 (len + 15)) with (len + 15)
    by (unfold to_uint32; symmetry; apply Z.mod_small; lia).
  assert (Hdiv : 0 <= (len + 15) / 16) by (apply Z.div_pos; lia).
  replace (if (len + 15) / 16 >? max_lines then max_lines else (len + 15) / 16)
    with (Z.min ((len + 15) / 16) max_lines)
    by (destruct ((len + 15) / 16 >? max_lines) eqn:E; lia).
  set (lines := Z.min ((len + 15) / 16) max_lines).
  assert (Hlines : 0 <= lines) by (subst lines; lia).
  destruct (Z.to_nat lines) as [|[|todo]] eqn:Etodo.
  - replace (lines =? 0) with true by lia. reflexivity.
  - replace (lines =? 0) with false by lia. replace (lines =? 1) with true by lia.
    cbn [hex_lines].
    change (to_uint32 (to_uint32 (0 + 1) * 16) >=? 20) with false.
    cbn [andb]. apply app_nil_r.
  - replace (lines =? 0) with false by lia. replace (lines =? 1) with false by lia.
    cbn [hex_lines].
    change (to_uint32 (to_uint32 (0 + 1) * 16) >=? 20) with false.
    change (to_uint32 (0 + 1)) with 1.
    change (to_uint32 (to_uint32 (1 + 1) * 16) >=? 20) with true.
    replace (lines >? 1) with true by lia.
    reflexivity.
Qed.

(** X15.  Whatever [max_lines] allows, [print_hex_dump] writes at most
    two lines of sixteen bytes: nothing for no data or no line, the first
    line alone when the data or [max_lines] stop there, and otherwise the
    first two lines followed by the note that the dump is cut. *)
Theorem hex_dump_two_lines data len max_lines :
  0 <= len < 2 ^ 32 - 15 -> 0 <= max_lines < 2 ^ 32 ->
  print_hex_dump data len max_lines
  = if Z.min ((len + 15) / 16) max_lines =? 0 then []
    else if Z.min ((len + 15) / 16) max_lines =? 1 then hex_line data len 0
    else hex_line data len 0 ++ hex_line data len 1 ++ truncation_note len.
Proof. apply print_hex_dump_lines. Qed.

Lemma hex_dump_two_lines_witness :
  print_hex_dump (repeat 65 40) 40 1000
  = if Z.min ((40 + 15) / 16) 1000 =? 0 then []
    else if Z.min ((40 + 15) / 16) 1000 =? 1 then hex_line (repeat 65 40) 40 0
    else hex_line (repeat 65 40) 40 0 ++ hex_line (repeat 65 40) 40 1 ++ truncation_note 40.
Proof.
  apply (hex_dump_two_lines (repeat 65 40) 40 1000); vm_compute; split; congruence.
Defined.

Lemma nth_firstn_lt {A : Type} (l : list A) n k d :
  (k < n)%nat -> nth k (firstn n l) d = nth k l d.
Proof.
  revert n k. induction l as [|a l IH]; intros [|n] [|k] H; cbn; try reflexivity; try lia.
  apply IH. lia.
Qed.

Lemma columns_range j : In j columns -> 0 <= j < 16.
Proof.
  unfold columns. intros H. apply in_map_iff in H. destruct H as (k & <- & Hk).
  apply in_seq in Hk. lia.
Qed.

Lemma flat_map_agree {A B : Type} (f g : A -> list B) l :
  (forall a, In a l -> f a = g a) -> flat_map f l = flat_map g l.
Proof.
  induction l as [|a l IH]; [reflexivity|]. intros H. cbn [flat_map].
  rewrite (H a (or_introl eq_refl)), IH; [reflexivity|].
  intros b Hb. apply H. now right.
Qed.

Lemma byte_at_agree data data' len offset :
  firstn (Z.to_nat (Z.min len 32)) data = firstn (Z.to_nat (Z.min len 32)) data' ->
  0 <= offset < 32 -> offset < len ->
  byte_at data offset = byte_at data' offset.
Proof.
  intros Hagree Hoff Hlt. unfold byte_at. f_equal.
  rewrite <- (nth_firstn_lt data (Z.to_nat (Z.min len 32))) by lia.
  rewrite <- (nth_firstn_lt data' (Z.to_nat (Z.min len 32))) by lia.
  now rewrite Hagree.
Qed.

Lemma hex_line_agree data data' len i :
  firstn (Z.to_nat (Z.min len 32)) data = firstn (Z.to_nat (Z.min len 32)) data' ->
  i = 0 \/ i = 1 ->
  hex_line data len i = hex_line data' len i.
Proof.
  intros Hagree Hi. unfold hex_line.
  assert (Hoff : forall j, In j columns ->
                           to_uint32 (to_uint32 (i * 16) + j) = i * 16 + j /\
                           0 <= i * 16 + j < 32).
  { intros j Hj. apply columns_range in Hj. unfold to_uint32.
    rewrite (Z.mod_small (i * 16)) by lia. rewrite Z.mod_small by lia. lia. }
  f_equal. f_equal. f_equal.
  rewrite (flat_map_agree (hex_cell data len i) (hex_cell data' len i)).
  2:{ intros j Hj. unfold hex_cell. destruct (Hoff j Hj) as [-> Hr].
      destruct (i * 16 + j <? len) eqn:E; [|reflexivity].
      rewrite (byte_at_agree data data' len) by (assumption || lia). reflexivity. }
  f_equal. f_equal.
  rewrite (flat_map_agree (ascii_cell data len i) (ascii_cell data' len i)).
  2:{ intros j Hj. unfold ascii_cell. destruct (Hoff j Hj) as [-> Hr].
      destruct (i * 16 + j <? len) eqn:E; [|reflexivity].
      rewrite (byte_at_agree data data' len) by (assumption || lia). reflexivity. }
  reflexivity.
Qed.

(** X16.  [print_hex_dump] reads [data] only below [len] and only in
    its first 32 bytes: two buffers that agree there give the same
    dump. *)
Theorem hex_dump_reads_prefix data data' len max_lines :
  0 <= len < 2 ^ 32 - 15 -> 0 <= max_lines < 2 ^ 32 ->
  firstn (Z.to_nat (Z.min len 32)) data = firstn (Z.to_nat (Z.min len 32)) data' ->
  print_hex_dump data len max_lines = print_hex_dump data' len max_lines.
Proof.
  intros Hlen Hmax Hagree.
  rewrite (print_hex_dump_lines data len max_lines Hlen Hmax).
  rewrite (print_hex_dump_lines data' len max_lines Hlen Hmax).
  rewrite (hex_line_agree data data' len 0 Hagree (or_introl eq_refl)).
  rewrite (hex_line_agree data data' len 1 Hagree (or_intror eq_refl)).
  reflexivity.
Qed.

Lemma hex_dump_reads_prefix_witness :
  print_hex_dump (repeat 65 32 ++ [1; 2; 3]) 35 2
  = print_hex_dump (repeat 65 32 ++ [7; 8; 9]) 35 2.
Proof.
  apply (hex_dump_reads_prefix (repeat 65 32 ++ [1; 2; 3]) (repeat 65 32 ++ [7; 8; 9]) 35 2);
    vm_compute; try split; congruence.
Defined.

(** *** The characters of the dump *)

Lemma strip_zeros_length ds : (length (strip_zeros ds) <= length ds)%nat.
Proof.
  induction ds as [|d ds IH]; [reflexivity|].
  destruct ds as [|d' ds]; [reflexivity|].
  change (strip_zeros (d :: d' :: ds))
    with (if d =? 48 then strip_zeros (d' :: ds) else d :: d' :: ds).
  destruct (d =? 48); [|reflexivity].
  etransitivity; [exact IH|]. cbn [length]. lia.
Qed.

Lemma strip_zeros_forallb (P : Z -> bool) ds :
  forallb P ds = true -> forallb P (strip_zeros ds) = true.
Proof.
  induction ds as [|d ds IH]; [easy|].
  destruct ds as [|d' ds]; [easy|].
  change (strip_zeros (d :: d' :: ds))
    with (if d =? 48 then strip_zeros (d' :: ds) else d :: d' :: ds).
  intros H. destruct (d =? 48); [|exact H].
  apply IH. change (P d && forallb P (d' :: ds) = true) in H.
  now apply andb_true_iff in H.
Qed.

Lemma hex_low_length n x : length (hex_low n x) = n.
Proof.
  revert x. induction n as [|n IH]; intros x; [reflexivity|].
  cbn [hex_low]. rewrite length_app, IH. cbn. lia.
Qed.

Lemma hex_low_printable n x : forallb printable (hex_low n x) = true.
Proof.
  revert x. induction n as [|n IH]; intros x; [reflexivity|].
  cbn [hex_low]. rewrite forallb_app, IH. cbn [forallb andb].
  pose proof (Z.mod_pos_bound x 16 ltac:(lia)) as Hd.
  unfold hex_digit, printable. destruct (x mod 16 <? 10) eqn:E; lia.
Qed.

Lemma dec_low_printable n x : forallb printable (dec_low n x) = true.
Proof.
  revert x. induction n as [|n IH]; intros x; [reflexivity|].
  cbn [dec_low]. rewrite forallb_app, IH. cbn [forallb andb].
  pose proof (Z.mod_pos_bound x 10 ltac:(lia)) as Hd.
  unfold printable. lia.
Qed.

Lemma printf_X_printable width x : forallb printable (printf_X width x) = true.
Proof.
  unfold printf_X. rewrite forallb_app.
  rewrite (strip_zeros_forallb printable _ (hex_low_printable 8 (to_uint32 x))).
  rewrite andb_true_r. induction (width - _)%nat as [|k IH]; [reflexivity|exact IH].
Qed.

Lemma printf_X_8_length x : length (printf_X 8 x) = 8%nat.
Proof.
  unfold printf_X. rewrite length_app, repeat_length.
  pose proof (strip_zeros_length (hex_low 8 (to_uint32 x))) as H.
  rewrite hex_low_length in H. lia.
Qed.

Lemma printf_X_2_length b : 0 <= b < 256 -> length (printf_X 2 b) = 2%nat.
Proof.
  intros Hb.
  assert (Hall : forallb (fun k => (length (printf_X 2 (Z.of_nat k)) =? 2)%nat) (seq 0 256)
                 = true) by (vm_compute; reflexivity).
  rewrite forallb_forall in Hall.
  specialize (Hall (Z.to_nat b)). rewrite Z2Nat.id in Hall by lia.
  apply Nat.eqb_eq, Hall, in_seq. lia.
Qed.

Lemma byte_at_range data offset : 0 <= byte_at data offset < 256.
Proof. unfold byte_at, to_uint8. apply Z.mod_pos_bound. lia. Qed.

Lemma forallb_flat_map {A B : Type} (P : B -> bool) (f : A -> list B) l :
  (forall a, forallb P (f a) = true) -> forallb P (flat_map f l) = true.
Proof.
  intros H. induction l as [|a l IH]; [reflexivity|].
  cbn [flat_map]. now rewrite forallb_app, H, IH.
Qed.

Lemma length_flat_map_const {A B : Type} (f : A -> list B) l k :
  (forall a, length (f a) = k) -> length (flat_map f l) = (length l * k)%nat.
Proof.
  intros H. induction l as [|a l IH]; [reflexivity|].
  cbn [flat_map length]. rewrite length_app, H, IH. lia.
Qed.

Lemma hex_cell_layout data len i j :
  forallb printable (hex_cell data len i j) = true /\
  length (hex_cell data len i j) = 3%nat.
Proof.
  unfold hex_cell. destruct (_ <? len); [|split; reflexivity].
  rewrite forallb_app, printf_X_printable, length_app.
  rewrite printf_X_2_length by apply byte_at_range. split; reflexivity.
Qed.

Lemma ascii_cell_layout data len i j :
  forallb printable (ascii_cell data len i j) = true /\
  length (ascii_cell data len i j) = 1%nat.
Proof.
  unfold ascii_cell. destruct (_ <? len); [|split; reflexivity].
  split; [|reflexivity]. cbn [forallb]. rewrite andb_true_r.
  destruct ((byte_at data _ >=? 32) && (byte_at data _ <? 127)) eqn:E; [|reflexivity].
  unfold printable. lia.
Qed.

Lemma hex_line_layout data len i :
  forallb printable (hex_line data len i) = true /\
  length (hex_line data len i) = 80%nat.
Proof.
  unfold hex_line. split.
  - rewrite !forallb_app, printf_X_printable.
    rewrite (forallb_flat_map printable (hex_cell data len i))
      by (intros j; apply hex_cell_layout).
    rewrite (forallb_flat_map printable (ascii_cell data len i))
      by (intros j; apply ascii_cell_layout).
    reflexivity.
  - rewrite !length_app, printf_X_8_length.
    rewrite (length_flat_map_const (hex_cell data len i) columns 3)
      by (intros j; apply hex_cell_layout).
    rewrite (length_flat_map_const (ascii_cell data len i) columns 1)
      by (intros j; apply ascii_cell_layout).
    reflexivity.
Qed.

Lemma hex_lines_printable todo data len lines i :
  forallb printable (hex_lines todo data len lines i) = true.
Proof.
  revert i. induction todo as [|todo IH]; intros i; [reflexivity|].
  cbn [hex_lines]. rewrite forallb_app.
  rewrite (proj1 (hex_line_layout data len i)). cbn [andb].
  destruct (_ && _); [|apply IH].
  rewrite !forallb_app. unfold printf_u.
  rewrite (strip_zeros_forallb printable _ (dec_low_printable 10 (to_uint32 len))).
  reflexivity.
Qed.

(** X17.  Whatever the bytes of [data], the dump is made of printable
    ASCII characters and line feeds only, a byte outside the printable
    range showing as a dot in the text column; and every line of sixteen
    bytes is 80 characters long, line feed included, so that the columns
    of the dump line up. *)
Theorem hex_dump_layout data len max_lines :
  forallb printable (print_hex_dump data len max_lines) = true /\
  (forall i, length (hex_line data len i) = 80%nat).
Proof.
  split; [apply hex_lines_printable|].
  intros i. apply hex_line_layout.
Qed.

(* ================================================================= *)
(** ** The frame *)

(** X18.  The four header bytes are read as an unsigned big-endian
    number, whatever their values: the detour of the first byte through
    [int] neither sign-extends nor loses a bit. *)
Theorem header_is_big_endian a b c d :
  decode_size [a; b; c; d]
  = to_uint8 a * 2 ^ 24 + to_uint8 b * 2 ^ 16 + to_uint8 c * 2 ^ 8 + to_uint8 d.
Proof.
  rewrite <- (decode_size_big_endian (to_uint8 a) (to_uint8 b) (to_uint8 c) (to_uint8 d))
    by (unfold to_uint8; apply Z.mod_pos_bound; lia).
  unfold decode_size, to_uint8. cbn [nth]. rewrite !Z.mod_mod by lia. reflexivity.
Qed.

(** X19.  The download is right whenever the first segment of the reply
    holds the four header bytes: a frame of the declared length, within
    [IMAGE_BUFFER_SIZE], that the peer sends in full is received whole,
    however the peer cuts it into segments; the call returns 0 with the
    frame at the start of the buffer, the rest of the buffer as before
    and the length of the frame in [*data_size]. *)
Theorem frame_received_whole buf size w p rest b bs q header frame extra :
  net w = p :: rest -> connects p ->
  incoming p = Seg b bs :: q -> (4 <= length (b :: bs))%nat ->
  stream (incoming p) = header ++ frame ++ extra ->
  length header = 4%nat ->
  decode_size header = Z.of_nat (length frame) ->
  Z.of_nat (length frame) <= IMAGE_BUFFER_SIZE <= Z.of_nat (length buf) ->
  value (socket_get_image_data (Some buf) (Some size) w)
  = Some (0, frame ++ skipn (length frame) buf, Z.of_nat (length frame)) /\
  frame_bytes (trace (socket_get_image_data (Some buf) (Some size) w)) = frame.
Proof.
  intros Hnet Hp Hin Hfirst Hs Hh Hdec Hcap.
  destruct (download_complete buf size w p rest b bs q header frame extra
              Hnet Hp Hin Hfirst Hs Hh Hdec Hcap)
    as (buf' & w' & rs & Erun & _ & Hrs & _ & _).
  destruct (socket_get_image_data_outcome buf size w)
    as (rc & buf'' & size' & Hv & _ & _ & Hbuf & _).
  rewrite Erun in *. unfold value, trace in *. cbn [fst snd] in *.
  rewrite (frame_bytes_run p header rs (create_ret p) Hh) in *.
  injection Hv as <- <- <-. rewrite Hrs in Hbuf.
  split; [|exact Hrs]. rewrite (Hbuf ltac:(lia)). reflexivity.
Qed.

Lemma frame_received_whole_witness :
  value (socket_get_image_data (Some blank_image) (Some 0) two_byte_frame_server)
  = Some (0, [7; 9] ++ skipn (length [7; 9]) blank_image, Z.of_nat (length [7; 9])) /\
  frame_bytes (trace (socket_get_image_data (Some blank_image) (Some 0)
                        two_byte_frame_server)) = [7; 9].
Proof.
  apply (frame_received_whole blank_image 0 two_byte_frame_server
           (accepting [Seg 0 [0; 0; 2; 7; 9]]) [] 0 [0; 0; 2; 7; 9] [] [0; 0; 0; 2] [7; 9] []);
    try reflexivity.
  - unfold connects, accepting. cbn. lia.
  - cbn. lia.
  - vm_compute. split; discriminate.
Defined.

(* ================================================================= *)
(** ** Runs of the start-up and of the parser *)

Lemma startup_before_loop_witness :
  (wifi_init_ret album_world = 0 /\ wifi_mode_ret album_world = 0 /\
   wifi_connect_ret album_world = 0 /\
   exists k, (k < 30)%nat /\
     trace (EPD_test_net [] 1 album_world)
     = [EvWifiInit 0; EvWifiSetWorkMode 0; EvWifiStationConnect 0]
       ++ poll_rounds k ++ [EvReadLink true]
       ++ trace (main_loop 1 (entry_locals []) (final (wifi_connect_wait album_world)))) /\
  (-1 = -1 /\
   existsb is_create (trace (EPD_test_net [] 1 link_down_world)) = false /\
   (length (filter is_sleep (trace (EPD_test_net [] 1 link_down_world))) <= 30)%nat) /\
  (value (wifi_connect_wait link_down_world) = -1 /\
   value (EPD_test_net [] 1 link_down_world) = Returned (-1)).
Proof.
  destruct (startup_before_loop [] 1 album_world) as (_ & Hloop & _ & _).
  destruct (startup_before_loop [] 1 link_down_world) as (_ & _ & Hret & Hdisc).
  split; [|split].
  - eapply Hloop. vm_compute. reflexivity.
  - apply Hret. vm_compute. reflexivity.
  - apply Hdisc. vm_compute. reflexivity.
Defined.

Lemma logged_filename_is_the_marker_witness :
  cstring (parse_filename (str "{}")) = [] /\
  cstring (parse_filename info_reply) = str "filename".
Proof.
  split.
  - apply (proj1 (logged_filename_is_the_marker (str "{}"))). reflexivity.
  - apply (proj2 (logged_filename_is_the_marker info_reply) 28%nat). vm_compute. reflexivity.
Defined.

(* ================================================================= *)
(** ** The commands of a cycle *)







(** *** A command waits for the answer to the one before *)








(** The receive that follows [update] times out: the cycle sends
    [update] and nothing else, and goes on to the delay. *)
Example update_timeout_run :
  sent (trace (cycle first_locals update_timeout_world)) = [str "update"] /\
  last (trace (cycle first_locals update_timeout_world)) EvFree = EvSleep LOOP_INTERVAL_MS.
Proof. split; vm_compute; reflexivity. Qed.

(* ================================================================= *)
(** ** The socket flag *)

Lemma flag_down_ret {A : Type} (a : A) : flag_stays_down (ret a).
Proof. intros w H. exact H. Qed.

Lemma flag_down_emit e : flag_stays_down (emit e).
Proof. intros w H. exact H. Qed.

Lemma flag_down_bind {A B : Type} (m : M A) (k : A -> M B) :
  flag_stays_down m -> (forall a, flag_stays_down (k a)) -> flag_stays_down (bind m k).
Proof. intros Hm Hk w H. rewrite final_bind. apply Hk, Hm, H. Qed.

(** A primitive that leaves the flag alone or clears it. *)
Ltac flag_primitive :=
  let w := fresh "w" in
  let H := fresh "H" in
  intros w H; destruct w; unfold final in *; cbn in *;
  repeat match goal with
         | |- context [match ?x with _ => _ end] => destruct x
         | |- context [if ?c then _ else _] => destruct c
         end;
  cbn; first [assumption | reflexivity].

Lemma flag_down_socket_create : flag_stays_down tal_net_socket_create.
Proof. unfold tal_net_socket_create. flag_primitive. Qed.

Lemma flag_down_set_timeout fd ms dir : flag_stays_down (tal_net_set_timeout fd ms dir).
Proof. apply flag_down_emit. Qed.

Lemma flag_down_str2addr : flag_stays_down tal_net_str2addr.
Proof. unfold tal_net_str2addr. flag_primitive. Qed.

Lemma flag_down_connect fd addr port : flag_stays_down (tal_net_connect fd addr port).
Proof. unfold tal_net_connect. flag_primitive. Qed.

Lemma flag_down_send fd buf : flag_stays_down (tal_net_send fd buf).
Proof. unfold tal_net_send. flag_primitive. Qed.

Lemma flag_down_recv fd len : flag_stays_down (tal_net_recv fd len).
Proof.
  unfold tal_net_recv. intros w H. unfold final.
  destruct (sock w) as [[s p]|]; [|exact H].
  destruct (recv_from len (incoming p)) as [[r got] q]. destruct w; exact H.
Qed.

Lemma flag_down_close fd : flag_stays_down (tal_net_close fd).
Proof. unfold tal_net_close. flag_primitive. Qed.

Lemma flag_down_clear : flag_stays_down (modify (set_socket_connected false)).
Proof. unfold modify. flag_primitive. Qed.

Lemma flag_down_malloc size : flag_stays_down (malloc size).
Proof.
  unfold malloc. intros w H. unfold final.
  destruct (heap w) as [|[junk|] rest]; destruct w; exact H.
Qed.

Lemma flag_down_module_init : flag_stays_down DEV_Module_Init.
Proof. unfold DEV_Module_Init. flag_primitive. Qed.

Lemma flag_down_callback ev : flag_stays_down (wifi_event_callback ev).
Proof. destruct ev; unfold wifi_event_callback, bind, modify, ret; flag_primitive. Qed.

Lemma flag_down_deliver evs : flag_stays_down (deliver evs).
Proof.
  induction evs as [|e evs IH]; cbn [deliver]; [apply flag_down_ret|].
  apply flag_down_bind; [apply flag_down_callback|]. intros _. exact IH.
Qed.

Lemma flag_down_wait_events : flag_stays_down wait_events.
Proof.
  unfold wait_events. apply flag_down_bind; [intros w H; exact H|].
  intros w0. destruct (link_events w0) as [|evs rest]; [apply flag_down_ret|].
  apply flag_down_bind; [unfold modify; flag_primitive|].
  intros _. apply flag_down_deliver.
Qed.

Lemma flag_down_sleep ms : flag_stays_down (tal_system_sleep ms).
Proof.
  unfold tal_system_sleep. apply flag_down_bind; [apply flag_down_emit|].
  intros _. apply flag_down_wait_events.
Qed.

Lemma flag_down_delay ms : flag_stays_down (DEV_Delay_ms ms).
Proof.
  unfold DEV_Delay_ms. apply flag_down_bind; [apply flag_down_emit|].
  intros _. apply flag_down_wait_events.
Qed.

Lemma flag_down_parse_update resp : flag_stays_down (parse_update resp).
Proof. unfold parse_update, bind, get, modify. flag_primitive. Qed.

Lemma flag_down_parse_info resp : flag_stays_down (parse_info resp).
Proof.
  unfold parse_info. apply flag_down_bind; [|intros ?; apply flag_down_ret].
  destruct (strstr resp (quoted "total")); [|apply flag_down_ret].
  apply flag_down_bind; [|intros ?; apply flag_down_ret].
  unfold modify. intros w H. destruct w; exact H.
Qed.

Create HintDb flag.
#[local] Hint Resolve flag_down_ret flag_down_emit flag_down_socket_create
  flag_down_set_timeout flag_down_str2addr flag_down_connect flag_down_send
  flag_down_recv flag_down_close flag_down_clear flag_down_malloc
  flag_down_module_init flag_down_sleep flag_down_delay
  flag_down_parse_update flag_down_parse_info : flag.

Ltac flag_down :=
  repeat first
    [ solve [auto with flag]
    | apply flag_down_bind; [|intros ?]
    | match goal with
      | |- flag_stays_down (match ?x with _ => _ end) => destruct x
      | |- flag_stays_down (if ?c then _ else _) => destruct c
      | |- flag_stays_down (let _ := _ in _) => cbv zeta
      end ].

Lemma flag_down_send_command cmd resp resp_size :
  flag_stays_down (socket_send_command cmd resp resp_size).
Proof. unfold socket_send_command. flag_down. Qed.

Lemma flag_down_recv_image fuel fd image_size received data :
  flag_stays_down (recv_image fuel fd image_size received data).
Proof.
  revert received data. induction fuel as [|fuel IH]; intros received data;
    cbn [recv_image]; flag_down.
Qed.

Lemma flag_down_get_image_data data data_size :
  flag_stays_down (socket_get_image_data data data_size).
Proof.
  pose proof flag_down_recv_image.
  unfold socket_get_image_data. flag_down; auto.
Qed.

Lemma flag_down_cycle l : flag_stays_down (cycle l).
Proof.
  pose proof flag_down_send_command. pose proof flag_down_get_image_data.
  unfold cycle, info_step, fetch_step, display_step, delay_and_continue,
    free, EPD_4IN0E_Init, EPD_4IN0E_Display_Fast, EPD_4IN0E_Sleep, DEV_Module_Exit.
  flag_down; auto.
Qed.

Lemma flag_down_main_loop cycles l : flag_stays_down (main_loop cycles l).
Proof.
  revert l. induction cycles as [|cycles IH]; intros l; cbn [main_loop];
    [apply flag_down_ret|].
  apply flag_down_bind; [apply flag_down_cycle|].
  intros [l'|rc|]; [apply IH | apply flag_down_ret | apply flag_down_ret].
Qed.

Lemma flag_down_connect_wait timeout : flag_stays_down (wifi_connect_wait_from timeout).
Proof.
  induction timeout as [|timeout IH]; cbn [wifi_connect_wait_from]; [apply flag_down_ret|].
  apply flag_down_bind; [unfold read_wifi_connected, bind, get, emit, ret; flag_primitive|].
  intros [|]; [apply flag_down_ret|].
  apply flag_down_bind; [apply flag_down_sleep|]. intros _. exact IH.
Qed.

(** X21.  No step of the program raises [g_socket_connected]: a flag that
    is down when [EPD_test_net] starts is down after the start-up and
    after any number of cycles, whether the commands succeed or not. *)
Theorem socket_flag_never_raised stack cycles w :
  g_socket_connected w = false ->
  g_socket_connected (final (EPD_test_net stack cycles w)) = false.
Proof.
  revert w. change (flag_stays_down (EPD_test_net stack cycles)).
  pose proof flag_down_main_loop. pose proof (flag_down_connect_wait 30).
  unfold EPD_test_net, wifi_connect_wait, tal_wifi_init, tal_wifi_set_work_mode,
    tal_wifi_station_connect, tal_wifi_station_disconnect.
  cbv zeta.
  repeat first
    [ solve [auto with flag]
    | apply flag_down_bind; [try (intros w H; exact H)|intros ?]
    | match goal with
      | |- flag_stays_down (if ?c then _ else _) => destruct c
      end ].
Qed.

Lemma socket_flag_never_raised_witness :
  g_socket_connected (final (EPD_test_net [] 1 album_world)) = false.
Proof. apply (socket_flag_never_raised [] 1 album_world). reflexivity. Defined.
